(** * Amount conversion helpers and reward webhook of the HUM backend

    A shallow embedding of [src/server.js]: the Express handlers of the
    reward service and the UI-amount conversion helpers that follow them in
    the same file.

    JavaScript [number]s are IEEE 754 binary64 values.  They are represented
    by [spec_float] of the Standard Library; arithmetic on them is the exact
    rational result rounded to the nearest representable value, ties to even,
    which is how ECMAScript defines [Number::multiply], [Number::divide] and
    [Number::subtract].  JavaScript [bigint]s are [Z], and JavaScript strings
    are [string]s: the bytes of their UTF-8 encoding. *)

From Stdlib Require Import ZArith QArith Qround Qpower Qabs Lia Lqa Bool List.
From Stdlib Require Import String Ascii.
From Stdlib Require Import SpecFloat.
Import ListNotations.

Local Open Scope Z_scope.

(** ** JavaScript numbers *)

Module Number.

Definition number := spec_float.

Definition NaN : number := S754_nan.
Definition pos_zero : number := S754_zero false.
Definition neg_zero : number := S754_zero true.
Definition pos_inf : number := S754_infinity false.
Definition neg_inf : number := S754_infinity true.

(** Width of the significand and the exponents of the least and the greatest
    unit in the last place of binary64. *)
Definition prec : Z := 53.
Definition emin : Z := -1074.
Definition emax : Z := 971.

(** [Rabs x] is the magnitude of a finite number as an exact rational, and
    [R x] its signed value (ECMAScript's mathematical value of [x]). *)
Definition Rabs (x : number) : Q :=
  match x with
  | S754_finite _ m e => (inject_Z (Zpos m) * 2 ^ e)%Q
  | _ => 0%Q
  end.

Definition sign_of (x : number) : bool :=
  match x with
  | S754_zero s | S754_infinity s | S754_finite s _ _ => s
  | S754_nan => false
  end.

Definition R (x : number) : Q :=
  if sign_of x then (- Rabs x)%Q else Rabs x.

(** [ilog2 q] is the integer [k] with [2^k <= q < 2^(k+1)], for [0 < q]. *)
Definition ilog2 (q : Q) : Z :=
  let k := Z.log2 (Qnum q) - Z.log2 (Zpos (Qden q)) in
  if Qle_bool (2 ^ k) q then k else k - 1.

(** Rounding of a rational to the nearest integer, ties to even. *)
Definition rne (q : Q) : Z :=
  let f := Qfloor q in
  match ((q - inject_Z f) ?= 1 # 2)%Q with
  | Lt => f
  | Gt => f + 1
  | Eq => if Z.even f then f else f + 1
  end.

(** The exponent of the unit in the last place for a magnitude whose
    binary logarithm is [k]. *)
Definition cexp (k : Z) : Z := Z.max (k - (prec - 1)) emin.

(** Canonical number with sign [s] and value [m * 2^c], for
    [0 <= m <= 2^53]. *)
Definition build (s : bool) (m c : Z) : number :=
  match m with
  | Z0 => S754_zero s
  | Zpos p =>
      if m =? 2 ^ prec
      then (if c + 1 <=? emax then S754_finite s (Z.to_pos (2 ^ (prec - 1))) (c + 1)
            else S754_infinity s)
      else (if c <=? emax then S754_finite s p c else S754_infinity s)
  | Zneg _ => S754_nan
  end.

(** [Fs s a] rounds the magnitude [a >= 0] and attaches the sign [s]. *)
Definition Fs (s : bool) (a : Q) : number :=
  if Qle_bool a 0 then S754_zero s
  else let c := cexp (ilog2 a) in build s (rne (a / 2 ^ c)) c.

(** The value [Fs] rounds the magnitude [a] to, before the range is
    checked: the nearest multiple of the unit in the last place. *)
Definition rnd (a : Q) : Q :=
  if Qle_bool a 0 then 0%Q
  else let c := cexp (ilog2 a) in (inject_Z (rne (a / 2 ^ c)) * 2 ^ c)%Q.

Definition signed (s : bool) (a : Q) : Q := if s then (- a)%Q else a.

(** ECMAScript's rounding of a mathematical value to a Number:
    the nearest binary64 value, ties to even, infinite beyond the range. *)
Definition F (q : Q) : number :=
  match Qnum q with
  | Z0 => pos_zero
  | Zpos _ => Fs false q
  | Zneg _ => Fs true (- q)
  end.

Definition is_nan (x : number) : bool :=
  match x with S754_nan => true | _ => false end.

Definition is_finite (x : number) : bool :=
  match x with S754_zero _ | S754_finite _ _ _ => true | _ => false end.

(** [x * y] on Numbers. *)
Definition mul (x y : number) : number :=
  match x, y with
  | S754_finite sx _ _, S754_finite sy _ _ =>
      Fs (xorb sx sy) (Rabs x * Rabs y)
  | _, _ => SFmul 53 1024 x y
  end.

(** [x / y] on Numbers. *)
Definition div (x y : number) : number :=
  match x, y with
  | S754_finite sx _ _, S754_finite sy _ _ =>
      Fs (xorb sx sy) (Rabs x / Rabs y)
  | _, _ => SFdiv 53 1024 x y
  end.

(** Multiplying or dividing by a finite non-zero Number of sign [flip]
    maps the magnitude of a finite operand through [g] and combines the
    signs; the other operands keep their kind. *)
Definition scale (flip : bool) (g : Q -> Q) (x : number) : number :=
  match x with
  | S754_nan => S754_nan
  | S754_zero s => S754_zero (xorb flip s)
  | S754_infinity s => S754_infinity (xorb flip s)
  | S754_finite s _ _ => Fs (xorb flip s) (g (Rabs x))
  end.

(** [x - y] on Numbers. *)
Definition sub (x y : number) : number :=
  match x, y with
  | S754_finite _ _ _, S754_finite _ _ _ => F (R x - R y)
  | _, _ => SFsub 53 1024 x y
  end.

(** Comparison of Numbers by value: [None] when an operand is [NaN];
    the two zeros are equal. *)
Definition compare (x y : number) : option comparison :=
  match x, y with
  | S754_nan, _ | _, S754_nan => None
  | S754_infinity sx, S754_infinity sy =>
      Some (match sx, sy with
            | true, false => Lt
            | false, true => Gt
            | _, _ => Eq
            end)
  | S754_infinity s, _ => Some (if s then Lt else Gt)
  | _, S754_infinity s => Some (if s then Gt else Lt)
  | _, _ => Some (R x ?= R y)%Q
  end.

(** [x < y], [x <= y], [x >= y] and [x == y] of JavaScript. *)
Definition ltb (x y : number) : bool :=
  match compare x y with Some Lt => true | _ => false end.

Definition leb (x y : number) : bool :=
  match compare x y with Some (Lt | Eq) => true | _ => false end.

Definition geb (x y : number) : bool :=
  match compare x y with Some (Gt | Eq) => true | _ => false end.

Definition eqb (x y : number) : bool :=
  match compare x y with Some Eq => true | _ => false end.

(** [Object.is(x, y)] on Numbers: the same Number value, with the two
    zeros told apart and [NaN] the same as itself. *)
Definition Object_is (x y : number) : bool :=
  match x, y with
  | S754_nan, S754_nan => true
  | S754_zero sx, S754_zero sy => Bool.eqb sx sy
  | S754_infinity sx, S754_infinity sy => Bool.eqb sx sy
  | S754_finite sx mx ex, S754_finite sy my ey =>
      Bool.eqb sx sy && Pos.eqb mx my && Z.eqb ex ey
  | _, _ => false
  end.

(** [Math.trunc]: the integral part, rounding toward zero; the sign is kept,
    also on a zero result. *)
Definition Math_trunc (x : number) : number :=
  match x with
  | S754_finite s _ _ => Fs s (inject_Z (Qfloor (Rabs x)))
  | _ => x
  end.

(** [Number(z)] for a bigint [z]. *)
Definition Number_of_bigint (z : Z) : number := F (inject_Z z).

(** [BigInt(x)] for a Number [x]: a [RangeError] ([None]) unless [x] is an
    integral Number. *)
Definition BigInt (x : number) : option Z :=
  match x with
  | S754_nan | S754_infinity _ => None
  | _ => if Qeq_bool (inject_Z (Qfloor (R x))) (R x) then Some (Qfloor (R x))
         else None
  end.

(** [Math.pow(10, d)] for an integer [d].  ECMAScript leaves [Math.pow]
    implementation-approximated; the model returns the correctly rounded
    power, which is exact for [0 <= d <= 22]. *)
Definition Math_pow10 (d : Z) : number := F (10 ^ d).

(** *** Number to string *)

(** [ilog10 a] is the integer [n] with [10^n <= a < 10^(n+1)], for [0 < a]. *)
Definition ilog10 (a : Q) : Z :=
  let g := (ilog2 a * 1233) / 4096 in
  if Qle_bool (10 ^ (g + 2)) a then g + 2
  else if Qle_bool (10 ^ (g + 1)) a then g + 1
  else if Qle_bool (10 ^ g) a then g
  else g - 1.

(** The candidates [(n, s)] with [k] digits for the magnitude [a] of [x]:
    [10^(k-1) <= s < 10^k] and [s * 10^(n-k)] rounds to [x]. *)
Definition candidates (x : number) (a : Q) (n0 k : Z) : list (Z * Z) :=
  let at_n (n : Z) : list (Z * Z) :=
    let f := Qfloor (a * 10 ^ (k - n)) in
    map (fun s => (n, s)) [f; f + 1] in
  filter (fun ns : Z * Z =>
            let (n, s) := ns in
            (10 ^ (k - 1) <=? s) && (s <? 10 ^ k)
            && Object_is (Fs false (inject_Z s * 10 ^ (n - k))) (SFabs x))
         (at_n n0 ++ at_n (n0 + 1)).

(** Among candidates, the one closest to [a]; the even [s] on a tie. *)
Definition closer (a : Q) (k : Z) (p q : Z * Z) : Z * Z :=
  let dist (ns : Z * Z) := Qabs (inject_Z (snd ns) * 10 ^ (fst ns - k) - a) in
  match (dist p ?= dist q)%Q with
  | Lt => p
  | Gt => q
  | Eq => if Z.even (snd p) then p else q
  end.

Definition best (a : Q) (k : Z) (l : list (Z * Z)) : option (Z * Z) :=
  match l with
  | [] => None
  | p :: l' => Some (fold_left (closer a k) l' p)
  end.

(** The digits [(n, k, s)] of ECMAScript's [Number::toString]: [k] is as
    small as possible; the search tries [k = k0, k0 + 1, ...]. *)
Fixpoint shortest (x : number) (a : Q) (n0 : Z) (fuel : nat) (k : Z)
  : option (Z * Z * Z) :=
  match fuel with
  | O => None
  | S fuel' =>
      match best a k (candidates x a n0 k) with
      | Some (n, s) => Some (n, k, s)
      | None => shortest x a n0 fuel' (k + 1)
      end
  end.

Definition digit_char (d : Z) : ascii := ascii_of_nat (48 + Z.to_nat d).

(** The [k] decimal digits of [s], most significant first. *)
Fixpoint digits_of (k : nat) (s : Z) (acc : list ascii) : list ascii :=
  match k with
  | O => acc
  | S k' => digits_of k' (s / 10) (digit_char (s mod 10) :: acc)
  end.

Fixpoint count_digits (fuel : nat) (s : Z) : nat :=
  match fuel with
  | O => O
  | S fuel' => if s <? 10 then 1%nat else S (count_digits fuel' (s / 10))
  end.

(** Decimal numeral of a non-negative integer. *)
Definition decimal (s : Z) : list ascii :=
  digits_of (count_digits 400 s) s [].

Definition zeros (n : Z) : list ascii := repeat "0"%char (Z.to_nat n).

(** Steps 6 to 10 of [Number::toString] for radix 10. *)
Definition render (n k s : Z) : list ascii :=
  let ds := digits_of (Z.to_nat k) s [] in
  if (k <=? n) && (n <=? 21) then ds ++ zeros (n - k)
  else if (0 <? n) && (n <=? 21)
       then firstn (Z.to_nat n) ds ++ "."%char :: skipn (Z.to_nat n) ds
  else if (-6 <? n) && (n <=? 0)
       then "0"%char :: "."%char :: zeros (- n) ++ ds
  else
    let e := n - 1 in
    let exponent :=
      "e"%char :: (if e <? 0 then "-"%char else "+"%char) :: decimal (Z.abs e) in
    if k =? 1 then ds ++ exponent
    else firstn 1 ds ++ "."%char :: skipn 1 ds ++ exponent.

(** [x.toString()] for a Number [x] (radix 10). *)
Definition Number_toString (x : number) : string :=
  match x with
  | S754_nan => "NaN"
  | S754_zero _ => "0"
  | S754_infinity s => if s then "-Infinity" else "Infinity"
  | S754_finite sg _ _ =>
      let a := Rabs x in
      match shortest x a (ilog10 a + 1) 21 1 with
      | Some (n, k, s) =>
          string_of_list_ascii
            ((if sg then ["-"%char] else []) ++ render n k s)
      | None => "NaN"
      end
  end.

(** *** String to number *)

Definition is_digit (c : ascii) : bool :=
  let n := nat_of_ascii c in (48 <=? n)%nat && (n <=? 57)%nat.

(** A string is a sequence of bytes: the UTF-8 encoding of the JavaScript
    string.  [parseFloat] trims the white space and the line terminators of
    ECMAScript at the start of its input: in ASCII the characters 9 to 13
    and 32; beyond ASCII U+00A0, U+1680, U+2000 to U+200A, U+2028, U+2029,
    U+202F, U+205F, U+3000 and U+FEFF, which UTF-8 encodes in two or three
    bytes. *)
Definition is_space (c : ascii) : bool :=
  let n := nat_of_ascii c in
  (n =? 32)%nat || ((9 <=? n)%nat && (n <=? 13)%nat).

(** The first byte of the encoding of a white space beyond ASCII. *)
Definition space_lead (c : ascii) : bool :=
  let n := nat_of_ascii c in
  (n =? 194)%nat || (n =? 225)%nat || (n =? 226)%nat || (n =? 227)%nat
  || (n =? 239)%nat.

(** U+00A0 is C2 A0. *)
Definition is_space2 (c1 c2 : ascii) : bool :=
  (nat_of_ascii c1 =? 194)%nat && (nat_of_ascii c2 =? 160)%nat.

(** U+1680 is E1 9A 80; U+2000 to U+200A are E2 80 80 to E2 80 8A; U+2028,
    U+2029 and U+202F are E2 80 A8, E2 80 A9 and E2 80 AF; U+205F is
    E2 81 9F; U+3000 is E3 80 80; U+FEFF is EF BB BF. *)
Definition is_space3 (c1 c2 c3 : ascii) : bool :=
  let n1 := nat_of_ascii c1 in
  let n2 := nat_of_ascii c2 in
  let n3 := nat_of_ascii c3 in
  ((n1 =? 225) && (n2 =? 154) && (n3 =? 128))%nat
  || ((n1 =? 226) && (n2 =? 128)
      && (((128 <=? n3) && (n3 <=? 138)) || (n3 =? 168) || (n3 =? 169)
          || (n3 =? 175)))%nat
  || ((n1 =? 226) && (n2 =? 129) && (n3 =? 159))%nat
  || ((n1 =? 227) && (n2 =? 128) && (n3 =? 128))%nat
  || ((n1 =? 239) && (n2 =? 187) && (n3 =? 191))%nat.

Fixpoint skip_spaces (l : list ascii) : list ascii :=
  match l with
  | c :: l1 =>
      if is_space c then skip_spaces l1
      else if space_lead c then
        match l1 with
        | c2 :: l2 =>
            if is_space2 c c2 then skip_spaces l2
            else
              match l2 with
              | c3 :: l3 => if is_space3 c c2 c3 then skip_spaces l3 else l
              | [] => l
              end
        | [] => l
        end
      else l
  | [] => []
  end.

(** Reads a run of decimal digits: the accumulated value, the number of
    digits read and the rest of the input. *)
Fixpoint read_digits (l : list ascii) (acc : Z) (cnt : Z)
  : Z * Z * list ascii :=
  match l with
  | c :: l' =>
      if is_digit c
      then read_digits l' (10 * acc + (Z.of_nat (nat_of_ascii c) - 48)) (cnt + 1)
      else (acc, cnt, l)
  | [] => (acc, cnt, [])
  end.

(** The integer a run of decimal digits denotes after the digits [acc]. *)
Definition digits_value (l : list ascii) (acc : Z) : Z :=
  fold_left (fun a c => 10 * a + (Z.of_nat (nat_of_ascii c) - 48)) l acc.

(** The part of the input that a run of digits leaves unread: it is empty
    or starts with another character. *)
Definition stops (rest : list ascii) : Prop :=
  match rest with
  | [] => True
  | c :: _ => is_digit c = false
  end.

Definition read_sign (l : list ascii) : bool * list ascii :=
  match l with
  | "-"%char :: l' => (true, l')
  | "+"%char :: l' => (false, l')
  | _ => (false, l)
  end.

(** The exponent part [e[+-]digits] when it is well formed, else [0]. *)
Definition read_exponent (l : list ascii) : Z :=
  match l with
  | c :: l' =>
      if (nat_of_ascii c =? 101)%nat || (nat_of_ascii c =? 69)%nat
      then let (neg, l'') := read_sign l' in
           let '(e, cnt, _) := read_digits l'' 0 0 in
           if cnt =? 0 then 0 else if neg then - e else e
      else 0
  | [] => 0
  end.

Fixpoint starts_with (p l : list ascii) : bool :=
  match p, l with
  | [], _ => true
  | a :: p', b :: l' => Ascii.eqb a b && starts_with p' l'
  | _ :: _, [] => false
  end.

(** [parseFloat(s)]: the longest prefix of the trimmed input that is a
    decimal literal, rounded to a Number; [NaN] when there is none. *)
Definition parseFloat (s : string) : number :=
  let l := skip_spaces (list_ascii_of_string s) in
  let (neg, l1) := read_sign l in
  if starts_with (list_ascii_of_string "Infinity") l1 then S754_infinity neg
  else
    let '(ip, icnt, l2) := read_digits l1 0 0 in
    let '(fp, fcnt, l3) :=
      match l2 with
      | "."%char :: l2' => read_digits l2' ip 0
      | _ => (ip, 0, l2)
      end in
    if icnt + fcnt =? 0 then S754_nan
    else Fs neg (inject_Z fp * 10 ^ (read_exponent l3 - fcnt)).

(** The strings of ASCII characters: every byte is below 128. *)
Definition ascii_only (s : string) : bool :=
  forallb (fun c => (nat_of_ascii c <? 128)%nat) (list_ascii_of_string s).

End Number.

Import Number.

(** ** The conversion helpers

    [Math.exp] is implementation-approximated in ECMAScript, so the helpers
    are parameterised by it. *)

Section Conversions.

Variable Math_exp : number -> number.

Definition ONE_IN_BASIS_POINTS : number := F 10000.

Definition SECONDS_PER_YEAR : number :=
  mul (mul (mul (F 60) (F 60)) (F 24)) (F 365.24).

Definition calculateExponentForTimesAndRate (t1 t2 r : number) : number :=
  let timespan := sub t2 t1 in
  let numerator := mul r timespan in
  let exponent := div numerator (mul SECONDS_PER_YEAR ONE_IN_BASIS_POINTS) in
  Math_exp exponent.

Definition getDecimalFactor (decimals : Z) : number := Math_pow10 decimals.

Definition uiAmountToAtomicUiAmount (uiAmount : string) (decimals : Z)
  : number :=
  let uiAmountNumber := parseFloat uiAmount in
  let decimalFactor := getDecimalFactor decimals in
  mul uiAmountNumber decimalFactor.

Definition amountToUiAmountForInterestBearingMintWithoutSimulation
  (amount : Z) (decimals : Z)
  (currentTimestamp lastUpdateTimestamp initializationTimestamp : number)
  (preUpdateAverageRate currentRate : number) : string :=
  let preUpdateExp :=
    calculateExponentForTimesAndRate
      initializationTimestamp lastUpdateTimestamp preUpdateAverageRate in
  let postUpdateExp :=
    calculateExponentForTimesAndRate
      lastUpdateTimestamp currentTimestamp currentRate in
  let totalScale := mul preUpdateExp postUpdateExp in
  let scaledAmount := mul (Number_of_bigint amount) totalScale in
  let decimalFactor := getDecimalFactor decimals in
  Number_toString (div (Math_trunc scaledAmount) decimalFactor).

Definition amountToUiAmountForScaledUiAmountMintWithoutSimulation
  (amount : Z) (decimals : Z) (multiplier : number) : string :=
  let scaledAmount := mul (Number_of_bigint amount) multiplier in
  let decimalFactor := getDecimalFactor decimals in
  Number_toString (div (Math_trunc scaledAmount) decimalFactor).

(** The inverse helpers end in [BigInt(...)], which throws a [RangeError]
    on [NaN] and the infinities: [None]. *)
Definition uiAmountToAmountForInterestBearingMintWithoutSimulation
  (uiAmount : string) (decimals : Z)
  (currentTimestamp lastUpdateTimestamp initializationTimestamp : number)
  (preUpdateAverageRate currentRate : number) : option Z :=
  let uiAmountScaled := uiAmountToAtomicUiAmount uiAmount decimals in
  let preUpdateExp :=
    calculateExponentForTimesAndRate
      initializationTimestamp lastUpdateTimestamp preUpdateAverageRate in
  let postUpdateExp :=
    calculateExponentForTimesAndRate
      lastUpdateTimestamp currentTimestamp currentRate in
  let totalScale := mul preUpdateExp postUpdateExp in
  let originalPrincipal := div uiAmountScaled totalScale in
  BigInt (Math_trunc originalPrincipal).

Definition uiAmountToAmountForScaledUiAmountMintWithoutSimulation
  (uiAmount : string) (decimals : Z) (multiplier : number) : option Z :=
  let uiAmountScaled := uiAmountToAtomicUiAmount uiAmount decimals in
  let rawAmount := div uiAmountScaled multiplier in
  BigInt (Math_trunc rawAmount).

(** *** The ledger client and the mint state

    [unpackMint], the two extension getters and the two program identifiers
    are imported by the source; they are parameters here. *)

Definition PublicKey := string.

Record AccountInfo := {
  owner : PublicKey;
  data : list Byte.byte
}.

Record InterestBearingMintConfigState := {
  initializationTimestamp : Z;
  preUpdateAverageRate : number;
  lastUpdateTimestamp : Z;
  currentRate : number
}.

Record ScaledUiAmountConfig := {
  multiplier : number;
  newMultiplierEffectiveTimestamp : Z;
  newMultiplier : number
}.

Inductive Error :=
| InvalidProgramID
| FailedToFetchSysvarClock
| FailedToParseSysvarClock
| UnpackMintError
| RangeError
| TypeError
| RpcError.

(** What [getParsedAccountInfo] answers for the clock sysvar: nothing, an
    account whose data was parsed (with its [unixTimestamp]) or an account
    with raw data. *)
Inductive ParsedAccountInfo :=
| ParsedData (unixTimestamp : number)
| RawData (bytes : list Byte.byte).

Record Connection := {
  getAccountInfo : PublicKey -> Error + option AccountInfo;
  getParsedAccountInfo : PublicKey -> Error + option ParsedAccountInfo
}.

(** The steps of a dispatch that reach outside the function or decode the
    mint, in the order they happen. *)
Inductive Event :=
| EvGetAccountInfo (address : PublicKey)
| EvUnpackMint
| EvGetInterestBearingMintConfigState
| EvGetScaledUiAmountConfig
| EvGetSysvarClock
| EvConvertPlain
| EvConvertInterestBearing
| EvConvertScaled (multiplier : number).

(** A computation that logs its steps and may throw. *)
Definition Run (A : Type) : Type := list Event -> list Event * (Error + A).

Definition ret {A} (a : A) : Run A := fun tr => (tr, inr a).
Definition throw {A} (e : Error) : Run A := fun tr => (tr, inl e).
Definition bind {A B} (m : Run A) (k : A -> Run B) : Run B :=
  fun tr => match m tr with
            | (tr', inl e) => (tr', inl e)
            | (tr', inr a) => k a tr'
            end.
Definition emit (ev : Event) : Run unit := fun tr => (tr ++ [ev], inr tt).
Definition lift {A} (r : Error + A) : Run A := fun tr => (tr, r).
Definition run {A} (m : Run A) : list Event * (Error + A) := m [].

Notation "x <- m ;; k" := (bind m (fun x => k))
  (at level 61, m at next level, right associativity).
Notation "m ;;; k" := (bind m (fun _ => k))
  (at level 61, right associativity).

Variable Mint : Type.
Variable decimals : Mint -> Z.
Variable unpackMint :
  PublicKey -> option AccountInfo -> PublicKey -> Error + Mint.
Variable getInterestBearingMintConfigState :
  Mint -> option InterestBearingMintConfigState.
Variable getScaledUiAmountConfig : Mint -> option ScaledUiAmountConfig.
Variable TOKEN_PROGRAM_ID TOKEN_2022_PROGRAM_ID : PublicKey.

Definition SYSVAR_CLOCK_PUBKEY : PublicKey :=
  "SysvarC1ock11111111111111111111111111111111"%string.

Definition getSysvarClockTimestamp (connection : Connection) : Run number :=
  emit EvGetSysvarClock ;;;
  info <- lift (getParsedAccountInfo connection SYSVAR_CLOCK_PUBKEY) ;;
  match info with
  | None => throw FailedToFetchSysvarClock
  | Some (ParsedData unixTimestamp) => ret unixTimestamp
  | Some (RawData _) => throw FailedToParseSysvarClock
  end.

(** [!programId?.equals(TOKEN_PROGRAM_ID) &&
     !programId?.equals(TOKEN_2022_PROGRAM_ID)]:
    true also when the account does not exist. *)
Definition invalid_owner (accountInfo : option AccountInfo) : bool :=
  match accountInfo with
  | None => true
  | Some info =>
      negb (String.eqb (owner info) TOKEN_PROGRAM_ID)
      && negb (String.eqb (owner info) TOKEN_2022_PROGRAM_ID)
  end.

Definition programId_of (accountInfo : option AccountInfo) : PublicKey :=
  match accountInfo with
  | Some info => owner info
  | None => EmptyString
  end.

Definition amountToUiAmountForMintWithoutSimulation
  (connection : Connection) (mint : PublicKey) (amount : Z) : Run string :=
  emit (EvGetAccountInfo mint) ;;;
  accountInfo <- lift (getAccountInfo connection mint) ;;
  if invalid_owner accountInfo then throw InvalidProgramID
  else
    emit EvUnpackMint ;;;
    mintInfo <- lift (unpackMint mint accountInfo (programId_of accountInfo)) ;;
    emit EvGetInterestBearingMintConfigState ;;;
    let interestBearingMintConfigState :=
      getInterestBearingMintConfigState mintInfo in
    emit EvGetScaledUiAmountConfig ;;;
    let scaledUiAmountConfig := getScaledUiAmountConfig mintInfo in
    match interestBearingMintConfigState, scaledUiAmountConfig with
    | None, None =>
        emit EvConvertPlain ;;;
        let decimalFactor := getDecimalFactor (decimals mintInfo) in
        ret (Number_toString (div (Number_of_bigint amount) decimalFactor))
    | _, _ =>
        timestamp <- getSysvarClockTimestamp connection ;;
        match interestBearingMintConfigState with
        | Some ib =>
            emit EvConvertInterestBearing ;;;
            ret (amountToUiAmountForInterestBearingMintWithoutSimulation
                   amount (decimals mintInfo) timestamp
                   (Number_of_bigint (lastUpdateTimestamp ib))
                   (Number_of_bigint (initializationTimestamp ib))
                   (preUpdateAverageRate ib) (currentRate ib))
        | None =>
            match scaledUiAmountConfig with
            | Some sc =>
                let multiplier :=
                  if geb timestamp
                         (Number_of_bigint (newMultiplierEffectiveTimestamp sc))
                  then newMultiplier sc else multiplier sc in
                emit (EvConvertScaled multiplier) ;;;
                ret (amountToUiAmountForScaledUiAmountMintWithoutSimulation
                       amount (decimals mintInfo) multiplier)
            | None => throw TypeError
            end
        end
    end.

Definition bigint_or_throw (r : option Z) : Run Z :=
  match r with
  | Some z => ret z
  | None => throw RangeError
  end.

Definition uiAmountToAmountForMintWithoutSimulation
  (connection : Connection) (mint : PublicKey) (uiAmount : string) : Run Z :=
  emit (EvGetAccountInfo mint) ;;;
  accountInfo <- lift (getAccountInfo connection mint) ;;
  if invalid_owner accountInfo then throw InvalidProgramID
  else
    emit EvUnpackMint ;;;
    mintInfo <- lift (unpackMint mint accountInfo (programId_of accountInfo)) ;;
    emit EvGetInterestBearingMintConfigState ;;;
    let interestBearingMintConfigState :=
      getInterestBearingMintConfigState mintInfo in
    emit EvGetScaledUiAmountConfig ;;;
    let scaledUiAmountConfig := getScaledUiAmountConfig mintInfo in
    match interestBearingMintConfigState, scaledUiAmountConfig with
    | None, None =>
        emit EvConvertPlain ;;;
        bigint_or_throw
          (BigInt (Math_trunc
                     (uiAmountToAtomicUiAmount uiAmount (decimals mintInfo))))
    | _, _ =>
        timestamp <- getSysvarClockTimestamp connection ;;
        match interestBearingMintConfigState with
        | Some ib =>
            emit EvConvertInterestBearing ;;;
            bigint_or_throw
              (uiAmountToAmountForInterestBearingMintWithoutSimulation
                 uiAmount (decimals mintInfo) timestamp
                 (Number_of_bigint (lastUpdateTimestamp ib))
                 (Number_of_bigint (initializationTimestamp ib))
                 (preUpdateAverageRate ib) (currentRate ib))
        | None =>
            match scaledUiAmountConfig with
            | Some sc =>
                let multiplier :=
                  if geb timestamp
                         (Number_of_bigint (newMultiplierEffectiveTimestamp sc))
                  then newMultiplier sc else multiplier sc in
                emit (EvConvertScaled multiplier) ;;;
                bigint_or_throw
                  (uiAmountToAmountForScaledUiAmountMintWithoutSimulation
                     uiAmount (decimals mintInfo) multiplier)
            | None => throw TypeError
            end
        end
    end.

End Conversions.

(** ** The transaction-simulation variant

    The instruction builder, the payer and the Buffer of Node are outside
    the source and are parameters. *)

Section Simulation.

Variable Instruction Signer TransactionError Buffer : Type.
Variable createAmountToUiAmountInstruction :
  PublicKey -> Z -> PublicKey -> Instruction.

(** The one encoding the ledger uses for return data. *)
Inductive Encoding := base64.

Variable Buffer_from : string -> Encoding -> Buffer.
Variable Buffer_toString_utf8 : Buffer -> string.

Record TransactionReturnData := {
  returnData_programId : string;
  returnData_data : string * Encoding
}.

Record SimulatedTransactionResponse := {
  returnData : option TransactionReturnData;
  err : option TransactionError
}.

Definition Transaction := list Instruction.

Variable simulateTransaction :
  Transaction -> list Signer -> bool -> Error + SimulatedTransactionResponse.

(** [string | TransactionError | null]. *)
Inductive UiAmountOrError :=
| UiAmount (s : string)
| SimulationError (e : TransactionError)
| Null.

Definition amountToUiAmount
  (payer : Signer) (mint : PublicKey) (amount : Z) (programId : PublicKey)
  : Error + UiAmountOrError :=
  let transaction :=
    [] ++ [createAmountToUiAmountInstruction mint amount programId] in
  match simulateTransaction transaction [payer] false with
  | inl e => inl e
  | inr value =>
      match returnData value with
      | Some rd =>
          inr (UiAmount
                 (Buffer_toString_utf8
                    (Buffer_from (fst (returnData_data rd))
                                 (snd (returnData_data rd)))))
      | None =>
          match err value with
          | Some e => inr (SimulationError e)
          | None => inr Null
          end
      end
  end.

End Simulation.

(** ** The AdGem webhook *)

Module Webhook.

(** The JavaScript values a parsed JSON body, a parsed query string or a
    header can hold; objects and arrays are opaque. *)
Inductive jsval :=
| JUndefined
| JNull
| JBool (b : bool)
| JNumber (n : number)
| JString (s : string)
| JObject.

Definition truthy (v : jsval) : bool :=
  match v with
  | JUndefined | JNull => false
  | JBool b => b
  | JNumber n =>
      match n with
      | S754_nan | S754_zero _ => false
      | _ => true
      end
  | JString s => negb (String.eqb s EmptyString)
  | JObject => true
  end.

(** [a || b]. *)
Definition js_or (a b : jsval) : jsval := if truthy a then a else b.

(** [v !== key] for a string [key]. *)
Definition strict_neq (v : jsval) (key : string) : bool :=
  match v with
  | JString s => negb (String.eqb s key)
  | _ => true
  end.

(** Property access on an object given by its fields. *)
Fixpoint get (fields : list (string * jsval)) (name : string) : jsval :=
  match fields with
  | [] => JUndefined
  | (k, v) :: fields' => if String.eqb k name then v else get fields' name
  end.

Record Request := {
  body : list (string * jsval);
  query : list (string * jsval);
  headers : list (string * jsval)
}.

Inductive ResponseBody :=
| ErrorBody (message : string)
| SuccessBody (result : jsval).

Record Response := {
  status : Z;
  json : ResponseBody
}.

(** The request the handler sends to the reward endpoint. *)
Record RewardCall := {
  call_wallet : jsval;
  call_amount : number
}.

Definition ADGEM_KEY : string := "le9nnnl93cah313bbnec987a".

Section Handler.

(** [Number(v)] on a body value, and the reward endpoint reached through
    [fetch]: it answers a JSON value or fails with a message. *)
Variable ToNumber : jsval -> number.
Variable fetch_reward : RewardCall -> string + jsval.

Definition secret_of (req : Request) : jsval :=
  js_or (get (query req) "secret") (get (headers req) "x-adgem-secret").

(** The handler of [POST /adgem-webhook]: the calls it made to the reward
    endpoint and its response. *)
Definition adgem_webhook (req : Request) : list RewardCall * Response :=
  let data := body req in
  let playerWallet := get data "player_id" in
  let rewardAmount :=
    let n := ToNumber (get data "amount") in
    if truthy (JNumber n) then n else F 0 in
  let secret := secret_of req in
  if negb (truthy playerWallet)
  then ([], {| status := 400; json := ErrorBody "Missing player_id" |})
  else if truthy (JString ADGEM_KEY) && truthy secret
          && strict_neq secret ADGEM_KEY
  then ([], {| status := 401; json := ErrorBody "Unauthorized" |})
  else
    let call := {| call_wallet := playerWallet; call_amount := rewardAmount |} in
    match fetch_reward call with
    | inr result => ([call], {| status := 200; json := SuccessBody result |})
    | inl message => ([call], {| status := 500; json := ErrorBody message |})
    end.

End Handler.

End Webhook.

(** ** The reward endpoint

    [POST /reward] of both server files: the two differ in the log line
    only.  The key constructor and the two calls of the token SDK are
    outside the source; the calls act on the ledger, so they take and
    return its state. *)

Module Reward.

Import Webhook.

(** The calls the handler makes to the token SDK. *)
Inductive Call :=
| GetOrCreateAssociatedTokenAccount (mint owner : PublicKey)
| Transfer (source destination owner : PublicKey) (amount : number).

Inductive Body :=
| Failure (error : string)
| Success (signature : string).

Record Response := {
  status : Z;
  json : Body
}.

Definition HUM_MINT : PublicKey :=
  "94au8hfP6cSEdnqxqdGgFuh7k3iHyhmNfzSkccopRDCW"%string.

Section Handler.

Variable Ledger : Type.
Variable ToNumber : jsval -> number.

(** [new PublicKey(wallet)], which throws on a value that is not a key. *)
Variable new_PublicKey : jsval -> string + PublicKey.

(** [treasury.publicKey]. *)
Variable treasury : PublicKey.

(** [getOrCreateAssociatedTokenAccount(connection, treasury, mint, owner)]:
    the address of the account, or the message of the error thrown. *)
Variable getOrCreateAssociatedTokenAccount :
  PublicKey -> PublicKey -> Ledger -> Ledger * (string + PublicKey).

(** [transfer(connection, treasury, source, destination, owner, amount)]:
    the signature of the transaction, or the message of the error thrown. *)
Variable transfer :
  PublicKey -> PublicKey -> PublicKey -> number -> Ledger
  -> Ledger * (string + string).

(** The handler: the ledger it leaves, the SDK calls it made, in order, and
    its response. *)
Definition reward (req : Request) (ledger : Ledger)
  : Ledger * list Call * Response :=
  let wallet := get (body req) "wallet" in
  let amount := get (body req) "amount" in
  if negb (truthy wallet) || negb (truthy amount)
  then (ledger, [],
        {| status := 400; json := Failure "Missing wallet or amount" |})
  else
    match new_PublicKey wallet with
    | inl message =>
        (ledger, [], {| status := 500; json := Failure message |})
    | inr userWallet =>
        let call1 := GetOrCreateAssociatedTokenAccount HUM_MINT treasury in
        match getOrCreateAssociatedTokenAccount HUM_MINT treasury ledger with
        | (ledger1, inl message) =>
            (ledger1, [call1], {| status := 500; json := Failure message |})
        | (ledger1, inr fromTokenAccount) =>
            let call2 :=
              GetOrCreateAssociatedTokenAccount HUM_MINT userWallet in
            match getOrCreateAssociatedTokenAccount
                    HUM_MINT userWallet ledger1 with
            | (ledger2, inl message) =>
                (ledger2, [call1; call2],
                 {| status := 500; json := Failure message |})
            | (ledger2, inr toTokenAccount) =>
                let raw := mul (ToNumber amount) (Math_pow10 6) in
                let call3 :=
                  Transfer fromTokenAccount toTokenAccount treasury raw in
                match transfer fromTokenAccount toTokenAccount treasury raw
                               ledger2 with
                | (ledger3, inl message) =>
                    (ledger3, [call1; call2; call3],
                     {| status := 500; json := Failure message |})
                | (ledger3, inr signature) =>
                    (ledger3, [call1; call2; call3],
                     {| status := 200; json := Success signature |})
                end
            end
        end
    end.

(** What a value becomes on its way through [JSON.stringify] and the JSON
    body parser: a Number that is not finite becomes [null], and the
    negative zero the positive one. *)
Definition through_json (v : jsval) : jsval :=
  match v with
  | JNumber (S754_zero _) => JNumber pos_zero
  | JNumber n => if is_finite n then v else JNull
  | _ => v
  end.

(** The request the webhook sends with [fetch]:
    [JSON.stringify({ wallet, amount })]. *)
Definition reward_request (call : RewardCall) : Request :=
  {| body := [("wallet"%string, through_json (call_wallet call));
              ("amount"%string, through_json (JNumber (call_amount call)))];
     query := [];
     headers := [("content-type"%string, JString "application/json")] |}.

(** The webhook's [fetch] when the reward endpoint it reaches is this
    handler: the response body, decoded by [response.json()]; [encode]
    gives the body as a JavaScript value. *)
Definition fetch (encode : Response -> jsval) (ledger : Ledger)
  (call : RewardCall) : string + jsval :=
  inr (encode (snd (reward (reward_request call) ledger))).

End Handler.

End Reward.

(** ** The formulas of the specification

    Sections 4.2 and 4.3 of the specification, step by step, to be compared
    with the helpers above. *)

Section Specification.

Variable Math_exp : number -> number.

Definition spec_SECONDS_PER_YEAR : number := mul (F 86400) (F 365.24).

Definition spec_exponent (t1 t2 rateBp : number) : number :=
  Math_exp (div (mul rateBp (sub t2 t1))
                (mul spec_SECONDS_PER_YEAR (F 10000))).

Definition spec_scaled_amount
  (amount : Z) (currentTimestamp lastUpdateTimestamp initializationTimestamp
   preUpdateAverageRate currentRate : number) : number :=
  let preFactor :=
    spec_exponent initializationTimestamp lastUpdateTimestamp
                  preUpdateAverageRate in
  let postFactor :=
    spec_exponent lastUpdateTimestamp currentTimestamp currentRate in
  let totalScale := mul preFactor postFactor in
  mul (Number_of_bigint amount) totalScale.

End Specification.

(** The integral part of a finite Number, toward zero. *)
Definition integral_part (x : number) : Z :=
  if sign_of x then - Qfloor (Rabs x) else Qfloor (Rabs x).

(** ** Instances used to evaluate the helpers *)

Module Fixture.

(** A truncated exponential series in Horner form, rounded to a Number:
    an instance of [Math.exp]. *)
Fixpoint horner (a : Q) (k : nat) (acc : Q) : Q :=
  match k with
  | O => acc
  | S k' => horner a k' (1 + a * acc / inject_Z (Z.of_nat k))%Q
  end.

Definition exp_series (a : Q) : Q := horner a 30 1.

Definition Math_exp (x : number) : number :=
  match x with
  | S754_nan => NaN
  | S754_zero _ => F 1
  | S754_infinity s => if s then pos_zero else pos_inf
  | S754_finite s _ _ =>
      if s then Fs false (/ exp_series (Rabs x))
      else Fs false (exp_series (Rabs x))
  end.

Definition TOKEN_PROGRAM_ID : PublicKey :=
  "TokenkegQfeZyiNwAJbNbGKPFXCWuBvf9Ss623VQ5DA"%string.

Definition TOKEN_2022_PROGRAM_ID : PublicKey :=
  "TokenzQdBNbLqP5VEhdkAS6EPFLC1PHnBqCXEpPxuEb"%string.

(** A program that is not a token program. *)
Definition SYSTEM_PROGRAM_ID : PublicKey :=
  "11111111111111111111111111111111"%string.

(** A decoded mint: its decimals and its extensions. *)
Record Mint := {
  decimals : Z;
  interestBearing : option InterestBearingMintConfigState;
  scaledUiAmount : option ScaledUiAmountConfig
}.

(** A ledger that holds the mint [m] in an account owned by [program] and
    whose clock shows [now]. *)
Definition unpackMint (m : Mint)
  : PublicKey -> option AccountInfo -> PublicKey -> Error + Mint :=
  fun _ _ _ => inr m.

Definition connection (program : PublicKey) (now : number) : Connection :=
  {| getAccountInfo := fun _ => inr (Some {| owner := program; data := [] |});
     getParsedAccountInfo := fun _ => inr (Some (ParsedData now)) |}.

Definition mint_address : PublicKey :=
  "94au8hfP6cSEdnqxqdGgFuh7k3iHyhmNfzSkccopRDCW"%string.

Definition forward (m : Mint) (program : PublicKey) (now : number)
  (amount : Z) : list Event * (Error + string) :=
  run (amountToUiAmountForMintWithoutSimulation
         Math_exp Mint decimals (unpackMint m) interestBearing scaledUiAmount
         TOKEN_PROGRAM_ID TOKEN_2022_PROGRAM_ID
         (connection program now) mint_address amount).

Definition inverse (m : Mint) (program : PublicKey) (now : number)
  (uiAmount : string) : list Event * (Error + Z) :=
  run (uiAmountToAmountForMintWithoutSimulation
         Math_exp Mint decimals (unpackMint m) interestBearing scaledUiAmount
         TOKEN_PROGRAM_ID TOKEN_2022_PROGRAM_ID
         (connection program now) mint_address uiAmount).

Definition plain_mint (d : Z) : Mint :=
  {| decimals := d; interestBearing := None; scaledUiAmount := None |}.

Definition scaled_mint : Mint :=
  {| decimals := 6;
     interestBearing := None;
     scaledUiAmount :=
       Some {| multiplier := F 2;
               newMultiplierEffectiveTimestamp := 1000;
               newMultiplier := F 3 |} |}.

Definition interest_mint (rate : Z) : Mint :=
  {| decimals := 6;
     interestBearing :=
       Some {| initializationTimestamp := 0;
               preUpdateAverageRate := F (inject_Z rate);
               lastUpdateTimestamp := 0;
               currentRate := F (inject_Z rate) |};
     scaledUiAmount := None |}.

Definition both_mint : Mint :=
  {| decimals := 6;
     interestBearing := interestBearing (interest_mint 0);
     scaledUiAmount := scaledUiAmount scaled_mint |}.

(** A reward endpoint that answers [null], a body-value conversion, and
    three webhook requests: without [player_id] and with a wrong secret, with
    [player_id] and no secret, with [player_id] and a wrong secret. *)
Definition fetch_reward (call : Webhook.RewardCall) : string + Webhook.jsval :=
  inr Webhook.JNull.

Definition ToNumber (v : Webhook.jsval) : number :=
  match v with
  | Webhook.JNumber n => n
  | _ => NaN
  end.

Definition request_without_player : Webhook.Request :=
  {| Webhook.body := [("amount"%string, Webhook.JNumber (F 5))];
     Webhook.query := [("secret"%string, Webhook.JString "wrong")];
     Webhook.headers := [] |}.

Definition request_without_secret : Webhook.Request :=
  {| Webhook.body := [("player_id"%string, Webhook.JString "wallet");
                      ("amount"%string, Webhook.JNumber (F 5))];
     Webhook.query := [];
     Webhook.headers := [] |}.

Definition request_with_wrong_secret : Webhook.Request :=
  {| Webhook.body := [("player_id"%string, Webhook.JString "wallet");
                      ("amount"%string, Webhook.JNumber (F 5))];
     Webhook.query := [];
     Webhook.headers := [("x-adgem-secret"%string, Webhook.JString "wrong")] |}.

(** A simulation that answers the return data [data], and one that answers
    the error [e] and no return data. *)
Definition simulate_data (data : string)
  : Transaction unit -> list unit -> bool
    -> Error + SimulatedTransactionResponse string :=
  fun _ _ _ =>
    inr {| returnData :=
             Some {| returnData_programId := TOKEN_PROGRAM_ID;
                     returnData_data := (data, base64) |};
           err := None |}.

Definition simulate_error (e : string)
  : Transaction unit -> list unit -> bool
    -> Error + SimulatedTransactionResponse string :=
  fun _ _ _ => inr {| returnData := None; err := Some e |}.

(** A ledger without any account, and one that holds the mint in an
    account owned by [program] and whose clock account answers [answer]. *)
Definition empty_connection : Connection :=
  {| getAccountInfo := fun _ => inr None;
     getParsedAccountInfo := fun _ => inr None |}.

Definition connection_with_clock (program : PublicKey)
  (answer : Error + option ParsedAccountInfo) : Connection :=
  {| getAccountInfo := fun _ => inr (Some {| owner := program; data := [] |});
     getParsedAccountInfo := fun _ => answer |}.

Definition forward_on (connection : Connection) (m : Mint) (amount : Z)
  : list Event * (Error + string) :=
  run (amountToUiAmountForMintWithoutSimulation
         Math_exp Mint decimals (unpackMint m) interestBearing scaledUiAmount
         TOKEN_PROGRAM_ID TOKEN_2022_PROGRAM_ID
         connection mint_address amount).

Definition inverse_on (connection : Connection) (m : Mint) (uiAmount : string)
  : list Event * (Error + Z) :=
  run (uiAmountToAmountForMintWithoutSimulation
         Math_exp Mint decimals (unpackMint m) interestBearing scaledUiAmount
         TOKEN_PROGRAM_ID TOKEN_2022_PROGRAM_ID
         connection mint_address uiAmount).

(** A key constructor that accepts every string, a token SDK whose calls
    succeed on a ledger that counts the transfers made, and the requests of
    the reward endpoint and of the webhook with the given fields. *)
Definition new_PublicKey (v : Webhook.jsval) : string + PublicKey :=
  match v with
  | Webhook.JString s => inr s
  | _ => inl "Invalid public key input"%string
  end.

Definition treasury : PublicKey := "treasury"%string.

Definition getOrCreateAssociatedTokenAccount (mint owner : PublicKey)
  (ledger : nat) : nat * (string + PublicKey) :=
  (ledger, inr owner).

Definition transfer (source destination owner : PublicKey) (amount : number)
  (ledger : nat) : nat * (string + string) :=
  (S ledger, inr "signature"%string).

Definition encode (response : Reward.Response) : Webhook.jsval :=
  Webhook.JObject.

Definition reward_body (wallet amount : Webhook.jsval) : Webhook.Request :=
  {| Webhook.body := [("wallet"%string, wallet); ("amount"%string, amount)];
     Webhook.query := [];
     Webhook.headers := [] |}.

Definition reward_endpoint (req : Webhook.Request) (ledger : nat)
  : nat * list Reward.Call * Reward.Response :=
  Reward.reward nat ToNumber new_PublicKey treasury
    getOrCreateAssociatedTokenAccount transfer req ledger.

Definition webhook_request (amount secret header : Webhook.jsval)
  : Webhook.Request :=
  {| Webhook.body := [("player_id"%string, Webhook.JString "wallet");
                      ("amount"%string, amount)];
     Webhook.query := [("secret"%string, secret)];
     Webhook.headers := [("x-adgem-secret"%string, header)] |}.

End Fixture.

(** ** Facts about the rounding of Numbers *)

Module NumberFacts.
Local Open Scope Q_scope.

Lemma pow2_pos (e : Z) : 0 < 2 ^ e.
Proof. apply Qpower_0_lt. reflexivity. Qed.

Lemma pow2_add (a b : Z) : 2 ^ (a + b) == 2 ^ a * 2 ^ b.
Proof. apply Qpower_plus. discriminate. Qed.

Lemma pow2_le (a b : Z) : (a <= b)%Z -> 2 ^ a <= 2 ^ b.
Proof. intros H. apply Qpower_le_compat_l; [exact H | discriminate]. Qed.

Lemma pow2_succ (a : Z) : 2 ^ (a + 1) == 2 * 2 ^ a.
Proof. rewrite pow2_add. change (2 ^ 1) with 2. ring. Qed.

Lemma pow2_Z (n : Z) : (0 <= n)%Z -> 2 ^ n == inject_Z (2 ^ n).
Proof. intros H. symmetry. apply (Zpower_Qpower 2 n H). Qed.

Lemma pow2_lt (a b : Z) : (a < b)%Z -> 2 ^ a < 2 ^ b.
Proof.
  intros H. apply Qlt_le_trans with (2 ^ (a + 1)).
  - rewrite pow2_succ. pose proof (pow2_pos a). lra.
  - apply pow2_le. lia.
Qed.

(** [ilog2] brackets its argument between two consecutive powers of two. *)
Lemma ilog2_spec (q : Q) :
  0 < q -> 2 ^ ilog2 q <= q /\ q < 2 ^ (ilog2 q + 1).
Proof.
  intros Hq. unfold ilog2.
  destruct q as [n d]. cbn [Qnum Qden].
  assert (Hn : (0 < n)%Z) by (unfold Qlt in Hq; cbn in Hq; lia).
  set (a := Z.log2 n). set (b := Z.log2 (Z.pos d)). 
  pose proof (Z.log2_spec n Hn) as [Ha1 Ha2].
  pose proof (Z.log2_spec (Z.pos d) (Pos2Z.is_pos d)) as [Hb1 Hb2].
  fold a in Ha1, Ha2. fold b in Hb1, Hb2.
  assert (Ha0 : (0 <= a)%Z) by apply Z.log2_nonneg.
  assert (Hb0 : (0 <= b)%Z) by apply Z.log2_nonneg.
  assert (Hq' : n # d == inject_Z n / inject_Z (Z.pos d)) by apply Qmake_Qdiv.
  assert (Hd : 0 < inject_Z (Z.pos d)) by reflexivity.
  assert (Hna : 2 ^ a <= inject_Z n) by (rewrite pow2_Z by lia; rewrite <- Zle_Qle; lia).
  assert (Hna' : inject_Z n < 2 ^ (a + 1)) by (rewrite pow2_Z by lia; rewrite <- Zlt_Qlt; exact Ha2).
  assert (Hdb : 2 ^ b <= inject_Z (Z.pos d)) by (rewrite pow2_Z by lia; rewrite <- Zle_Qle; lia).
  assert (Hdb' : inject_Z (Z.pos d) < 2 ^ (b + 1)) by (rewrite pow2_Z by lia; rewrite <- Zlt_Qlt; exact Hb2).
  assert (Hlow : 2 ^ (a - b - 1) < n # d).
  { rewrite Hq'. apply Qlt_shift_div_l; [exact Hd|].
    apply Qlt_le_trans with (2 ^ (a - b - 1) * 2 ^ (b + 1)).
    - apply Qmult_lt_l; [apply pow2_pos | exact Hdb'].
    - rewrite <- pow2_add. replace (a - b - 1 + (b + 1))%Z with a by lia. exact Hna. }
  assert (Hhigh : n # d < 2 ^ (a - b + 1)).
  { rewrite Hq'. apply Qlt_shift_div_r; [exact Hd|].
    apply Qlt_le_trans with (2 ^ (a + 1)); [exact Hna'|].
    replace (a + 1)%Z with (a - b + 1 + b)%Z at 1 by lia. rewrite pow2_add.
    apply Qmult_le_l; [apply pow2_pos | exact Hdb]. }
  destruct (Qle_bool (2 ^ (a - b)) (n # d)) eqn:E.
  - apply Qle_bool_iff in E. split; assumption.
  - split.
    + apply Qlt_le_weak. exact Hlow.
    + replace (a - b - 1 + 1)%Z with (a - b)%Z by lia.
      apply Qnot_le_lt. intros C. apply Qle_bool_iff in C. congruence.
Qed.

(** [ilog2] is the only such exponent. *)
Lemma ilog2_unique (q : Q) (k : Z) :
  2 ^ k <= q -> q < 2 ^ (k + 1) -> ilog2 q = k.
Proof.
  intros H1 H2.
  assert (Hq : 0 < q) by (pose proof (pow2_pos k); lra).
  destruct (ilog2_spec q Hq) as [H3 H4].
  destruct (Z.lt_trichotomy (ilog2 q) k) as [L | [E | G]]; [ | exact E | ].
  - exfalso. assert (2 ^ (ilog2 q + 1) <= 2 ^ k) by (apply pow2_le; lia). lra.
  - exfalso. assert (2 ^ (k + 1) <= 2 ^ ilog2 q) by (apply pow2_le; lia). lra.
Qed.

Lemma ilog2_mono (p q : Q) : 0 < p -> p <= q -> (ilog2 p <= ilog2 q)%Z.
Proof.
  intros Hp Hpq.
  destruct (ilog2_spec p Hp) as [H1 H2].
  destruct (ilog2_spec q) as [H3 H4]; [lra|].
  destruct (Z_le_gt_dec (ilog2 p) (ilog2 q)) as [L | G]; [exact L | exfalso].
  assert (2 ^ (ilog2 q + 1) <= 2 ^ ilog2 p) by (apply pow2_le; lia). lra.
Qed.

(** Rounding to the nearest integer. *)
Lemma rne_floor (q : Q) : (Qfloor q <= rne q <= Qfloor q + 1)%Z.
Proof.
  unfold rne. destruct (q - inject_Z (Qfloor q) ?= 1 # 2); [ | lia | lia].
  destruct (Z.even (Qfloor q)); lia.
Qed.

Lemma rne_error (q : Q) : Qabs (inject_Z (rne q) - q) <= 1 # 2.
Proof.
  pose proof (Qfloor_le q) as Hl. pose proof (Qlt_floor q) as Hu.
  rewrite inject_Z_plus in Hu. change (inject_Z 1) with 1 in Hu.
  apply Qabs_Qle_condition. unfold rne.
  destruct (Qcompare_spec (q - inject_Z (Qfloor q)) (1 # 2)) as [E | L | G].
  - destruct (Z.even (Qfloor q)).
    + lra.
    + rewrite inject_Z_plus. change (inject_Z 1) with 1. lra.
  - lra.
  - rewrite inject_Z_plus. change (inject_Z 1) with 1. lra.
Qed.

Lemma rne_Z (z : Z) : rne (inject_Z z) = z.
Proof.
  unfold rne. rewrite Qfloor_Z.
  destruct (Qcompare_spec (inject_Z z - inject_Z z) (1 # 2)) as [E | L | G].
  - exfalso. lra.
  - reflexivity.
  - exfalso. lra.
Qed.

Lemma rne_comp (p q : Q) : p == q -> rne p = rne q.
Proof.
  intros E. unfold rne. rewrite (Qfloor_comp p q E).
  assert (E' : (p - inject_Z (Qfloor q) ?= 1 # 2) = (q - inject_Z (Qfloor q) ?= 1 # 2)).
  { apply Qcompare_comp; [rewrite E; reflexivity | reflexivity]. }
  rewrite E'. reflexivity.
Qed.

Lemma rne_mono (p q : Q) : p <= q -> (rne p <= rne q)%Z.
Proof.
  intros Hpq.
  pose proof (Qfloor_resp_le p q Hpq) as Hf.
  pose proof (rne_floor p) as Hp. pose proof (rne_floor q) as Hq.
  destruct (Z.eq_dec (Qfloor p) (Qfloor q)) as [E | N]; [ | lia].
  unfold rne in *. rewrite E in *.
  destruct (Qcompare_spec (p - inject_Z (Qfloor q)) (1 # 2)) as [E1 | L1 | G1];
    destruct (Qcompare_spec (q - inject_Z (Qfloor q)) (1 # 2)) as [E2 | L2 | G2];
    try lia; try (exfalso; lra);
    destruct (Z.even (Qfloor q)); lia.
Qed.

Lemma rne_le_Z (q : Q) (z : Z) : q <= inject_Z z -> (rne q <= z)%Z.
Proof. intros H. rewrite <- (rne_Z z). apply rne_mono. exact H. Qed.

Lemma rne_ge_Z (q : Q) (z : Z) : inject_Z z <= q -> (z <= rne q)%Z.
Proof. intros H. rewrite <- (rne_Z z). apply rne_mono. exact H. Qed.

Lemma cexp_mono (j k : Z) : (j <= k)%Z -> (cexp j <= cexp k)%Z.
Proof. unfold cexp, prec, emin. lia. Qed.

Lemma cexp_ge (k : Z) : (k - 52 <= cexp k)%Z /\ (-1074 <= cexp k)%Z.
Proof. unfold cexp, prec, emin. lia. Qed.

(** The scaled magnitude lies below [2^53], and above [2^52] in the
    normal range. *)
Lemma scaled_bounds (a : Q) :
  0 < a ->
  let c := cexp (ilog2 a) in
  (0 <= rne (a / 2 ^ c) <= 2 ^ 53)%Z
  /\ ((-1022 <= ilog2 a)%Z -> (2 ^ 52 <= rne (a / 2 ^ c))%Z).
Proof.
  intros Ha c. destruct (ilog2_spec a Ha) as [H1 H2].
  pose proof (cexp_ge (ilog2 a)) as [Hc1 Hc2]. fold c in Hc1, Hc2.
  pose proof (pow2_pos c) as Hp.
  repeat split.
  - apply rne_ge_Z. change (inject_Z 0) with 0.
    apply Qle_shift_div_l; [exact Hp | lra].
  - apply rne_le_Z. rewrite <- pow2_Z by lia.
    apply Qle_shift_div_r; [exact Hp|]. rewrite <- pow2_add.
    apply Qle_trans with (2 ^ (ilog2 a + 1)); [lra | apply pow2_le; lia].
  - intros Hn. apply rne_ge_Z. rewrite <- pow2_Z by lia.
    apply Qle_shift_div_l; [exact Hp|]. rewrite <- pow2_add.
    apply Qle_trans with (2 ^ ilog2 a); [apply pow2_le | exact H1].
    unfold c, cexp, prec, emin. lia.
Qed.

Lemma rnd_nonpos (a : Q) : a <= 0 -> rnd a = 0.
Proof.
  intros H. unfold rnd. apply Qle_bool_iff in H. rewrite H. reflexivity.
Qed.

Lemma rnd_pos (a : Q) :
  0 < a ->
  rnd a = inject_Z (rne (a / 2 ^ cexp (ilog2 a))) * 2 ^ cexp (ilog2 a).
Proof.
  intros H. unfold rnd. destruct (Qle_bool a 0) eqn:E; [ | reflexivity].
  apply Qle_bool_iff in E. exfalso. lra.
Qed.

Lemma rnd_nonneg (a : Q) : 0 <= rnd a.
Proof.
  destruct (Qlt_le_dec 0 a) as [Ha | Ha].
  - rewrite rnd_pos by exact Ha.
    destruct (scaled_bounds a Ha) as [[H _] _].
    apply Qmult_le_0_compat; [ | apply Qlt_le_weak, pow2_pos].
    change 0 with (inject_Z 0). rewrite <- Zle_Qle. exact H.
  - rewrite rnd_nonpos by exact Ha. apply Qle_refl.
Qed.

(** Rounding is monotone. *)
Lemma rnd_mono (a b : Q) : a <= b -> rnd a <= rnd b.
Proof.
  intros Hab.
  destruct (Qlt_le_dec 0 a) as [Ha | Ha];
    [ | rewrite (rnd_nonpos a Ha); apply rnd_nonneg].
  assert (Hb : 0 < b) by lra.
  rewrite (rnd_pos a Ha), (rnd_pos b Hb).
  pose proof (ilog2_mono a b Ha Hab) as Hk.
  pose proof (cexp_mono _ _ Hk) as Hc.
  set (ka := ilog2 a) in *. set (kb := ilog2 b) in *.
  set (ca := cexp ka) in *. set (cb := cexp kb) in *.
  destruct (ilog2_spec a Ha) as [A1 A2]. destruct (ilog2_spec b Hb) as [B1 B2].
  fold ka in A1, A2. fold kb in B1, B2.
  destruct (Z.eq_dec ca cb) as [E | N].
  - rewrite E. apply Qmult_le_compat_r; [ | apply Qlt_le_weak, pow2_pos].
    rewrite <- Zle_Qle. apply rne_mono.
    apply Qmult_le_compat_r; [exact Hab | ].
    apply Qlt_le_weak, Qinv_lt_0_compat, pow2_pos.
  - assert (Hlt : (ca < cb)%Z) by lia.
    assert (Hcb : cb = (kb - 52)%Z) by (unfold ca, cb, cexp, prec, emin in *; lia).
    assert (Hkab : (ka < kb)%Z) by (unfold ca, cb, cexp, prec, emin in *; lia).
    assert (Hca : (-1074 <= ca)%Z) by apply cexp_ge.
    apply Qle_trans with (2 ^ kb).
    + assert (Hm : (rne (a / 2 ^ ca) <= 2 ^ (kb - ca))%Z).
      { apply rne_le_Z. rewrite <- pow2_Z by lia.
        apply Qle_shift_div_r; [apply pow2_pos|]. rewrite <- pow2_add.
        replace (kb - ca + ca)%Z with kb by lia.
        apply Qle_trans with (2 ^ (ka + 1)); [lra | apply pow2_le; lia]. }
      apply Qle_trans with (inject_Z (2 ^ (kb - ca)) * 2 ^ ca).
      * apply Qmult_le_compat_r; [ | apply Qlt_le_weak, pow2_pos].
        rewrite <- Zle_Qle. exact Hm.
      * rewrite <- pow2_Z by lia. rewrite <- pow2_add.
        replace (kb - ca + ca)%Z with kb by lia. apply Qle_refl.
    + destruct (scaled_bounds b Hb) as [_ Hn]. fold kb cb in Hn.
      assert (Hm : (2 ^ 52 <= rne (b / 2 ^ cb))%Z) by (apply Hn; lia).
      apply Qle_trans with (inject_Z (2 ^ 52) * 2 ^ cb).
      * rewrite <- pow2_Z by lia. rewrite <- pow2_add.
        replace (52 + cb)%Z with kb by lia. apply Qle_refl.
      * apply Qmult_le_compat_r; [ | apply Qlt_le_weak, pow2_pos].
        rewrite <- Zle_Qle. exact Hm.
Qed.

(** A multiple of the unit in the last place rounds to itself. *)
Lemma rnd_exact (a : Q) (m e : Z) :
  0 < a -> a == inject_Z m * 2 ^ e -> (cexp (ilog2 a) <= e)%Z -> rnd a == a.
Proof.
  intros Ha Hm He. rewrite (rnd_pos a Ha).
  set (c := cexp (ilog2 a)) in *.
  assert (Hs : a / 2 ^ c == inject_Z (m * 2 ^ (e - c))).
  { rewrite inject_Z_mult, <- pow2_Z by lia. rewrite Hm.
    unfold Zminus. rewrite pow2_add, Qpower_opp.
    pose proof (pow2_pos c). field. lra. }
  rewrite (rne_comp _ _ Hs), rne_Z.
  rewrite inject_Z_mult, <- pow2_Z by lia. rewrite Hm.
  rewrite <- Qmult_assoc, <- pow2_add.
  replace (e - c + c)%Z with e by lia. reflexivity.
Qed.

Lemma rnd_exact_int (z : Z) :
  (0 <= z <= 2 ^ 53)%Z -> rnd (inject_Z z) == inject_Z z.
Proof.
  intros [H0 H1].
  destruct (Z.eq_dec z 0) as [-> | Hz]; [reflexivity | ].
  assert (Hq : 0 < inject_Z z) by (change 0 with (inject_Z 0); rewrite <- Zlt_Qlt; lia).
  destruct (Z.eq_dec z (2 ^ 53)) as [-> | Hz'].
  - apply (rnd_exact _ 1 53); [exact Hq | reflexivity | ].
    rewrite (ilog2_unique _ 53); [ unfold cexp, prec, emin; lia | | ]; vm_compute; congruence.
  - apply (rnd_exact _ z 0); [exact Hq | change (2 ^ 0) with 1; ring | ].
    assert (Hk : (ilog2 (inject_Z z) <= 52)%Z).
    { destruct (ilog2_spec _ Hq) as [K1 _].
      destruct (Z_le_gt_dec (ilog2 (inject_Z z)) 52) as [L | G]; [exact L | exfalso].
      assert (2 ^ 53 <= 2 ^ ilog2 (inject_Z z)) by (apply pow2_le; lia).
      assert (inject_Z z < 2 ^ 53).
      { rewrite pow2_Z by lia. rewrite <- Zlt_Qlt. lia. }
      lra. }
    unfold cexp, prec, emin. lia.
Qed.

(** In the normal range the relative error of rounding is at most
    [2^-53]. *)
Lemma rnd_error (a : Q) :
  2 ^ (-1022) <= a -> Qabs (rnd a - a) <= a * 2 ^ (-53).
Proof.
  intros Hn.
  assert (Ha : 0 < a) by (pose proof (pow2_pos (-1022)); lra).
  rewrite (rnd_pos a Ha).
  destruct (ilog2_spec a Ha) as [K1 K2].
  assert (Hk : (-1022 <= ilog2 a)%Z).
  { destruct (Z_le_gt_dec (-1022) (ilog2 a)) as [L | G]; [exact L | exfalso].
    assert (2 ^ (ilog2 a + 1) <= 2 ^ (-1022)) by (apply pow2_le; lia). lra. }
  assert (Hc : cexp (ilog2 a) = (ilog2 a - 52)%Z) by (unfold cexp, prec, emin; lia).
  set (c := cexp (ilog2 a)) in *.
  pose proof (rne_error (a / 2 ^ c)) as He.
  pose proof (pow2_pos c) as Hp.
  assert (Hs : inject_Z (rne (a / 2 ^ c)) * 2 ^ c - a
               == (inject_Z (rne (a / 2 ^ c)) - a / 2 ^ c) * 2 ^ c).
  { field. lra. }
  rewrite Hs, Qabs_Qmult. rewrite (Qabs_pos (2 ^ c)) by lra.
  apply Qle_trans with ((1 # 2) * 2 ^ c).
  - apply Qmult_le_compat_r; [exact He | lra].
  - assert (Hh : (1 # 2) * 2 ^ c == 2 ^ ilog2 a * 2 ^ (-53)).
    { rewrite <- pow2_add. replace (ilog2 a + -53)%Z with (c + -1)%Z by lia.
      rewrite pow2_add. change (2 ^ (-1)) with (1 # 2). ring. }
    rewrite Hh. apply Qmult_le_compat_r; [exact K1 | apply Qlt_le_weak, pow2_pos].
Qed.


(** The three shapes of a rounded magnitude: a zero, a finite number that
    carries the rounded value, or an infinity beyond the range. *)
Lemma Fs_cases (s : bool) (a : Q) :
  (rnd a == 0 /\ Fs s a = S754_zero s)
  \/ (0 < rnd a /\ rnd a < 2 ^ 1024
      /\ exists p e, Fs s a = S754_finite s p e
                     /\ inject_Z (Zpos p) * 2 ^ e == rnd a)
  \/ (2 ^ 1024 <= rnd a /\ Fs s a = S754_infinity s).
Proof.
  destruct (Qlt_le_dec 0 a) as [Ha | Ha].
  2:{ left. rewrite (rnd_nonpos a Ha). split; [reflexivity | ].
      unfold Fs. apply Qle_bool_iff in Ha. rewrite Ha. reflexivity. }
  assert (HF : Fs s a = build s (rne (a / 2 ^ cexp (ilog2 a))) (cexp (ilog2 a))).
  { unfold Fs. destruct (Qle_bool a 0) eqn:E; [ | reflexivity].
    apply Qle_bool_iff in E. exfalso. lra. }
  rewrite HF, (rnd_pos a Ha).
  destruct (scaled_bounds a Ha) as [[M0 M1] Mn].
  pose proof (cexp_ge (ilog2 a)) as [C1 C2].
  assert (Hsub : (2 ^ 52 <= rne (a / 2 ^ cexp (ilog2 a)))%Z
                 \/ cexp (ilog2 a) = (-1074)%Z).
  { destruct (Z_le_gt_dec (-1022) (ilog2 a)) as [L | G].
    - left. apply Mn. exact L.
    - right. unfold cexp, prec, emin. lia. }
  set (c := cexp (ilog2 a)) in *. set (m := rne (a / 2 ^ c)) in *.
  clearbody m c. clear HF Mn C1.
  pose proof (pow2_pos c) as Hp.
  destruct m as [ | p | p]; [ | | lia].
  - left. split; [ring | reflexivity].
  - right. unfold build.
    assert (Hpos : 0 < inject_Z (Z.pos p) * 2 ^ c).
    { apply Qmult_lt_0_compat; [reflexivity | exact Hp]. }
    destruct (Z.eqb_spec (Z.pos p) (2 ^ prec)) as [E | N].
    + change (2 ^ prec)%Z with (2 ^ 53)%Z in E.
      assert (Hv : inject_Z (Z.pos p) * 2 ^ c == 2 ^ (53 + c)).
      { rewrite E, <- pow2_Z by lia. rewrite pow2_add. reflexivity. }
      destruct (Z.leb_spec (c + 1) emax) as [L | G]; unfold emax in *.
      * left. split; [exact Hpos | split].
        -- rewrite Hv. apply pow2_lt. lia.
        -- exists (Z.to_pos (2 ^ (prec - 1))), (c + 1)%Z. split; [reflexivity | ].
           rewrite Hv. change (inject_Z (Z.pos (Z.to_pos (2 ^ (prec - 1))))) with (inject_Z (2 ^ 52)).
           rewrite <- pow2_Z by lia. rewrite <- pow2_add.
           replace (52 + (c + 1))%Z with (53 + c)%Z by lia. reflexivity.
      * right. split; [ | reflexivity]. rewrite Hv. apply pow2_le. lia.
    + change (2 ^ prec)%Z with (2 ^ 53)%Z in N.
      destruct (Z.leb_spec c emax) as [L | G]; unfold emax in *.
      * left. split; [exact Hpos | split].
        -- apply Qlt_le_trans with (inject_Z (2 ^ 53) * 2 ^ c).
           ++ apply Qmult_lt_compat_r; [exact Hp | rewrite <- Zlt_Qlt; lia].
           ++ rewrite <- pow2_Z by lia. rewrite <- pow2_add. apply pow2_le. lia.
        -- exists p, c. split; reflexivity.
      * right. split; [ | reflexivity].
        destruct Hsub as [Hs | Hs]; [ | lia].
        apply Qle_trans with (inject_Z (2 ^ 52) * 2 ^ c).
        -- rewrite <- pow2_Z by lia. rewrite <- pow2_add. apply pow2_le. lia.
        -- apply Qmult_le_compat_r; [rewrite <- Zle_Qle; exact Hs | lra].
Qed.

Lemma ilog2_comp (a b : Q) : 0 < a -> a == b -> ilog2 a = ilog2 b.
Proof.
  intros Ha E. destruct (ilog2_spec a Ha) as [H1 H2].
  symmetry. apply ilog2_unique; lra.
Qed.

Lemma Qle_bool_comp (a b : Q) : a == b -> Qle_bool a 0 = Qle_bool b 0.
Proof.
  intros E.
  destruct (Qle_bool a 0) eqn:A; destruct (Qle_bool b 0) eqn:B; try reflexivity.
  - apply Qle_bool_iff in A. assert (C : b <= 0) by lra.
    apply Qle_bool_iff in C. congruence.
  - apply Qle_bool_iff in B. assert (C : a <= 0) by lra.
    apply Qle_bool_iff in C. congruence.
Qed.

(** Rounding depends on the value of the rational only. *)
Lemma Fs_comp (s : bool) (a b : Q) : a == b -> Fs s a = Fs s b.
Proof.
  intros E. unfold Fs.
  pose proof (Qle_bool_comp a b E) as Hb.
  rewrite <- Hb. destruct (Qle_bool a 0) eqn:A; [reflexivity | ].
  assert (Ha : 0 < a).
  { apply Qnot_le_lt. intros C. apply Qle_bool_iff in C. congruence. }
  rewrite <- (ilog2_comp a b Ha E).
  f_equal. apply rne_comp. apply Qdiv_comp; [exact E | reflexivity].
Qed.

Lemma rnd_comp (a b : Q) : a == b -> rnd a == rnd b.
Proof.
  intros E. unfold rnd.
  pose proof (Qle_bool_comp a b E) as Hb.
  rewrite <- Hb. destruct (Qle_bool a 0) eqn:A; [reflexivity | ].
  assert (Ha : 0 < a).
  { apply Qnot_le_lt. intros C. apply Qle_bool_iff in C. congruence. }
  rewrite <- (ilog2_comp a b Ha E).
  rewrite (rne_comp (a / 2 ^ cexp (ilog2 a)) (b / 2 ^ cexp (ilog2 a))); [reflexivity | ].
  apply Qdiv_comp; [exact E | reflexivity].
Qed.

Lemma compare_finite (x y : number) :
  is_finite x = true -> is_finite y = true ->
  compare x y = Some (R x ?= R y).
Proof.
  intros Hx Hy. destruct x; try discriminate; destruct y; try discriminate;
    reflexivity.
Qed.

Lemma leb_finite (x y : number) :
  is_finite x = true -> is_finite y = true ->
  leb x y = true <-> R x <= R y.
Proof.
  intros Hx Hy. unfold leb. rewrite (compare_finite x y Hx Hy).
  destruct (Qcompare_spec (R x) (R y)) as [E | L | G];
    split; intros H; try reflexivity; try discriminate; try lra.
Qed.

(** The order of two rounded values follows the order of the signed
    magnitudes before rounding. *)
Lemma leb_Fs (s1 s2 : bool) (a1 a2 : Q) :
  signed s1 (rnd a1) <= signed s2 (rnd a2) ->
  leb (Fs s1 a1) (Fs s2 a2) = true.
Proof.
  intros H.
  pose proof (rnd_nonneg a1) as N1. pose proof (rnd_nonneg a2) as N2.
  pose proof (pow2_pos 1024) as P.
  destruct (Fs_cases s1 a1) as [[V1 ->] | [(V1 & W1 & p1 & e1 & -> & E1) | [V1 ->]]];
  destruct (Fs_cases s2 a2) as [[V2 ->] | [(V2 & W2 & p2 & e2 & -> & E2) | [V2 ->]]];
  unfold signed in H;
  try (apply leb_finite; [reflexivity | reflexivity | ];
       unfold R, sign_of, Rabs; destruct s1, s2; lra);
  destruct s1, s2; try reflexivity; exfalso; lra.
Qed.


Lemma Rabs_finite_pos (s : bool) (m : positive) (e : Z) :
  0 < Rabs (S754_finite s m e).
Proof.
  unfold Rabs. apply Qmult_lt_0_compat; [reflexivity | apply pow2_pos].
Qed.

Lemma R_zero (s : bool) : R (S754_zero s) == 0.
Proof. destruct s; reflexivity. Qed.

Lemma Fs_zero (s : bool) : Fs s 0 = S754_zero s.
Proof. reflexivity. Qed.

(** A rounded magnitude is never [NaN] and lies on the side of its sign. *)
Lemma Fs_not_nan (s : bool) (a : Q) : Fs s a <> S754_nan.
Proof.
  destruct (Fs_cases s a) as [[_ ->] | [(_ & _ & p & e & -> & _) | [_ ->]]];
    discriminate.
Qed.

Lemma leb_Fs_infinity (s : bool) (a : Q) :
  leb (Fs s a) (S754_infinity false) = true
  /\ leb (S754_infinity true) (Fs s a) = true.
Proof.
  destruct (Fs_cases s a) as [[_ ->] | [(_ & _ & p & e & -> & _) | [_ ->]]];
    destruct s; split; reflexivity.
Qed.

Lemma leb_zero_Fs (s : bool) (a : Q) :
  leb (S754_zero s) (Fs false a) = true /\ leb (Fs true a) (S754_zero s) = true.
Proof.
  rewrite <- (Fs_zero s). pose proof (rnd_nonneg a).
  split; apply leb_Fs; unfold signed;
    rewrite (rnd_nonpos 0) by apply Qle_refl; destruct s; lra.
Qed.

Lemma leb_zero_zero (s s' : bool) : leb (S754_zero s) (S754_zero s') = true.
Proof. destruct s, s'; reflexivity. Qed.

(** Scaling by a positive factor preserves the order. *)
Lemma scale_mono (g : Q -> Q) (x y : number) :
  (forall a b, 0 <= a -> a <= b -> g a <= g b) ->
  leb x y = true -> leb (scale false g x) (scale false g y) = true.
Proof.
  intros Hg Hxy.
  destruct x as [sx | sx | | sx mx ex]; destruct y as [sy | sy | | sy my ey];
    try discriminate Hxy; cbn [scale xorb].
  - apply leb_zero_zero.
  - exact Hxy.
  - assert (sy = false) as ->.
    { destruct sy; [ | reflexivity].
      apply leb_finite in Hxy; [ | reflexivity | reflexivity].
      pose proof (Rabs_finite_pos true my ey). pose proof (R_zero sx).
      change (R (S754_finite true my ey))
        with (- Rabs (S754_finite true my ey)) in Hxy. lra. }
    apply leb_zero_Fs.
  - exact Hxy.
  - exact Hxy.
  - destruct sx; [ | discriminate Hxy]. apply leb_Fs_infinity.
  - assert (sx = true) as ->.
    { destruct sx; [reflexivity | ].
      apply leb_finite in Hxy; [ | reflexivity | reflexivity].
      pose proof (Rabs_finite_pos false mx ex). pose proof (R_zero sy).
      change (R (S754_finite false mx ex))
        with (Rabs (S754_finite false mx ex)) in Hxy. lra. }
    apply leb_zero_Fs.
  - destruct sy; [discriminate Hxy | ]. apply leb_Fs_infinity.
  - apply leb_finite in Hxy; [ | reflexivity | reflexivity].
    apply leb_Fs. unfold R, sign_of in Hxy. unfold signed.
    pose proof (Rabs_finite_pos sx mx ex) as Px.
    pose proof (Rabs_finite_pos sy my ey) as Py.
    pose proof (rnd_nonneg (g (Rabs (S754_finite sx mx ex)))) as Nx.
    pose proof (rnd_nonneg (g (Rabs (S754_finite sy my ey)))) as Ny.
    destruct sx, sy.
    + apply Qopp_le_compat. apply rnd_mono. apply Hg; lra.
    + lra.
    + exfalso. lra.
    + apply rnd_mono. apply Hg; lra.
Qed.

Lemma Fs_opp (s : bool) (a : Q) : Fs (negb s) a = SFopp (Fs s a).
Proof.
  unfold Fs. destruct (Qle_bool a 0); [reflexivity | ].
  unfold build. destruct (rne _); [reflexivity | | reflexivity].
  destruct (_ =? _)%Z; destruct (_ <=? _)%Z; reflexivity.
Qed.

Lemma scale_flip (g : Q -> Q) (x : number) :
  scale true g x = SFopp (scale false g x).
Proof.
  destruct x; cbn [scale xorb]; try reflexivity. apply Fs_opp.
Qed.

Lemma R_opp (x : number) : R (SFopp x) == - R x.
Proof.
  destruct x as [s | s | | s m e]; unfold R; cbn; try destruct s; cbn; ring.
Qed.

Lemma leb_opp (x y : number) : leb (SFopp y) (SFopp x) = leb x y.
Proof.
  destruct x as [sx | sx | | sx mx ex]; destruct y as [sy | sy | | sy my ey];
    try reflexivity;
    try (destruct sx; reflexivity); try (destruct sy; reflexivity);
    try (destruct sx, sy; reflexivity).
  - unfold leb. 
    rewrite (compare_finite (SFopp (S754_finite sy my ey)) (SFopp (S754_zero sx))) by reflexivity.
    rewrite (compare_finite (S754_zero sx) (S754_finite sy my ey)) by reflexivity.
    pose proof (R_opp (S754_finite sy my ey)). pose proof (R_opp (S754_zero sx)).
    destruct (Qcompare_spec (R (SFopp (S754_finite sy my ey))) (R (SFopp (S754_zero sx))));
    destruct (Qcompare_spec (R (S754_zero sx)) (R (S754_finite sy my ey)));
    try reflexivity; exfalso; lra.
  - unfold leb. 
    rewrite (compare_finite (SFopp (S754_zero sy)) (SFopp (S754_finite sx mx ex))) by reflexivity.
    rewrite (compare_finite (S754_finite sx mx ex) (S754_zero sy)) by reflexivity.
    pose proof (R_opp (S754_finite sx mx ex)). pose proof (R_opp (S754_zero sy)).
    destruct (Qcompare_spec (R (SFopp (S754_zero sy))) (R (SFopp (S754_finite sx mx ex))));
    destruct (Qcompare_spec (R (S754_finite sx mx ex)) (R (S754_zero sy)));
    try reflexivity; exfalso; lra.
  - unfold leb. 
    rewrite (compare_finite (SFopp (S754_finite sy my ey)) (SFopp (S754_finite sx mx ex))) by reflexivity.
    rewrite (compare_finite (S754_finite sx mx ex) (S754_finite sy my ey)) by reflexivity.
    pose proof (R_opp (S754_finite sx mx ex)). pose proof (R_opp (S754_finite sy my ey)).
    destruct (Qcompare_spec (R (SFopp (S754_finite sy my ey))) (R (SFopp (S754_finite sx mx ex))));
    destruct (Qcompare_spec (R (S754_finite sx mx ex)) (R (S754_finite sy my ey)));
    try reflexivity; exfalso; lra.
Qed.

(** Scaling by a negative factor reverses the order. *)
Lemma scale_anti (g : Q -> Q) (x y : number) :
  (forall a b, 0 <= a -> a <= b -> g a <= g b) ->
  leb x y = true -> leb (scale true g y) (scale true g x) = true.
Proof.
  intros Hg Hxy. rewrite !scale_flip, leb_opp. apply scale_mono; assumption.
Qed.

(** Multiplication and division by a finite non-zero Number are scalings. *)
Lemma mul_scale (s : bool) (m : positive) (e : Z) (x : number) :
  mul (S754_finite s m e) x
  = scale s (fun a => Rabs (S754_finite s m e) * a) x.
Proof. destruct x; reflexivity. Qed.

Lemma div_scale (s : bool) (m : positive) (e : Z) (x : number) :
  div x (S754_finite s m e)
  = scale s (fun a => a / Rabs (S754_finite s m e)) x.
Proof.
  destruct x as [sx | sx | | sx mx ex]; unfold div, scale; cbn [SFdiv];
    try rewrite (xorb_comm sx s); reflexivity.
Qed.

Lemma mul_mono_l (s : bool) (m : positive) (e : Z) (x y : number) :
  leb x y = true ->
  if s then leb (mul (S754_finite s m e) y) (mul (S754_finite s m e) x) = true
  else leb (mul (S754_finite s m e) x) (mul (S754_finite s m e) y) = true.
Proof.
  intros H. rewrite !mul_scale.
  assert (Hg : forall a b, 0 <= a -> a <= b ->
               Rabs (S754_finite s m e) * a <= Rabs (S754_finite s m e) * b).
  { intros a b _ Hab. pose proof (Rabs_finite_pos s m e). nra. }
  destruct s; [apply scale_anti | apply scale_mono]; assumption.
Qed.

Lemma div_mono_r (m : positive) (e : Z) (x y : number) :
  leb x y = true ->
  leb (div x (S754_finite false m e)) (div y (S754_finite false m e)) = true.
Proof.
  intros H. rewrite !div_scale. apply scale_mono; [ | exact H].
  intros a b _ Hab. apply Qmult_le_compat_r; [exact Hab | ].
  apply Qlt_le_weak, Qinv_lt_0_compat, Rabs_finite_pos.
Qed.


(** Integers up to [2^53] are Numbers. *)
Lemma Fs_exact_int (s : bool) (z : Z) :
  (0 < z <= 2 ^ 53)%Z ->
  exists p e, Fs s (inject_Z z) = S754_finite s p e
              /\ inject_Z (Zpos p) * 2 ^ e == inject_Z z.
Proof.
  intros [H0 H1].
  assert (Hr : rnd (inject_Z z) == inject_Z z) by (apply rnd_exact_int; lia).
  assert (Hz : 0 < inject_Z z) by (change 0 with (inject_Z 0); rewrite <- Zlt_Qlt; lia).
  assert (Hu : inject_Z z < 2 ^ 1024).
  { apply Qle_lt_trans with (2 ^ 53); [ | apply pow2_lt; lia].
    rewrite pow2_Z by lia. rewrite <- Zle_Qle. exact H1. }
  destruct (Fs_cases s (inject_Z z))
    as [[V _] | [(_ & _ & p & e & E & V) | [V _]]].
  - exfalso. lra.
  - exists p, e. split; [exact E | lra].
  - exfalso. lra.
Qed.

Lemma Number_of_bigint_exact (z : Z) :
  (Z.abs z <= 2 ^ 53)%Z ->
  is_finite (Number_of_bigint z) = true /\ R (Number_of_bigint z) == inject_Z z.
Proof.
  intros Hz. unfold Number_of_bigint, F. destruct z as [ | q | q]; cbn [Qnum inject_Z].
  - split; reflexivity.
  - destruct (Fs_exact_int false (Z.pos q)) as (p & e & E & V); [lia | ].
    change (Z.pos q # 1) with (inject_Z (Z.pos q)). rewrite E. split; [reflexivity | ].
    unfold R, sign_of, Rabs. exact V.
  - destruct (Fs_exact_int true (Z.pos q)) as (p & e & E & V); [lia | ].
    assert (C : Fs true (- inject_Z (Z.neg q)) = Fs true (inject_Z (Z.pos q)))
      by (apply Fs_comp; reflexivity).
    rewrite C, E. split; [reflexivity | ].
    unfold R, sign_of, Rabs. rewrite V. reflexivity.
Qed.

Lemma Qfloor_opp_Z (z : Z) : Qfloor (- inject_Z z) = (- z)%Z.
Proof. rewrite <- inject_Z_opp. apply Qfloor_Z. Qed.

(** [BigInt] reads back a rounded integer. *)
Lemma BigInt_Fs_int (s : bool) (z : Z) :
  (0 <= z <= 2 ^ 53)%Z ->
  BigInt (Fs s (inject_Z z)) = Some (if s then - z else z)%Z.
Proof.
  intros [H0 H1]. destruct (Z.eq_dec z 0) as [-> | N].
  - destruct s; reflexivity.
  - destruct (Fs_exact_int s z) as (p & e & E & V); [lia | ].
    rewrite E. unfold BigInt.
    assert (HR : R (S754_finite s p e) == inject_Z (if s then - z else z)%Z).
    { unfold R, sign_of, Rabs. destruct s.
      - rewrite V, inject_Z_opp. reflexivity.
      - exact V. }
    rewrite (Qfloor_comp _ _ HR), Qfloor_Z.
    assert (Hb : Qeq_bool (inject_Z (if s then (- z)%Z else z)) (R (S754_finite s p e)) = true).
    { apply Qeq_bool_iff. symmetry. exact HR. }
    rewrite Hb. reflexivity.
Qed.

(** [Math.trunc] followed by [BigInt] is the integral part toward zero. *)
Lemma BigInt_trunc (x : number) :
  is_finite x = true -> Rabs x < 2 ^ 53 + 1 ->
  BigInt (Math_trunc x)
  = Some (if sign_of x then - Qfloor (Rabs x) else Qfloor (Rabs x))%Z.
Proof.
  intros Hx Hb. destruct x as [s | s | | s m e]; try discriminate Hx.
  - destruct s; reflexivity.
  - cbn [Math_trunc sign_of]. apply BigInt_Fs_int. split.
    + rewrite <- (Qfloor_Z 0). apply Qfloor_resp_le.
      apply Qlt_le_weak, Rabs_finite_pos.
    + assert (H : (Qfloor (Rabs (S754_finite s m e)) < 2 ^ 53 + 1)%Z).
      { rewrite Zlt_Qlt. apply Qle_lt_trans with (Rabs (S754_finite s m e)).
        - apply Qfloor_le.
        - rewrite inject_Z_plus, <- pow2_Z by lia. exact Hb. }
      lia.
Qed.

(** The decimal factors of up to eighteen decimals are exact. *)
Lemma pow10_exact (d : Z) :
  (0 <= d <= 18)%Z ->
  exists p e, Math_pow10 d = S754_finite false p e
              /\ inject_Z (Zpos p) * 2 ^ e == inject_Z (10 ^ d).
Proof.
  intros H.
  assert (C : (d = 0 \/ d = 1 \/ d = 2 \/ d = 3 \/ d = 4 \/ d = 5 \/ d = 6
               \/ d = 7 \/ d = 8 \/ d = 9 \/ d = 10 \/ d = 11 \/ d = 12
               \/ d = 13 \/ d = 14 \/ d = 15 \/ d = 16 \/ d = 17
               \/ d = 18)%Z) by lia.
  repeat (destruct C as [-> | C]); try subst d;
    (eexists; eexists; split; [vm_compute; reflexivity | vm_compute; reflexivity]).
Qed.


Lemma F_pos_int (z : Z) : (0 < z)%Z -> F (inject_Z z) = Fs false (inject_Z z).
Proof. intros H. destruct z; try lia. reflexivity. Qed.

(** The quotient of a positive amount below [2^53] by a decimal factor: a
    finite positive Number, the rounded exact quotient, within the relative
    error of one rounding. *)
Lemma quotient_shape (a d : Z) :
  (1 <= a < 2 ^ 53)%Z -> (0 <= d <= 18)%Z ->
  exists p e q,
    div (Number_of_bigint a) (Math_pow10 d) = S754_finite false p e
    /\ Fs false q = S754_finite false p e
    /\ q == inject_Z a / inject_Z (10 ^ d)
    /\ Rabs (S754_finite false p e) == rnd q
    /\ q - q * 2 ^ (-53) <= rnd q <= q + q * 2 ^ (-53).
Proof.
  intros [Ha0 Ha1] Hd.
  destruct (pow10_exact d Hd) as (pf & ef & Ef & Vf). rewrite Ef.
  unfold Number_of_bigint. rewrite F_pos_int by lia.
  destruct (Fs_exact_int false a) as (pa & ea & Ea & Va); [lia | ].
  rewrite Ea.
  set (A := inject_Z a) in *. set (T := inject_Z (10 ^ d)) in *.
  assert (HA1 : 1 <= A)
    by (unfold A; change 1 with (inject_Z 1); rewrite <- Zle_Qle; lia).
  assert (HA2 : A < 2 ^ 53).
  { unfold A. rewrite pow2_Z by lia. rewrite <- Zlt_Qlt. lia. }
  assert (HT1 : 1 <= T).
  { unfold T. change 1 with (inject_Z 1). rewrite <- Zle_Qle.
    assert (0 < 10 ^ d)%Z by (apply Z.pow_pos_nonneg; lia). lia. }
  assert (HT2 : T <= inject_Z (10 ^ 18)).
  { unfold T. rewrite <- Zle_Qle. apply Z.pow_le_mono_r; lia. }
  change (div (S754_finite false pa ea) (S754_finite false pf ef))
    with (Fs false (Rabs (S754_finite false pa ea) / Rabs (S754_finite false pf ef))).
  set (q := Rabs (S754_finite false pa ea) / Rabs (S754_finite false pf ef)).
  assert (Hq : q == A / T).
  { unfold q, Rabs. rewrite Va, Vf. reflexivity. }
  assert (Hq0 : 0 < q).
  { rewrite Hq. apply Qlt_shift_div_l; lra. }
  assert (Hqn : 2 ^ (-1022) <= q).
  { rewrite Hq. apply Qle_shift_div_l; [lra | ].
    apply Qle_trans with (2 ^ (-1022) * inject_Z (10 ^ 18)).
    - apply Qmult_le_l; [apply pow2_pos | exact HT2].
    - apply Qle_trans with 1; [ | exact HA1]. vm_compute. discriminate. }
  pose proof (rnd_error q Hqn) as Herr.
  apply Qabs_Qle_condition in Herr. destruct Herr as [Herr1 Herr2].
  assert (Hu : 0 < 2 ^ (-53)) by apply pow2_pos.
  assert (Hu1 : (2 ^ (-53) : Q) < 1) by (vm_compute; reflexivity).
  assert (Hqu : q * 2 ^ (-53) < q) by nra.
  destruct (Fs_cases false q)
    as [[V _] | [(_ & _ & p1 & e1 & E1 & V1) | [V _]]].
  - exfalso. lra.
  - exists p1, e1, q. rewrite E1. repeat split; try assumption; lra.
  - exfalso.
    assert (q <= 2 ^ 53).
    { rewrite Hq. apply Qle_shift_div_r; [lra | ].
      apply Qle_trans with (2 ^ 53 * 1); [lra | ].
      apply Qmult_le_l; [apply pow2_pos | exact HT1]. }
    assert (2 ^ 53 + 2 ^ 53 < (2 ^ 1024 : Q)) by (vm_compute; reflexivity).
    lra.
Qed.

(** Dividing an amount below [2^53] by a decimal factor and multiplying
    the quotient back lands within one unit of the amount. *)
Lemma plain_round_trip_core (a d : Z) :
  (0 <= a < 2 ^ 53)%Z -> (0 <= d <= 18)%Z ->
  exists b : Z,
    BigInt (Math_trunc (mul (div (Number_of_bigint a) (Math_pow10 d))
                            (Math_pow10 d))) = Some b
    /\ (Z.abs (b - a) <= 1)%Z.
Proof.
  intros [Ha0 Ha1] Hd.
  destruct (Z.eq_dec a 0) as [-> | Na].
  { destruct (pow10_exact d Hd) as (pf & ef & Ef & _). rewrite Ef.
    exists 0%Z. split; [reflexivity | lia]. }
  destruct (quotient_shape a d) as (p1 & e1 & q & Ex & _ & Hq & V1 & Hlo & Hhi);
    [lia | exact Hd | ].
  rewrite Ex.
  destruct (pow10_exact d Hd) as (pf & ef & Ef & Vf). rewrite Ef.
  set (A := inject_Z a) in *. set (T := inject_Z (10 ^ d)) in *.
  assert (HA2 : A < 2 ^ 53).
  { unfold A. rewrite pow2_Z by lia. rewrite <- Zlt_Qlt. lia. }
  assert (HT1 : 1 <= T).
  { unfold T. change 1 with (inject_Z 1). rewrite <- Zle_Qle.
    assert (0 < 10 ^ d)%Z by (apply Z.pow_pos_nonneg; lia). lia. }
  assert (HqT : q * T == A) by (rewrite Hq; field; lra).
  assert (Hu : 0 < 2 ^ (-53)) by apply pow2_pos.
  (* the product *)
  change (mul (S754_finite false p1 e1) (S754_finite false pf ef))
    with (Fs false (Rabs (S754_finite false p1 e1) * Rabs (S754_finite false pf ef))).
  set (y := Rabs (S754_finite false p1 e1) * Rabs (S754_finite false pf ef)).
  assert (Hy : y == rnd q * T).
  { unfold y. rewrite V1. unfold Rabs. rewrite Vf. reflexivity. }
  assert (HAu : A * 2 ^ (-53) < 1).
  { apply Qlt_le_trans with (2 ^ 53 * 2 ^ (-53)).
    - apply Qmult_lt_compat_r; [exact Hu | exact HA2].
    - vm_compute. discriminate. }
  assert (Hy1 : A - 1 <= y).
  { rewrite Hy.
    assert ((q - q * 2 ^ (-53)) * T <= rnd q * T)
      by (apply Qmult_le_compat_r; lra).
    assert ((q - q * 2 ^ (-53)) * T == A - A * 2 ^ (-53))
      by (rewrite <- HqT; ring).
    lra. }
  assert (Hy2 : y <= A + 1).
  { rewrite Hy.
    assert (rnd q * T <= (q + q * 2 ^ (-53)) * T)
      by (apply Qmult_le_compat_r; lra).
    assert ((q + q * 2 ^ (-53)) * T == A + A * 2 ^ (-53))
      by (rewrite <- HqT; ring).
    lra. }
  assert (Hr1 : inject_Z (a - 1) <= rnd y).
  { rewrite <- (rnd_exact_int (a - 1)) by lia. apply rnd_mono.
    unfold Z.sub. rewrite inject_Z_plus, inject_Z_opp. fold A.
    change (inject_Z 1) with 1. lra. }
  assert (Hr2 : rnd y <= inject_Z (a + 1)).
  { rewrite <- (rnd_exact_int (a + 1)) by lia. apply rnd_mono.
    rewrite inject_Z_plus. fold A. change (inject_Z 1) with 1. lra. }
  assert (Hlim : inject_Z (a + 1) < 2 ^ 53 + 1).
  { rewrite inject_Z_plus. fold A. change (inject_Z 1) with 1. lra. }
  destruct (Fs_cases false y)
    as [[V E2] | [(_ & _ & p2 & e2 & E2 & V2) | [V _]]].
  - rewrite E2. exists 0%Z. split; [reflexivity | ].
    assert (inject_Z (a - 1) <= inject_Z 0) by (change (inject_Z 0) with 0; lra).
    rewrite <- Zle_Qle in H. lia.
  - rewrite E2.
    assert (HR : Rabs (S754_finite false p2 e2) == rnd y) by exact V2.
    rewrite BigInt_trunc; [ | reflexivity | lra ].
    cbn [sign_of]. eexists. split; [reflexivity | ].
    assert (F1 : (a - 1 <= Qfloor (Rabs (S754_finite false p2 e2)))%Z).
    { rewrite <- (Qfloor_Z (a - 1)). apply Qfloor_resp_le. lra. }
    assert (F2 : (Qfloor (Rabs (S754_finite false p2 e2)) <= a + 1)%Z).
    { rewrite <- (Qfloor_Z (a + 1)). apply Qfloor_resp_le. lra. }
    lia.
  - exfalso. assert ((2 ^ 53 + 1 : Q) < 2 ^ 1024) by (vm_compute; reflexivity). lra.
Qed.

(** Subtracting a finite Number from an equal one leaves a zero. *)
Lemma sub_equal (t1 t2 : number) :
  is_finite t1 = true -> eqb t1 t2 = true ->
  exists s, sub t2 t1 = S754_zero s.
Proof.
  intros Hf He.
  destruct t1 as [s1 | s1 | | s1 m1 e1]; try discriminate Hf;
    destruct t2 as [s2 | s2 | | s2 m2 e2]; try discriminate He;
    try (destruct s2; discriminate He).
  - destruct s1, s2; eexists; reflexivity.
  - exfalso. unfold eqb in He.
    rewrite compare_finite in He by reflexivity.
    pose proof (Rabs_finite_pos s2 m2 e2) as P. pose proof (R_zero s1) as Z0.
    destruct (Qcompare_spec (R (S754_zero s1)) (R (S754_finite s2 m2 e2))) as [E | L | G];
      try discriminate He.
    change (R (S754_finite s2 m2 e2))
      with (signed s2 (Rabs (S754_finite s2 m2 e2))) in E.
    unfold signed in E. destruct s2; lra.
  - exfalso. unfold eqb in He.
    rewrite compare_finite in He by reflexivity.
    pose proof (Rabs_finite_pos s1 m1 e1) as P. pose proof (R_zero s2) as Z0.
    destruct (Qcompare_spec (R (S754_finite s1 m1 e1)) (R (S754_zero s2))) as [E | L | G];
      try discriminate He.
    change (R (S754_finite s1 m1 e1))
      with (signed s1 (Rabs (S754_finite s1 m1 e1))) in E.
    unfold signed in E. destruct s1; lra.
  - exists false. unfold eqb in He.
    rewrite compare_finite in He by reflexivity.
    destruct (Qcompare_spec (R (S754_finite s1 m1 e1)) (R (S754_finite s2 m2 e2))) as [E | L | G];
      try discriminate He.
    change (sub (S754_finite s2 m2 e2) (S754_finite s1 m1 e1))
      with (F (R (S754_finite s2 m2 e2) - R (S754_finite s1 m1 e1))).
    assert (Hn : Qnum (R (S754_finite s2 m2 e2) - R (S754_finite s1 m1 e1)) = 0%Z).
    { assert (Hz : R (S754_finite s2 m2 e2) - R (S754_finite s1 m1 e1) == 0) by lra.
      unfold Qeq in Hz. cbn [Qnum Qden] in Hz. lia. }
    unfold F. rewrite Hn. reflexivity.
Qed.


(** The number of binary digits of a positive integer. *)
Lemma digits2_log2 (p : positive) :
  Z.pos (digits2_pos p) = (Z.log2 (Z.pos p) + 1)%Z.
Proof.
  induction p as [p IH | p IH | ]; cbn [digits2_pos].
  - rewrite Pos2Z.inj_succ, IH.
    change (Z.pos p~1) with (2 * Z.pos p + 1)%Z.
    rewrite Z.log2_succ_double by lia. lia.
  - rewrite Pos2Z.inj_succ, IH.
    change (Z.pos p~0) with (2 * Z.pos p)%Z.
    rewrite Z.log2_double by lia. lia.
  - reflexivity.
Qed.

(** Every rounded magnitude is a valid binary64 number in the sense of the
    Standard Library: its significand is canonical and its exponent is in
    range. *)
Lemma Fs_valid (s : bool) (a : Q) : valid_binary 53 1024 (Fs s a) = true.
Proof.
  unfold Fs. destruct (Qle_bool a 0) eqn:E; [reflexivity | ].
  assert (Ha : 0 < a).
  { apply Qnot_le_lt. intros C. apply Qle_bool_iff in C. congruence. }
  destruct (scaled_bounds a Ha) as [[M0 M1] Mn].
  pose proof (cexp_ge (ilog2 a)) as [C1 C2].
  assert (Hsub : (2 ^ 52 <= rne (a / 2 ^ cexp (ilog2 a)))%Z
                 \/ (cexp (ilog2 a) = -1074
                     /\ rne (a / 2 ^ cexp (ilog2 a)) <= 2 ^ 52)%Z).
  { destruct (Z_le_gt_dec (-1022) (ilog2 a)) as [L | G].
    - left. apply Mn. exact L.
    - right. assert (Hc : cexp (ilog2 a) = (-1074)%Z)
        by (unfold cexp, prec, emin; lia).
      split; [exact Hc | ]. rewrite Hc.
      apply rne_le_Z. rewrite <- pow2_Z by lia.
      apply Qle_shift_div_r; [apply pow2_pos | ]. rewrite <- pow2_add.
      destruct (ilog2_spec a Ha) as [_ K2].
      apply Qle_trans with (2 ^ (ilog2 a + 1)); [lra | apply pow2_le; lia]. }
  set (c := cexp (ilog2 a)) in *. set (m := rne (a / 2 ^ c)) in *.
  clearbody m c. clear Mn C1.
  destruct m as [ | p | p]; [reflexivity | | lia].
  unfold build.
  destruct (Z.eqb_spec (Z.pos p) (2 ^ prec)) as [E1 | N1].
  - destruct (Z.leb_spec (c + 1) emax) as [L | G]; [ | reflexivity].
    unfold emax in L. cbn [valid_binary]. unfold bounded, canonical_mantissa.
    change (Z.pos (digits2_pos (Z.to_pos (2 ^ (prec - 1))))) with 53%Z.
    unfold fexp, SpecFloat.emin.
    apply andb_true_intro. split; [apply Z.eqb_eq | apply Z.leb_le]; lia.
  - change (2 ^ prec)%Z with (2 ^ 53)%Z in N1.
    destruct (Z.leb_spec c emax) as [L | G]; [ | reflexivity].
    unfold emax in L. cbn [valid_binary]. unfold bounded, canonical_mantissa.
    rewrite digits2_log2. unfold fexp, SpecFloat.emin.
    assert (Hl : (Z.log2 (Z.pos p) < 53)%Z).
    { apply Z.log2_lt_pow2; lia. }
    apply andb_true_intro. split; [apply Z.eqb_eq | apply Z.leb_le; lia].
    destruct Hsub as [Hs | [Hs1 Hs2]].
    + assert (52 <= Z.log2 (Z.pos p))%Z by (apply Z.log2_le_pow2; lia). lia.
    + assert (Z.log2 (Z.pos p) <= 52)%Z.
      { destruct (Z.eq_dec (Z.pos p) (2 ^ 52)) as [-> | N]; [reflexivity | ].
        assert (Z.log2 (Z.pos p) < 52)%Z by (apply Z.log2_lt_pow2; lia). lia. }
      lia.
Qed.

(** On sample operands the arithmetic agrees with the operations of the
    Standard Library's specification of binary64. *)
Lemma arithmetic_agrees_with_SpecFloat :
  let samples :=
    [F 0.1; F 3; F 1e6; F (-2.5); F 365.24; F 1e-320; F 1.7e308;
     F (inject_Z (2 ^ 53 + 1)); F (inject_Z (2 ^ 54 + 2)); F 31556736;
     F (1 # 3); pos_zero; neg_zero; pos_inf; neg_inf; NaN] in
  forallb (fun x =>
    forallb (fun y =>
      Object_is (mul x y) (SFmul 53 1024 x y)
      && Object_is (div x y) (SFdiv 53 1024 x y)
      && Object_is (sub x y) (SFsub 53 1024 x y)) samples) samples = true
  /\ Number_of_bigint (2 ^ 53 + 1) = binary_normalize 53 1024 (2 ^ 53 + 1) 0 false
  /\ Number_of_bigint (2 ^ 54 + 2) = binary_normalize 53 1024 (2 ^ 54 + 2) 0 false
  /\ Number_of_bigint 1000000 = binary_normalize 53 1024 1000000 0 false
  /\ Number_of_bigint (-7) = binary_normalize 53 1024 (-7) 0 false.
Proof. repeat apply conj; vm_compute; reflexivity. Qed.


Lemma Qnum_sign_comp (p q : Q) :
  p == q ->
  match Qnum p, Qnum q with
  | Z0, Z0 | Zpos _, Zpos _ | Zneg _, Zneg _ => True
  | _, _ => False
  end.
Proof.
  unfold Qeq. destruct p as [pn pd], q as [qn qd]. cbn [Qnum Qden].
  destruct pn, qn; intros H; try exact I; try discriminate H; lia.
Qed.

Lemma F_comp (p q : Q) : p == q -> F p = F q.
Proof.
  intros E. pose proof (Qnum_sign_comp p q E) as S. unfold F.
  destruct (Qnum p), (Qnum q); try contradiction.
  - reflexivity.
  - apply Fs_comp. exact E.
  - apply Fs_comp. apply Qopp_comp. exact E.
Qed.

Lemma F_as_Fs (q : Q) :
  (q < 0 -> F q = Fs true (- q)) /\ (0 <= q -> F q = Fs false q).
Proof.
  unfold F. destruct q as [n d]. cbn [Qnum]. destruct n; split; intros H;
    try reflexivity; exfalso; unfold Qle, Qlt in H; cbn in H; lia.
Qed.

(** Rounding preserves the order of the rationals. *)
Lemma leb_F (a b : Q) : a <= b -> leb (F a) (F b) = true.
Proof.
  intros H. destruct (F_as_Fs a) as [An Ap]. destruct (F_as_Fs b) as [Bn Bp].
  destruct (Qlt_le_dec a 0) as [La | La];
    destruct (Qlt_le_dec b 0) as [Lb | Lb].
  - rewrite An, Bn by assumption. apply leb_Fs. unfold signed.
    apply Qopp_le_compat. apply rnd_mono. lra.
  - rewrite An, Bp by assumption. apply leb_Fs. unfold signed.
    pose proof (rnd_nonneg (- a)). pose proof (rnd_nonneg b). lra.
  - exfalso. lra.
  - rewrite Ap, Bp by assumption. apply leb_Fs. unfold signed. apply rnd_mono. exact H.
Qed.

Lemma Number_of_bigint_opp (z : Z) :
  z <> 0%Z -> Number_of_bigint (- z) = SFopp (Number_of_bigint z).
Proof.
  intros Hz. unfold Number_of_bigint, F.
  destruct z as [ | p | p]; [contradiction | | ]; cbn [Z.opp inject_Z Qnum].
  - rewrite <- (Fs_opp false). apply Fs_comp. reflexivity.
  - rewrite <- (Fs_opp true). reflexivity.
Qed.

Lemma Number_of_bigint_shape (z : Z) :
  (Z.abs z <= 2 ^ 53)%Z -> z <> 0%Z ->
  exists s p e, Number_of_bigint z = S754_finite s p e.
Proof.
  intros Hb Hz. unfold Number_of_bigint, F.
  destruct z as [ | q | q]; [contradiction | | ]; cbn [inject_Z Qnum].
  - destruct (Fs_exact_int false (Z.pos q)) as (p & e & E & _); [lia | ].
    exists false, p, e. exact E.
  - destruct (Fs_exact_int true (Z.pos q)) as (p & e & E & _); [lia | ].
    exists true, p, e. rewrite <- E. apply Fs_comp. reflexivity.
Qed.

(** The difference of two integral Numbers up to [2^53] is the rounded
    difference of the integers. *)
Lemma sub_Number_of_bigint (x y : Z) :
  (Z.abs x <= 2 ^ 53)%Z -> (Z.abs y <= 2 ^ 53)%Z ->
  sub (Number_of_bigint x) (Number_of_bigint y) = F (inject_Z (x - y)).
Proof.
  intros Hx Hy.
  destruct (Z.eq_dec x 0) as [-> | Nx]; destruct (Z.eq_dec y 0) as [-> | Ny].
  - reflexivity.
  - change (0 - y)%Z with (- y)%Z.
    fold (Number_of_bigint (- y)). rewrite (Number_of_bigint_opp y Ny).
    destruct (Number_of_bigint_shape y Hy Ny) as (s & p & e & ->). reflexivity.
  - rewrite Z.sub_0_r. fold (Number_of_bigint x).
    destruct (Number_of_bigint_shape x Hx Nx) as (s & p & e & ->). reflexivity.
  - destruct (Number_of_bigint_exact x Hx) as [_ Vx].
    destruct (Number_of_bigint_exact y Hy) as [_ Vy].
    destruct (Number_of_bigint_shape x Hx Nx) as (sx & px & ex & Ex).
    destruct (Number_of_bigint_shape y Hy Ny) as (sy & py & ey & Ey).
    rewrite Ex, Ey in *.
    change (sub (S754_finite sx px ex) (S754_finite sy py ey))
      with (F (R (S754_finite sx px ex) - R (S754_finite sy py ey))).
    apply F_comp. unfold Z.sub. rewrite inject_Z_plus, inject_Z_opp. lra.
Qed.

Lemma Number_of_bigint_sign (z : Z) :
  (Z.abs z <= 2 ^ 53)%Z ->
  ((0 < z)%Z -> ltb (F 0) (Number_of_bigint z) = true)
  /\ ((z < 0)%Z -> ltb (Number_of_bigint z) (F 0) = true).
Proof.
  intros Hb. destruct (Number_of_bigint_exact z Hb) as [Hf Hv].
  unfold ltb. split; intros Hz.
  - rewrite compare_finite by (assumption || reflexivity).
    assert (Hq : 0 < inject_Z z)
      by (change 0 with (inject_Z 0); rewrite <- Zlt_Qlt; exact Hz).
    change (R (F 0)) with 0.
    destruct (Qcompare_spec 0 (R (Number_of_bigint z))); try reflexivity;
      exfalso; lra.
  - rewrite compare_finite by (assumption || reflexivity).
    assert (Hq : inject_Z z < 0)
      by (change 0 with (inject_Z 0); rewrite <- Zlt_Qlt; exact Hz).
    change (R (F 0)) with 0.
    destruct (Qcompare_spec (R (Number_of_bigint z)) 0); try reflexivity;
      exfalso; lra.
Qed.

Lemma eqb_Number_of_bigint (z : Z) :
  (Z.abs z <= 2 ^ 53)%Z ->
  eqb (Number_of_bigint z) (Number_of_bigint z) = true.
Proof.
  intros Hb. destruct (Number_of_bigint_exact z Hb) as [Hf _].
  unfold eqb. rewrite compare_finite by assumption.
  destruct (Qcompare_spec (R (Number_of_bigint z)) (R (Number_of_bigint z)));
    try reflexivity; exfalso; lra.
Qed.


End NumberFacts.

(** ** Facts about the conversion between Numbers and strings *)

Module StringFacts.
Import NumberFacts.

Lemma digit_char_spec (d : Z) :
  0 <= d < 10 ->
  is_digit (digit_char d) = true
  /\ Z.of_nat (nat_of_ascii (digit_char d)) - 48 = d
  /\ is_space (digit_char d) = false.
Proof.
  intros H.
  assert (C : d = 0 \/ d = 1 \/ d = 2 \/ d = 3 \/ d = 4 \/ d = 5 \/ d = 6
              \/ d = 7 \/ d = 8 \/ d = 9) by lia.
  repeat (destruct C as [-> | C]); try subst d; repeat split; reflexivity.
Qed.

Lemma read_digits_stop (rest : list ascii) (acc cnt : Z) :
  stops rest -> read_digits rest acc cnt = (acc, cnt, rest).
Proof.
  destruct rest as [ | c rest]; intros H; cbn [read_digits].
  - reflexivity.
  - cbn in H. rewrite H. reflexivity.
Qed.

Lemma read_digits_app (l rest : list ascii) (acc cnt : Z) :
  forallb is_digit l = true -> stops rest ->
  read_digits (l ++ rest) acc cnt
  = (digits_value l acc, cnt + Z.of_nat (List.length l), rest).
Proof.
  revert acc cnt. induction l as [ | c l IH]; intros acc cnt Hl Hr.
  - cbn [app List.length digits_value fold_left]. rewrite Z.add_0_r.
    apply read_digits_stop. exact Hr.
  - cbn [forallb] in Hl. apply andb_prop in Hl. destruct Hl as [Hc Hl].
    cbn [app read_digits]. rewrite Hc. rewrite (IH _ _ Hl Hr).
    cbn [List.length digits_value fold_left]. f_equal. f_equal. lia.
Qed.

Lemma digits_value_app (l1 l2 : list ascii) (acc : Z) :
  digits_value (l1 ++ l2) acc = digits_value l2 (digits_value l1 acc).
Proof. unfold digits_value. apply fold_left_app. Qed.

Lemma digits_value_shift (l : list ascii) (acc : Z) :
  digits_value l acc
  = acc * 10 ^ Z.of_nat (List.length l) + digits_value l 0.
Proof.
  revert acc. induction l as [ | c l IH]; intros acc.
  - cbn. lia.
  - change (digits_value (c :: l) acc)
      with (digits_value l (10 * acc + (Z.of_nat (nat_of_ascii c) - 48))).
    change (digits_value (c :: l) 0)
      with (digits_value l (10 * 0 + (Z.of_nat (nat_of_ascii c) - 48))).
    rewrite (IH (10 * acc + _)), (IH (10 * 0 + _)).
    change (List.length (c :: l)) with (S (List.length l)).
    rewrite Nat2Z.inj_succ, Z.pow_succ_r by lia. ring.
Qed.

Lemma digits_of_acc (k : nat) (s : Z) (acc : list ascii) :
  digits_of k s acc = digits_of k s [] ++ acc.
Proof.
  revert s acc. induction k as [ | k IH]; intros s acc.
  - reflexivity.
  - cbn [digits_of]. rewrite (IH (s / 10) (_ :: acc)), (IH (s / 10) [_]).
    rewrite <- app_assoc. reflexivity.
Qed.

Lemma digits_of_succ (k : nat) (s : Z) :
  digits_of (S k) s [] = digits_of k (s / 10) [] ++ [digit_char (s mod 10)].
Proof. cbn [digits_of]. apply digits_of_acc. Qed.

Lemma digits_of_length (k : nat) (s : Z) : List.length (digits_of k s []) = k.
Proof.
  revert s. induction k as [ | k IH]; intros s; [reflexivity | ].
  rewrite digits_of_succ, length_app, IH. cbn. lia.
Qed.

Lemma digits_of_digits (k : nat) (s : Z) :
  forallb is_digit (digits_of k s []) = true.
Proof.
  revert s. induction k as [ | k IH]; intros s; [reflexivity | ].
  rewrite digits_of_succ, forallb_app, IH. cbn [forallb andb].
  destruct (digit_char_spec (s mod 10)) as [H _].
  - apply Z.mod_pos_bound. lia.
  - rewrite H. reflexivity.
Qed.

Lemma digits_of_value (k : nat) (s : Z) :
  0 <= s < 10 ^ Z.of_nat k -> digits_value (digits_of k s []) 0 = s.
Proof.
  revert s. induction k as [ | k IH]; intros s Hs.
  - cbn in *. lia.
  - rewrite digits_of_succ, digits_value_app.
    rewrite Nat2Z.inj_succ, Z.pow_succ_r in Hs by lia.
    rewrite IH.
    + cbn [digits_value fold_left].
      destruct (digit_char_spec (s mod 10)) as (_ & H & _).
      * apply Z.mod_pos_bound. lia.
      * rewrite H. pose proof (Z.div_mod s 10). lia.
    + split; [apply Z.div_pos; lia | apply Z.div_lt_upper_bound; lia].
Qed.

Lemma zeros_spec (n : Z) :
  forallb is_digit (zeros n) = true
  /\ List.length (zeros n) = Z.to_nat n
  /\ forall acc, digits_value (zeros n) acc = acc * 10 ^ Z.of_nat (Z.to_nat n).
Proof.
  unfold zeros. induction (Z.to_nat n) as [ | k (IH1 & IH2 & IH3)].
  - repeat split. intros acc. cbn. lia.
  - cbn [repeat forallb List.length]. rewrite IH1, IH2. repeat split.
    intros acc. cbn [digits_value fold_left]. fold (digits_value (repeat "0"%char k)).
    rewrite IH3. rewrite Nat2Z.inj_succ, Z.pow_succ_r by lia.
    change (Z.of_nat (nat_of_ascii "0") - 48) with 0. ring.
Qed.

(** The decimal numeral of an exponent. *)
Lemma count_digits_spec (fuel : nat) (s : Z) :
  0 <= s < 10 ^ Z.of_nat fuel ->
  s < 10 ^ Z.of_nat (count_digits fuel s).
Proof.
  revert s. induction fuel as [ | fuel IH]; intros s Hs.
  - cbn in *. lia.
  - cbn [count_digits]. destruct (Z.ltb_spec s 10) as [L | G].
    + cbn. lia.
    + rewrite Nat2Z.inj_succ, Z.pow_succ_r in * by lia.
      assert (s / 10 < 10 ^ Z.of_nat (count_digits fuel (s / 10))).
      { apply IH. split; [apply Z.div_pos; lia | ].
        apply Z.div_lt_upper_bound; lia. }
      pose proof (Z.div_mod s 10). pose proof (Z.mod_pos_bound s 10). lia.
Qed.

Lemma decimal_spec (s : Z) :
  0 <= s < 10 ^ 400 ->
  forallb is_digit (decimal s) = true /\ digits_value (decimal s) 0 = s
  /\ decimal s <> [].
Proof.
  intros Hs. unfold decimal. split; [apply digits_of_digits | split].
  - apply digits_of_value. split; [lia | ].
    apply count_digits_spec. exact Hs.
  - intros C. apply (f_equal (@List.length ascii)) in C.
    rewrite digits_of_length in C. cbn [List.length] in C.
    change 400%nat with (S 399) in C. cbn [count_digits] in C.
    destruct (s <? 10); discriminate C.
Qed.

(** What [parseFloat] does with an input that starts with a digit. *)
Lemma parseFloat_digit (c : ascii) (l : list ascii) :
  is_digit c = true ->
  parseFloat (string_of_list_ascii (c :: l))
  = let '(ip, icnt, l2) := read_digits (c :: l) 0 0 in
    let '(fp, fcnt, l3) :=
      match l2 with
      | "."%char :: l2' => read_digits l2' ip 0
      | _ => (ip, 0, l2)
      end in
    if icnt + fcnt =? 0 then S754_nan
    else Fs false (inject_Z fp * 10 ^ (read_exponent l3 - fcnt)).
Proof.
  intros Hc. unfold parseFloat.
  rewrite list_ascii_of_string_of_list_ascii.
  destruct c as [[] [] [] [] [] [] [] []]; try discriminate Hc; reflexivity.
Qed.

Lemma digits_of_head (k : nat) (s : Z) :
  (0 < k)%nat ->
  exists c l, digits_of k s [] = c :: l /\ is_digit c = true.
Proof.
  intros Hk. pose proof (digits_of_digits k s) as Hd.
  pose proof (digits_of_length k s) as Hl.
  destruct (digits_of k s []) as [ | c l].
  - cbn in Hl. lia.
  - exists c, l. cbn [forallb] in Hd. apply andb_prop in Hd.
    split; [reflexivity | apply Hd].
Qed.

Lemma read_exponent_render (e : Z) :
  Z.abs e < 10 ^ 400 ->
  read_exponent
    ("e"%char :: (if e <? 0 then "-"%char else "+"%char) :: decimal (Z.abs e))
  = e.
Proof.
  intros He. destruct (decimal_spec (Z.abs e)) as (Hd & Hv & Hn); [lia | ].
  assert (Hr : read_digits (decimal (Z.abs e)) 0 0
               = (Z.abs e, Z.of_nat (List.length (decimal (Z.abs e))), [])).
  { rewrite <- (app_nil_r (decimal (Z.abs e))) at 1.
    rewrite read_digits_app by (exact Hd || exact I). rewrite Hv. reflexivity. }
  assert (Hlen : (Z.of_nat (List.length (decimal (Z.abs e))) =? 0) = false).
  { apply Z.eqb_neq. destruct (decimal (Z.abs e)); [contradiction | cbn; lia]. }
  unfold read_exponent.
  change ((nat_of_ascii "e" =? 101)%nat || (nat_of_ascii "e" =? 69)%nat) with true.
  cbv iota.
  destruct (Z.ltb_spec e 0) as [L | G].
  - cbn [read_sign]. rewrite Hr, Hlen. lia.
  - cbn [read_sign]. rewrite Hr, Hlen. lia.
Qed.

(** The exponent part is not a digit, a dot is not a digit. *)
Lemma stops_exponent (l : list ascii) : stops ("e"%char :: l).
Proof. reflexivity. Qed.

Lemma stops_dot (l : list ascii) : stops ("."%char :: l).
Proof. reflexivity. Qed.

Lemma Fs_pow10 (s : Z) (a b : Z) :
  a = b -> Fs false (inject_Z s * 10 ^ a) = Fs false (inject_Z s * 10 ^ b).
Proof. intros ->. reflexivity. Qed.

(** [parseFloat] reads back the digits that [render] writes. *)
Lemma parseFloat_render (n k s : Z) :
  1 <= k -> 0 <= s < 10 ^ k -> Z.abs (n - 1) < 10 ^ 400 ->
  parseFloat (string_of_list_ascii (render n k s))
  = Fs false (inject_Z s * 10 ^ (n - k)).
Proof.
  intros Hk Hs Hn. unfold render.
  set (ds := digits_of (Z.to_nat k) s []).
  assert (Hlen : List.length ds = Z.to_nat k) by apply digits_of_length.
  assert (Hdig : forallb is_digit ds = true) by apply digits_of_digits.
  assert (Hval : digits_value ds 0 = s).
  { apply digits_of_value. rewrite Z2Nat.id by lia. exact Hs. }
  destruct (digits_of_head (Z.to_nat k) s) as (c0 & l0 & Hds & Hc0); [lia | ].
  fold ds in Hds.
  destruct ((k <=? n) && (n <=? 21)) eqn:B1.
  { (* digits followed by zeros *)
    apply andb_prop in B1. destruct B1 as [B1 _]. apply Z.leb_le in B1.
    destruct (zeros_spec (n - k)) as (Zd & Zl & Zv).
    assert (HL : ds ++ zeros (n - k) = c0 :: (l0 ++ zeros (n - k)))
      by (rewrite Hds; reflexivity).
    rewrite HL, (parseFloat_digit c0 _ Hc0), <- HL.
    rewrite <- (app_nil_r (ds ++ zeros (n - k))).
    rewrite read_digits_app;
      [ | rewrite forallb_app, Hdig, Zd; reflexivity | exact I].
    cbv iota beta. rewrite length_app, Hlen, Zl.
    replace (0 + Z.of_nat (Z.to_nat k + Z.to_nat (n - k)) + 0 =? 0) with false
      by (symmetry; apply Z.eqb_neq; lia).
    rewrite digits_value_app, Hval, Zv. rewrite Z2Nat.id by lia.
    apply Fs_comp. cbn [read_exponent].
    rewrite inject_Z_mult, (Zpower_Qpower 10 (n - k)) by lia.
    change (10 ^ (0 - 0))%Q with 1%Q. change (inject_Z 10) with 10%Q. ring. }
  destruct ((0 <? n) && (n <=? 21)) eqn:B2.
  { (* a dot inside the digits *)
    apply andb_prop in B2. destruct B2 as [B2 B2'].
    apply Z.ltb_lt in B2. apply Z.leb_le in B2'.
    apply andb_false_iff in B1.
    assert (Hnk : n < k).
    { destruct B1 as [B1 | B1]; apply Z.leb_gt in B1; lia. }
    pose proof (firstn_skipn (Z.to_nat n) ds) as Hsplit.
    assert (Hd2 : forallb is_digit (firstn (Z.to_nat n) ds) = true
                  /\ forallb is_digit (skipn (Z.to_nat n) ds) = true).
    { rewrite <- Hsplit, forallb_app in Hdig. apply andb_prop in Hdig. exact Hdig. }
    destruct Hd2 as [Hd1 Hd2].
    assert (Hl1 : List.length (firstn (Z.to_nat n) ds) = Z.to_nat n)
      by (rewrite length_firstn; lia).
    assert (Hl2 : List.length (skipn (Z.to_nat n) ds) = (Z.to_nat k - Z.to_nat n)%nat)
      by (rewrite length_skipn; lia).
    assert (Hhead : exists l1, firstn (Z.to_nat n) ds = c0 :: l1).
    { rewrite Hds. destruct (Z.to_nat n) eqn:En; [lia | ].
      cbn [firstn]. eexists. reflexivity. }
    destruct Hhead as [l1 Hl].
    assert (HL : firstn (Z.to_nat n) ds ++ "."%char :: skipn (Z.to_nat n) ds
                 = c0 :: (l1 ++ "."%char :: skipn (Z.to_nat n) ds))
      by (rewrite Hl; reflexivity).
    rewrite HL, (parseFloat_digit c0 _ Hc0), <- HL.
    rewrite read_digits_app by (exact Hd1 || apply stops_dot).
    cbv iota beta.
    rewrite <- (app_nil_r (skipn (Z.to_nat n) ds)).
    rewrite read_digits_app by (exact Hd2 || exact I).
    rewrite <- digits_value_app, Hsplit, Hval, Hl1, Hl2.
    replace (0 + Z.of_nat (Z.to_nat n) + (0 + Z.of_nat (Z.to_nat k - Z.to_nat n)) =? 0)
      with false by (symmetry; apply Z.eqb_neq; lia).
    cbn [read_exponent]. apply Fs_pow10. lia. }
  destruct ((-6 <? n) && (n <=? 0)) eqn:B3.
  { (* a zero, a dot, zeros and the digits *)
    apply andb_prop in B3. destruct B3 as [_ B3]. apply Z.leb_le in B3.
    destruct (zeros_spec (- n)) as (Zd & Zl & Zv).
    rewrite (parseFloat_digit "0"%char _ eq_refl).
    change (read_digits ("0"%char :: "."%char :: zeros (- n) ++ ds) 0 0)
      with (0, 1, "."%char :: zeros (- n) ++ ds).
    cbv iota beta.
    rewrite <- (app_nil_r (zeros (- n) ++ ds)).
    rewrite read_digits_app;
      [ | rewrite forallb_app, Zd, Hdig; reflexivity | exact I].
    rewrite length_app, Hlen, Zl.
    replace (1 + (0 + Z.of_nat (Z.to_nat (- n) + Z.to_nat k)) =? 0) with false
      by (symmetry; apply Z.eqb_neq; lia).
    rewrite digits_value_app, Zv. change (0 * 10 ^ Z.of_nat (Z.to_nat (- n))) with 0.
    rewrite Hval. cbn [read_exponent]. apply Fs_pow10. lia. }
  (* the exponent form *)
  set (expo := "e"%char :: (if n - 1 <? 0 then "-"%char else "+"%char)
                 :: decimal (Z.abs (n - 1))).
  assert (Hexp : read_exponent expo = n - 1) by (apply read_exponent_render; exact Hn).
  destruct (Z.eqb_spec k 1) as [K1 | K1].
  - assert (HL : ds ++ expo = c0 :: (l0 ++ expo)) by (rewrite Hds; reflexivity).
    rewrite HL, (parseFloat_digit c0 _ Hc0), <- HL.
    rewrite read_digits_app by (exact Hdig || apply stops_exponent).
    cbv iota beta. rewrite Hval, Hlen.
    change (match expo with
            | "."%char :: l2' => read_digits l2' s 0
            | _ => (s, 0, expo)
            end) with (s, 0, expo).
    cbv iota beta.
    replace (0 + Z.of_nat (Z.to_nat k) + 0 =? 0) with false
      by (symmetry; apply Z.eqb_neq; lia).
    rewrite Hexp. apply Fs_pow10. lia.
  - pose proof (firstn_skipn 1 ds) as Hsplit.
    assert (Hd2 : forallb is_digit (firstn 1 ds) = true
                  /\ forallb is_digit (skipn 1 ds) = true).
    { rewrite <- Hsplit, forallb_app in Hdig. apply andb_prop in Hdig. exact Hdig. }
    destruct Hd2 as [Hd1 Hd2].
    assert (Hl1 : List.length (firstn 1 ds) = 1%nat)
      by (rewrite length_firstn; lia).
    assert (Hl2 : List.length (skipn 1 ds) = (Z.to_nat k - 1)%nat)
      by (rewrite length_skipn; lia).
    assert (Hl : firstn 1 ds = [c0]) by (rewrite Hds; reflexivity).
    assert (HL : firstn 1 ds ++ "."%char :: skipn 1 ds ++ expo
                 = c0 :: ([] ++ "."%char :: skipn 1 ds ++ expo))
      by (rewrite Hl; reflexivity).
    rewrite HL, (parseFloat_digit c0 _ Hc0), <- HL.
    rewrite read_digits_app by (exact Hd1 || apply stops_dot).
    cbv iota beta.
    rewrite read_digits_app by (exact Hd2 || apply stops_exponent).
    rewrite <- digits_value_app, Hsplit, Hval, Hl1, Hl2.
    replace (0 + Z.of_nat 1 + (0 + Z.of_nat (Z.to_nat k - 1)) =? 0)
      with false by (symmetry; apply Z.eqb_neq; lia).
    rewrite Hexp. apply Fs_pow10. lia.
Qed.


Lemma Object_is_eq (x y : number) : Object_is x y = true -> x = y.
Proof.
  destruct x as [sx | sx | | sx mx ex]; destruct y as [sy | sy | | sy my ey];
    cbn [Object_is]; intros H; try discriminate H; try reflexivity.
  - apply Bool.eqb_prop in H. congruence.
  - apply Bool.eqb_prop in H. congruence.
  - apply andb_prop in H. destruct H as [H He]. apply andb_prop in H.
    destruct H as [Hs Hm]. apply Bool.eqb_prop in Hs.
    apply Pos.eqb_eq in Hm. apply Z.eqb_eq in He. congruence.
Qed.

Lemma Object_is_refl (x : number) : Object_is x x = true.
Proof.
  destruct x as [s | s | | s m e]; cbn [Object_is];
    rewrite ?Bool.eqb_reflx, ?Pos.eqb_refl, ?Z.eqb_refl; reflexivity.
Qed.

Lemma closer_cases (a : Q) (k : Z) (p q : Z * Z) :
  closer a k p q = p \/ closer a k p q = q.
Proof.
  unfold closer. destruct (_ ?= _)%Q; [ | left | right]; try reflexivity.
  destruct (Z.even (snd p)); [left | right]; reflexivity.
Qed.

Lemma fold_closer_in (a : Q) (k : Z) (l : list (Z * Z)) (p : Z * Z) :
  In (fold_left (closer a k) l p) (p :: l).
Proof.
  revert p. induction l as [ | q l IH]; intros p.
  - left. reflexivity.
  - cbn [fold_left]. specialize (IH (closer a k p q)).
    destruct IH as [E | I].
    + destruct (closer_cases a k p q) as [C | C].
      * left. congruence.
      * right. left. congruence.
    + right. right. exact I.
Qed.

Lemma best_in (a : Q) (k : Z) (l : list (Z * Z)) (r : Z * Z) :
  best a k l = Some r -> In r l.
Proof.
  destruct l as [ | p l]; intros H; [discriminate H | ].
  cbn [best] in H. injection H as <-. apply fold_closer_in.
Qed.

Lemma best_some (a : Q) (k : Z) (l : list (Z * Z)) (r : Z * Z) :
  In r l -> exists r', best a k l = Some r'.
Proof.
  destruct l as [ | p l]; intros H; [contradiction | ].
  eexists. reflexivity.
Qed.

(** What the candidates satisfy. *)
Lemma candidates_spec (x : number) (a : Q) (n0 k n s : Z) :
  In (n, s) (candidates x a n0 k) ->
  10 ^ (k - 1) <= s < 10 ^ k
  /\ Fs false (inject_Z s * 10 ^ (n - k)) = SFabs x.
Proof.
  unfold candidates. intros H. apply filter_In in H. destruct H as [_ H].
  apply andb_prop in H. destruct H as [H H3]. apply andb_prop in H.
  destruct H as [H1 H2]. apply Z.leb_le in H1. apply Z.ltb_lt in H2.
  split; [lia | apply Object_is_eq; exact H3].
Qed.

Lemma candidates_intro (x : number) (a : Q) (n0 k n s : Z) :
  n = n0 \/ n = n0 + 1 ->
  s = Qfloor (a * 10 ^ (k - n)) \/ s = Qfloor (a * 10 ^ (k - n)) + 1 ->
  10 ^ (k - 1) <= s < 10 ^ k ->
  Fs false (inject_Z s * 10 ^ (n - k)) = SFabs x ->
  In (n, s) (candidates x a n0 k).
Proof.
  intros Hn Hs Hr Hx. unfold candidates. apply filter_In. split.
  - apply in_or_app. destruct Hn as [-> | ->]; [left | right];
      cbn [map]; destruct Hs as [-> | ->]; [left | right; left | left | right; left];
      reflexivity.
  - rewrite Hx, Object_is_refl.
    destruct Hr as [H1 H2]. apply Z.leb_le in H1. apply Z.ltb_lt in H2.
    rewrite H1, H2. reflexivity.
Qed.

(** The search returns a candidate, and it finds one whenever some number of
    digits within its reach has a candidate. *)
Lemma shortest_spec (x : number) (a : Q) (n0 : Z) (fuel : nat) (k0 n k s : Z) :
  shortest x a n0 fuel k0 = Some (n, k, s) ->
  k0 <= k /\ In (n, s) (candidates x a n0 k).
Proof.
  revert k0. induction fuel as [ | fuel IH]; intros k0 H; [discriminate H | ].
  cbn [shortest] in H.
  destruct (best a k0 (candidates x a n0 k0)) as [[n' s'] | ] eqn:B.
  - injection H as -> -> ->. split; [lia | ]. apply (best_in _ _ _ _ B).
  - apply IH in H. split; [lia | apply H].
Qed.

Lemma shortest_some (x : number) (a : Q) (n0 : Z) (fuel : nat) (k0 k1 n s : Z) :
  k0 <= k1 < k0 + Z.of_nat fuel ->
  In (n, s) (candidates x a n0 k1) ->
  exists r, shortest x a n0 fuel k0 = Some r.
Proof.
  revert k0. induction fuel as [ | fuel IH]; intros k0 Hk Hin; [lia | ].
  cbn [shortest].
  destruct (best a k0 (candidates x a n0 k0)) as [[n' s'] | ] eqn:B.
  - eexists. reflexivity.
  - destruct (Z.eq_dec k0 k1) as [-> | N].
    + destruct (best_some a k1 _ _ Hin) as [r Hr]. congruence.
    + apply IH; [lia | exact Hin].
Qed.

(** A finite positive Number whose digits are found prints to a string that
    parses back to it. *)
Lemma parseFloat_toString (p : positive) (e : Z) :
  Z.abs (ilog10 (Rabs (S754_finite false p e))) < 10 ^ 399 ->
  (exists r,
     shortest (S754_finite false p e) (Rabs (S754_finite false p e))
       (ilog10 (Rabs (S754_finite false p e)) + 1) 21 1 = Some r) ->
  parseFloat (Number_toString (S754_finite false p e)) = S754_finite false p e.
Proof.
  intros Hn [[[n k] s] Hr].
  set (x := S754_finite false p e) in *.
  assert (Hstr : Number_toString x = string_of_list_ascii (render n k s)).
  { unfold Number_toString, x. fold x. rewrite Hr. reflexivity. }
  rewrite Hstr.
  destruct (shortest_spec _ _ _ _ _ _ _ _ Hr) as [Hk Hin].
  pose proof Hin as Hin'. unfold candidates in Hin'.
  apply filter_In in Hin'. destruct Hin' as [Hn' _].
  assert (Hnn : n = ilog10 (Rabs x) + 1 \/ n = ilog10 (Rabs x) + 1 + 1).
  { apply in_app_or in Hn'. cbn [map In] in Hn'.
    destruct Hn' as [[E | [E | []]] | [E | [E | []]]];
      injection E as E1 E2; [left | left | right | right]; symmetry; exact E1. }
  destruct (candidates_spec _ _ _ _ _ _ Hin) as [Hs Hx].
  assert (P : 0 < 10 ^ (k - 1)) by (apply Z.pow_pos_nonneg; lia).
  rewrite parseFloat_render; [exact Hx | lia | lia | ].
  assert (10 ^ 399 + 2 < 10 ^ 400) by (vm_compute; reflexivity). lia.
Qed.


Section Logarithms.
Local Open Scope Q_scope.

Lemma pow10_pos (e : Z) : 0 < 10 ^ e.
Proof. apply Qpower_0_lt. reflexivity. Qed.

Lemma pow10_add (a b : Z) : 10 ^ (a + b) == 10 ^ a * 10 ^ b.
Proof. apply Qpower_plus. discriminate. Qed.

Lemma pow10_le (a b : Z) : (a <= b)%Z -> 10 ^ a <= 10 ^ b.
Proof. intros H. apply Qpower_le_compat_l; [exact H | discriminate]. Qed.

Lemma pow10_Z (n : Z) : (0 <= n)%Z -> 10 ^ n == inject_Z (10 ^ n).
Proof. intros H. symmetry. apply (Zpower_Qpower 10 n H). Qed.

Lemma pow10_opp (d : Z) : 10 ^ (- d) == / 10 ^ d.
Proof. apply Qpower_opp. Qed.

(** If a power of ten lies below another, so do the exponents. *)
Lemma pow10_lt_inv (a b : Z) : 10 ^ a < 10 ^ b -> (a < b)%Z.
Proof.
  intros H. destruct (Z_lt_ge_dec a b) as [L | G]; [exact L | exfalso].
  assert (10 ^ b <= 10 ^ a) by (apply pow10_le; lia). lra.
Qed.

Lemma pow2_lt_inv (a b : Z) : 2 ^ a < 2 ^ b -> (a < b)%Z.
Proof.
  intros H. destruct (Z_lt_ge_dec a b) as [L | G]; [exact L | exfalso].
  assert (2 ^ b <= 2 ^ a) by (apply pow2_le; lia). lra.
Qed.

(** The estimate of the decimal logarithm brackets the binade, for the
    binades between [2^-70] and [2^61]. *)
Lemma log_estimate (k : Z) :
  (-70 <= k <= 60)%Z ->
  10 ^ (k * 1233 / 4096 - 1) <= 2 ^ k
  /\ 2 ^ (k + 1) <= 10 ^ (k * 1233 / 4096 + 3).
Proof.
  intros Hk.
  assert (Hall : forallb (fun i : nat =>
                   let k := (Z.of_nat i - 70)%Z in
                   Qle_bool (10 ^ (k * 1233 / 4096 - 1)) (2 ^ k)
                   && Qle_bool (2 ^ (k + 1)) (10 ^ (k * 1233 / 4096 + 3)))
                 (seq 0 131) = true) by (vm_compute; reflexivity).
  rewrite forallb_forall in Hall.
  specialize (Hall (Z.to_nat (k + 70))).
  cbv zeta in Hall. replace (Z.of_nat (Z.to_nat (k + 70)) - 70)%Z with k in Hall by lia.
  assert (Hin : In (Z.to_nat (k + 70)) (seq 0 131)) by (apply in_seq; lia).
  apply Hall in Hin. apply andb_prop in Hin. destruct Hin as [H1 H2].
  apply Qle_bool_iff in H1. apply Qle_bool_iff in H2. split; assumption.
Qed.

Lemma ilog10_spec (v : Q) :
  0 < v -> (-70 <= ilog2 v <= 60)%Z ->
  10 ^ ilog10 v <= v /\ v < 10 ^ (ilog10 v + 1).
Proof.
  intros Hv Hk. destruct (ilog2_spec v Hv) as [K1 K2].
  destruct (log_estimate (ilog2 v) Hk) as [E1 E2].
  unfold ilog10. set (g := (ilog2 v * 1233 / 4096)%Z) in *.
  destruct (Qle_bool (10 ^ (g + 2)) v) eqn:B2.
  { apply Qle_bool_iff in B2. split; [exact B2 | ].
    replace (g + 2 + 1)%Z with (g + 3)%Z by lia. lra. }
  assert (N2 : v < 10 ^ (g + 2)).
  { apply Qnot_le_lt. intros C. apply Qle_bool_iff in C. congruence. }
  destruct (Qle_bool (10 ^ (g + 1)) v) eqn:B1.
  { apply Qle_bool_iff in B1. split; [exact B1 | ].
    replace (g + 1 + 1)%Z with (g + 2)%Z by lia. exact N2. }
  assert (N1 : v < 10 ^ (g + 1)).
  { apply Qnot_le_lt. intros C. apply Qle_bool_iff in C. congruence. }
  destruct (Qle_bool (10 ^ g) v) eqn:B0.
  { apply Qle_bool_iff in B0. split; [exact B0 | exact N1]. }
  assert (N0 : v < 10 ^ g).
  { apply Qnot_le_lt. intros C. apply Qle_bool_iff in C. congruence. }
  split; [lra | ]. replace (g - 1 + 1)%Z with g by lia. exact N0.
Qed.

(** Every positive integer below [10^N] has between one and [N] digits. *)
Lemma digits_count (N : nat) (a : Z) :
  (1 <= a < 10 ^ Z.of_nat N)%Z ->
  exists k : Z, (1 <= k <= Z.of_nat N)%Z /\ (10 ^ (k - 1) <= a < 10 ^ k)%Z.
Proof.
  induction N as [ | N IH]; intros Ha.
  - cbn in Ha. lia.
  - destruct (Z_lt_ge_dec a (10 ^ Z.of_nat N)) as [L | G].
    + destruct IH as (k & Hk & Hr); [lia | ]. exists k. split; [lia | exact Hr].
    + exists (Z.of_nat (S N)). split.
      * destruct N; lia.
      * replace (Z.of_nat (S N) - 1)%Z with (Z.of_nat N) by lia. lia.
Qed.

End Logarithms.


Section Quotients.
Local Open Scope Q_scope.

(** The UI amount printed for an amount below [2^53] parses back to the
    Number it prints. *)
Lemma quotient_parseFloat_toString (a d : Z) :
  (0 <= a < 2 ^ 53)%Z -> (0 <= d <= 18)%Z ->
  parseFloat (Number_toString (div (Number_of_bigint a) (Math_pow10 d)))
  = div (Number_of_bigint a) (Math_pow10 d).
Proof.
  intros [Ha0 Ha1] Hd.
  destruct (Z.eq_dec a 0) as [-> | Na].
  { destruct (pow10_exact d Hd) as (pf & ef & Ef & _). rewrite Ef. reflexivity. }
  destruct (quotient_shape a d) as (p & e & q & Ex & EF & Hq & Hv & Hlo & Hhi);
    [lia | exact Hd | ].
  rewrite Ex.
  set (x := S754_finite false p e) in *. set (v := Rabs x) in *.
  set (A := inject_Z a) in *. set (T := inject_Z (10 ^ d)) in *.
  assert (HA1 : 1 <= A)
    by (unfold A; change 1 with (inject_Z 1); rewrite <- Zle_Qle; lia).
  assert (HA2 : A < 2 ^ 53).
  { unfold A. rewrite pow2_Z by lia. rewrite <- Zlt_Qlt. lia. }
  assert (HT : T == 10 ^ d) by (unfold T; symmetry; apply pow10_Z; lia).
  assert (HT0 : 0 < T) by (rewrite HT; apply pow10_pos).
  assert (HqT : q * T == A) by (rewrite Hq; field; lra).
  assert (Hq0 : 0 < q) by (rewrite Hq; apply Qlt_shift_div_l; lra).
  assert (Hu : 0 < 2 ^ (-53)) by apply pow2_pos.
  assert (Hu1 : (2 ^ (-53) : Q) <= 1 # 2) by (vm_compute; discriminate).
  assert (HAu : A * 2 ^ (-53) < 1).
  { apply Qlt_le_trans with (2 ^ 53 * 2 ^ (-53)).
    - apply Qmult_lt_compat_r; [exact Hu | exact HA2].
    - vm_compute. discriminate. }
  (* the decimal digits of the amount *)
  destruct (digits_count 16 a) as (ka & Hka & Hda).
  { split; [lia | ]. apply Z.lt_trans with (2 ^ 53)%Z; [lia | reflexivity]. }
  assert (HdA1 : 10 ^ (ka - 1) <= A).
  { rewrite pow10_Z by lia. unfold A. rewrite <- Zle_Qle. lia. }
  assert (HdA2 : A + 1 <= 10 ^ ka).
  { rewrite pow10_Z by lia. unfold A. change 1 with (inject_Z 1).
    rewrite <- inject_Z_plus, <- Zle_Qle. lia. }
  (* the printed value times the decimal factor *)
  assert (Hy1 : A - 1 < v * T).
  { rewrite Hv.
    assert ((q - q * 2 ^ (-53)) * T <= rnd q * T)
      by (apply Qmult_le_compat_r; lra).
    assert ((q - q * 2 ^ (-53)) * T == A - A * 2 ^ (-53))
      by (rewrite <- HqT; ring).
    lra. }
  assert (Hy2 : v * T < A + 1).
  { rewrite Hv.
    assert (rnd q * T <= (q + q * 2 ^ (-53)) * T)
      by (apply Qmult_le_compat_r; lra).
    assert ((q + q * 2 ^ (-53)) * T == A + A * 2 ^ (-53))
      by (rewrite <- HqT; ring).
    lra. }
  assert (Hv0 : 0 < v) by (apply Rabs_finite_pos).
  (* the decade of the printed value *)
  assert (Hvhi : v < 10 ^ (ka - d)).
  { unfold Z.sub. rewrite pow10_add, pow10_opp, <- HT.
    apply Qlt_shift_div_l; [exact HT0 | lra]. }
  assert (Hvlo : 10 ^ (ka - d - 2) < v).
  { replace (ka - d - 2)%Z with ((ka - 1) + (- d) + (- 1))%Z by lia.
    rewrite !pow10_add, pow10_opp, <- HT. change (10 ^ (-1)) with (1 # 10).
    assert (Hh : A / T * (1 # 2) <= v).
    { rewrite <- Hq, Hv. nra. }
    apply Qlt_le_trans with (A / T * (1 # 2)); [ | exact Hh].
    assert (Hd1 : 10 ^ (ka - 1) / T <= A / T).
    { apply Qmult_le_compat_r; [exact HdA1 | ].
      apply Qlt_le_weak, Qinv_lt_0_compat. exact HT0. }
    assert (Hp : 0 < 10 ^ (ka - 1) / T).
    { apply Qlt_shift_div_l; [exact HT0 | ]. pose proof (pow10_pos (ka - 1)). lra. }
    unfold Qdiv in *. nra. }
  assert (Hk2 : (-70 <= ilog2 v <= 60)%Z).
  { destruct (ilog2_spec v Hv0) as [K1 K2]. split.
    - assert (L : 2 ^ (-70) < 2 ^ (ilog2 v + 1)).
      { apply Qle_lt_trans with v; [ | exact K2].
        apply Qle_trans with (10 ^ (-20)); [vm_compute; discriminate | ].
        apply Qle_trans with (10 ^ (ka - d - 2)); [apply pow10_le; lia | lra]. }
      apply pow2_lt_inv in L. lia.
    - assert (L : 2 ^ ilog2 v < 2 ^ 61).
      { apply Qle_lt_trans with v; [exact K1 | ].
        apply Qlt_le_trans with (10 ^ (ka - d)); [exact Hvhi | ].
        apply Qle_trans with (10 ^ 16); [apply pow10_le; lia | ].
        vm_compute. discriminate. }
      apply pow2_lt_inv in L. lia. }
  destruct (ilog10_spec v Hv0 Hk2) as [L1 L2].
  assert (Hn1 : (ilog10 v < ka - d)%Z).
  { apply pow10_lt_inv. lra. }
  assert (Hn2 : (ka - d - 2 < ilog10 v + 1)%Z).
  { apply pow10_lt_inv. lra. }
  (* the amount itself is a candidate with its own digits *)
  assert (Hin : In (ka - d, a)%Z (candidates x v (ilog10 v + 1) ka)).
  { apply candidates_intro.
    - lia.
    - replace (ka - (ka - d))%Z with d by lia. rewrite <- HT.
      pose proof (Qfloor_le (v * T)) as F1. pose proof (Qlt_floor (v * T)) as F2.
      assert (G1 : (a - 1 < Qfloor (v * T) + 1)%Z).
      { rewrite Zlt_Qlt. unfold Z.sub.
        rewrite inject_Z_plus, inject_Z_opp. fold A.
        change (inject_Z 1) with 1. lra. }
      assert (G2 : (Qfloor (v * T) < a + 1)%Z).
      { rewrite Zlt_Qlt. rewrite inject_Z_plus. fold A.
        change (inject_Z 1) with 1. lra. }
      lia.
    - exact Hda.
    - cbn [SFabs x]. fold x. rewrite <- EF. apply Fs_comp.
      replace (ka - d - ka)%Z with (- d)%Z by lia.
      rewrite pow10_opp, <- HT, Hq. reflexivity. }
  apply parseFloat_toString.
  - fold x v. assert ((20 : Z) < 10 ^ 399)%Z by (vm_compute; reflexivity). lia.
  - fold x v.
    apply (shortest_some x v (ilog10 v + 1)%Z 21 1%Z ka (ka - d)%Z a);
      [lia | exact Hin].
Qed.

End Quotients.

(** White space beyond ASCII is trimmed as well: here U+00A0, U+FEFF, a
    space and U+2028 before the digits. *)
Lemma parseFloat_trims_white_space :
  parseFloat
    (String "194" (String "160"
       (String "239" (String "187" (String "191"
          (String " " (String "226" (String "128" (String "168" "1.5")))))))))
  = parseFloat "1.5".
Proof. vm_compute. reflexivity. Qed.

End StringFacts.

(** ** More facts about Numbers *)

Module MoreNumberFacts.
Import NumberFacts.

Section Fixpoints.
Local Open Scope Q_scope.

Lemma ilog2_finite (p : positive) (e : Z) :
  ilog2 (inject_Z (Z.pos p) * 2 ^ e) = (Z.log2 (Z.pos p) + e)%Z.
Proof.
  pose proof (Z.log2_spec (Z.pos p) (Pos2Z.is_pos p)) as [L1 L2].
  pose proof (Z.log2_nonneg (Z.pos p)) as L0.
  apply ilog2_unique.
  - rewrite pow2_add. apply Qmult_le_compat_r; [ | apply Qlt_le_weak, pow2_pos].
    rewrite pow2_Z by lia. rewrite <- Zle_Qle. exact L1.
  - replace (Z.log2 (Z.pos p) + e + 1)%Z with (Z.log2 (Z.pos p) + 1 + e)%Z by lia.
    rewrite pow2_add. apply Qmult_lt_compat_r; [apply pow2_pos | ].
    rewrite pow2_Z by lia. rewrite <- Zlt_Qlt. exact L2.
Qed.

(** A valid binary64 number is the rounding of its own magnitude. *)
Lemma Fs_valid_fixpoint (s : bool) (p : positive) (e : Z) :
  valid_binary 53 1024 (S754_finite s p e) = true ->
  Fs s (Rabs (S754_finite s p e)) = S754_finite s p e.
Proof.
  intros Hv. cbn [valid_binary] in Hv. unfold bounded, canonical_mantissa in Hv.
  apply andb_prop in Hv. destruct Hv as [Hc He].
  apply Z.eqb_eq in Hc. apply Z.leb_le in He.
  rewrite digits2_log2 in Hc. unfold fexp, SpecFloat.emin in Hc.
  pose proof (Z.log2_nonneg (Z.pos p)) as L0.
  assert (Hce : cexp (Z.log2 (Z.pos p) + e) = e)
    by (unfold cexp, prec, emin; lia).
  assert (Hl : (Z.log2 (Z.pos p) <= 52)%Z) by lia.
  assert (Hp : (Z.pos p < 2 ^ 53)%Z) by (apply Z.log2_lt_pow2; lia).
  pose proof (Rabs_finite_pos s p e) as Hpos.
  unfold Fs. destruct (Qle_bool (Rabs (S754_finite s p e)) 0) eqn:B.
  { apply Qle_bool_iff in B. exfalso. lra. }
  unfold Rabs. rewrite ilog2_finite, Hce.
  assert (Hs : inject_Z (Z.pos p) * 2 ^ e / 2 ^ e == inject_Z (Z.pos p)).
  { pose proof (pow2_pos e). field. lra. }
  rewrite (rne_comp _ _ Hs), rne_Z. unfold build.
  destruct (Z.eqb_spec (Z.pos p) (2 ^ prec)) as [E | N].
  - change (2 ^ prec)%Z with (2 ^ 53)%Z in E. lia.
  - destruct (Z.leb_spec e emax) as [L | G]; [reflexivity | ].
    unfold emax in G. lia.
Qed.

Lemma mul_valid (x y : number) : valid_binary 53 1024 (mul x y) = true.
Proof.
  destruct x as [sx | sx | | sx mx ex]; destruct y as [sy | sy | | sy my ey];
    try reflexivity. apply Fs_valid.
Qed.

Lemma div_valid (x y : number) : valid_binary 53 1024 (div x y) = true.
Proof.
  destruct x as [sx | sx | | sx mx ex]; destruct y as [sy | sy | | sy my ey];
    try reflexivity. apply Fs_valid.
Qed.

Lemma F_valid (q : Q) : valid_binary 53 1024 (F q) = true.
Proof. unfold F. destruct (Qnum q); [reflexivity | | ]; apply Fs_valid. Qed.

Lemma F_one : F 1 = S754_finite false (Z.to_pos (2 ^ 52)) (-52).
Proof. vm_compute. reflexivity. Qed.

(** One is neutral for the multiplication and the division of valid
    Numbers. *)
Lemma mul_one_r (x : number) :
  valid_binary 53 1024 x = true -> mul x (F 1) = x.
Proof.
  intros Hv. rewrite F_one. destruct x as [s | s | | s m e]; cbn [mul SFmul].
  - rewrite xorb_false_r. reflexivity.
  - rewrite xorb_false_r. reflexivity.
  - reflexivity.
  - rewrite xorb_false_r. rewrite <- (Fs_valid_fixpoint s m e Hv) at 2.
    apply Fs_comp. rewrite <- F_one. change (Rabs (F 1)) with (2 ^ 52 * 2 ^ (-52)).
    assert (H : 2 ^ 52 * 2 ^ (-52) == 1) by reflexivity. rewrite H. ring.
Qed.

Lemma div_one_r (x : number) :
  valid_binary 53 1024 x = true -> div x (F 1) = x.
Proof.
  intros Hv. rewrite F_one. destruct x as [s | s | | s m e]; cbn [div SFdiv].
  - rewrite xorb_false_r. reflexivity.
  - rewrite xorb_false_r. reflexivity.
  - reflexivity.
  - rewrite xorb_false_r. rewrite <- (Fs_valid_fixpoint s m e Hv) at 2.
    apply Fs_comp. rewrite <- F_one. change (Rabs (F 1)) with (2 ^ 52 * 2 ^ (-52)).
    assert (H : 2 ^ 52 * 2 ^ (-52) == 1) by reflexivity. rewrite H. field.
Qed.

(** The magnitude of the Number of an integer is an integer. *)
Lemma rnd_int_integral (z : Z) :
  (0 < z)%Z -> exists n : Z, rnd (inject_Z z) == inject_Z n.
Proof.
  intros Hz. destruct (Z_le_gt_dec z (2 ^ 53)) as [L | G].
  - exists z. apply rnd_exact_int. lia.
  - assert (Hq : 0 < inject_Z z)
      by (change 0 with (inject_Z 0); rewrite <- Zlt_Qlt; lia).
    rewrite (rnd_pos _ Hq).
    assert (Hk : (53 <= ilog2 (inject_Z z))%Z).
    { destruct (ilog2_spec _ Hq) as [_ K2].
      assert (L : 2 ^ 53 < 2 ^ (ilog2 (inject_Z z) + 1)).
      { apply Qle_lt_trans with (inject_Z z); [ | exact K2].
        rewrite pow2_Z by lia. rewrite <- Zle_Qle. lia. }
      destruct (Z_le_gt_dec 53 (ilog2 (inject_Z z))) as [A | B]; [exact A | exfalso].
      assert (2 ^ (ilog2 (inject_Z z) + 1) <= 2 ^ 53) by (apply pow2_le; lia).
      lra. }
    set (c := cexp (ilog2 (inject_Z z))).
    assert (Hc : (1 <= c)%Z) by (unfold c, cexp, prec, emin; lia).
    exists (rne (inject_Z z / 2 ^ c) * 2 ^ c)%Z.
    rewrite inject_Z_mult, <- pow2_Z by lia. reflexivity.
Qed.

Lemma Math_trunc_Number_of_bigint (z : Z) :
  Math_trunc (Number_of_bigint z) = Number_of_bigint z.
Proof.
  assert (Hgen : forall (s : bool) (w : Z), (0 < w)%Z ->
            Math_trunc (Fs s (inject_Z w)) = Fs s (inject_Z w)).
  { intros s w Hw. destruct (rnd_int_integral w Hw) as [n Hn].
    destruct (Fs_cases s (inject_Z w))
      as [[_ E] | [(_ & _ & p & e & E & V) | [_ E]]].
    - rewrite E. reflexivity.
    - pose proof (Fs_valid s (inject_Z w)) as Hv. rewrite E in *.
      cbn [Math_trunc]. rewrite <- (Fs_valid_fixpoint s p e Hv) at 2.
      apply Fs_comp.
      assert (HR : Rabs (S754_finite s p e) == inject_Z n)
        by (unfold Rabs; rewrite V; exact Hn).
      rewrite (Qfloor_comp _ _ HR), Qfloor_Z. symmetry. exact HR.
    - rewrite E. reflexivity. }
  unfold Number_of_bigint, F. destruct z as [ | q | q]; cbn [inject_Z Qnum].
  - reflexivity.
  - apply (Hgen false (Z.pos q)). lia.
  - assert (C : Fs true (- inject_Z (Z.neg q)) = Fs true (inject_Z (Z.pos q)))
      by (apply Fs_comp; reflexivity).
    rewrite C. apply (Hgen true (Z.pos q)). lia.
Qed.

Lemma Number_of_bigint_valid (z : Z) :
  valid_binary 53 1024 (Number_of_bigint z) = true.
Proof. apply F_valid. Qed.

(** The order of Numbers is transitive. *)
Lemma leb_trans (x y z : number) :
  leb x y = true -> leb y z = true -> leb x z = true.
Proof.
  intros Hxy Hyz.
  destruct x as [sx | sx | | sx mx ex]; destruct y as [sy | sy | | sy my ey];
    try discriminate Hxy;
    destruct z as [sz | sz | | sz mz ez]; try discriminate Hyz;
    try (apply leb_finite in Hxy; [ | reflexivity | reflexivity];
         apply leb_finite in Hyz; [ | reflexivity | reflexivity];
         apply leb_finite; [reflexivity | reflexivity | lra]);
    repeat match goal with s : bool |- _ => destruct s end;
    try discriminate Hxy; try discriminate Hyz; reflexivity.
Qed.

End Fixpoints.

End MoreNumberFacts.

Import MoreNumberFacts.

(** ** The mint-aware dispatch *)

Ltac unfold_dispatch :=
  unfold run, amountToUiAmountForMintWithoutSimulation,
    uiAmountToAmountForMintWithoutSimulation, getSysvarClockTimestamp,
    bigint_or_throw, bind, emit, lift, ret, throw;
  cbn [app].

Lemma ltb_not_geb (x y : number) : ltb x y = true -> geb x y = false.
Proof.
  unfold ltb, geb. destruct (compare x y) as [[ | | ] | ]; congruence.
Qed.

Lemma invalid_owner_neither
  (T1 T2 : PublicKey) (info : AccountInfo) :
  owner info <> T1 -> owner info <> T2 ->
  invalid_owner T1 T2 (Some info) = true.
Proof.
  intros H1 H2. unfold invalid_owner.
  destruct (String.eqb_spec (owner info) T1); [contradiction | ].
  destruct (String.eqb_spec (owner info) T2); [contradiction | ].
  reflexivity.
Qed.

Section Dispatch.

Variable Math_exp : number -> number.
Variable Mint : Type.
Variable decimals : Mint -> Z.
Variable unpackMint :
  PublicKey -> option AccountInfo -> PublicKey -> Error + Mint.
Variable getInterestBearingMintConfigState :
  Mint -> option InterestBearingMintConfigState.
Variable getScaledUiAmountConfig : Mint -> option ScaledUiAmountConfig.
Variable TOKEN_PROGRAM_ID TOKEN_2022_PROGRAM_ID : PublicKey.
Variable connection : Connection.
Variable mint : PublicKey.

Local Abbreviation forward :=
  (amountToUiAmountForMintWithoutSimulation
     Math_exp Mint decimals unpackMint getInterestBearingMintConfigState
     getScaledUiAmountConfig TOKEN_PROGRAM_ID TOKEN_2022_PROGRAM_ID
     connection mint).

Local Abbreviation inverse :=
  (uiAmountToAmountForMintWithoutSimulation
     Math_exp Mint decimals unpackMint getInterestBearingMintConfigState
     getScaledUiAmountConfig TOKEN_PROGRAM_ID TOKEN_2022_PROGRAM_ID
     connection mint).

(** C6.  When the fetched account is owned by neither token program, the
    forward and the inverse dispatch both throw the invalid-owner error, and
    the only step they took is the fetch of the account: the mint is not
    decoded, no extension is read, the clock is not fetched and nothing is
    converted, whatever the account holds. *)
Theorem dispatch_rejects_foreign_owner
  (info : AccountInfo) (amount : Z) (uiAmount : string) :
  getAccountInfo connection mint = inr (Some info) ->
  owner info <> TOKEN_PROGRAM_ID ->
  owner info <> TOKEN_2022_PROGRAM_ID ->
  run (forward amount) = ([EvGetAccountInfo mint], inl InvalidProgramID)
  /\ run (inverse uiAmount) = ([EvGetAccountInfo mint], inl InvalidProgramID).
Proof.
  intros Hacct H1 H2. unfold_dispatch.
  rewrite Hacct, (invalid_owner_neither _ _ _ H1 H2). split; reflexivity.
Qed.

Section DecodedMint.

(** The account exists, a token program owns it, it decodes to [m], and the
    clock shows [now]. *)
Variable accountInfo : option AccountInfo.
Variable m : Mint.
Variable now : number.
Hypothesis fetched : getAccountInfo connection mint = inr accountInfo.
Hypothesis owned :
  invalid_owner TOKEN_PROGRAM_ID TOKEN_2022_PROGRAM_ID accountInfo = false.
Hypothesis decoded :
  unpackMint mint accountInfo (programId_of accountInfo) = inr m.
Hypothesis clock :
  getParsedAccountInfo connection SYSVAR_CLOCK_PUBKEY
  = inr (Some (ParsedData now)).

Lemma forward_plain (amount : Z) :
  getInterestBearingMintConfigState m = None ->
  getScaledUiAmountConfig m = None ->
  snd (run (forward amount))
  = inr (Number_toString
           (div (Number_of_bigint amount) (Math_pow10 (decimals m)))).
Proof.
  intros Hib Hsc. unfold_dispatch.
  rewrite fetched, owned, decoded, Hib, Hsc. reflexivity.
Qed.

Lemma inverse_plain (uiAmount : string) :
  getInterestBearingMintConfigState m = None ->
  getScaledUiAmountConfig m = None ->
  snd (run (inverse uiAmount))
  = match BigInt (Math_trunc (mul (parseFloat uiAmount)
                                  (Math_pow10 (decimals m)))) with
    | Some z => inr z
    | None => inl RangeError
    end.
Proof.
  intros Hib Hsc. unfold_dispatch.
  rewrite fetched, owned, decoded, Hib, Hsc.
  unfold uiAmountToAtomicUiAmount, getDecimalFactor.
  destruct (BigInt _); reflexivity.
Qed.

Lemma forward_scaled (sc : ScaledUiAmountConfig) (amount : Z) :
  getInterestBearingMintConfigState m = None ->
  getScaledUiAmountConfig m = Some sc ->
  snd (run (forward amount))
  = inr (amountToUiAmountForScaledUiAmountMintWithoutSimulation
           amount (decimals m)
           (if geb now (Number_of_bigint (newMultiplierEffectiveTimestamp sc))
            then newMultiplier sc else multiplier sc)).
Proof.
  intros Hib Hsc. unfold_dispatch.
  rewrite fetched, owned, decoded, Hib, Hsc, clock. reflexivity.
Qed.

Lemma forward_interest_bearing
  (ib : InterestBearingMintConfigState) (amount : Z) :
  getInterestBearingMintConfigState m = Some ib ->
  run (forward amount)
  = ([EvGetAccountInfo mint; EvUnpackMint;
      EvGetInterestBearingMintConfigState; EvGetScaledUiAmountConfig;
      EvGetSysvarClock; EvConvertInterestBearing],
     inr (amountToUiAmountForInterestBearingMintWithoutSimulation
            Math_exp amount (decimals m) now
            (Number_of_bigint (lastUpdateTimestamp ib))
            (Number_of_bigint (initializationTimestamp ib))
            (preUpdateAverageRate ib) (currentRate ib))).
Proof.
  intros Hib. unfold_dispatch.
  rewrite fetched, owned, decoded, Hib, clock.
  destruct (getScaledUiAmountConfig m); reflexivity.
Qed.

Lemma inverse_interest_bearing
  (ib : InterestBearingMintConfigState) (uiAmount : string) :
  getInterestBearingMintConfigState m = Some ib ->
  run (inverse uiAmount)
  = ([EvGetAccountInfo mint; EvUnpackMint;
      EvGetInterestBearingMintConfigState; EvGetScaledUiAmountConfig;
      EvGetSysvarClock; EvConvertInterestBearing],
     match uiAmountToAmountForInterestBearingMintWithoutSimulation
             Math_exp uiAmount (decimals m) now
             (Number_of_bigint (lastUpdateTimestamp ib))
             (Number_of_bigint (initializationTimestamp ib))
             (preUpdateAverageRate ib) (currentRate ib) with
     | Some z => inr z
     | None => inl RangeError
     end).
Proof.
  intros Hib. unfold_dispatch.
  rewrite fetched, owned, decoded, Hib, clock.
  destruct (getScaledUiAmountConfig m);
    destruct (uiAmountToAmountForInterestBearingMintWithoutSimulation _ _ _ _ _ _ _ _);
    reflexivity.
Qed.

(** C7.  On a mint without extensions the forward dispatch returns the
    string of [Number(amount) / 10^decimals]: one division, no truncation.
    With six decimals the amount 1_000_000 gives "1", and 1_234_567 keeps
    its fraction, "1.234567". *)
Theorem plain_forward_is_division (amount : Z) :
  getInterestBearingMintConfigState m = None ->
  getScaledUiAmountConfig m = None ->
  snd (run (forward amount))
  = inr (Number_toString
           (div (Number_of_bigint amount) (Math_pow10 (decimals m))))
  /\ snd (Fixture.forward (Fixture.plain_mint 6) Fixture.TOKEN_PROGRAM_ID
            (F 0) 1000000) = inr "1"%string
  /\ snd (Fixture.forward (Fixture.plain_mint 6) Fixture.TOKEN_PROGRAM_ID
            (F 0) 1234567) = inr "1.234567"%string.
Proof.
  intros Hib Hsc. split; [apply forward_plain; assumption | ].
  split; vm_compute; reflexivity.
Qed.

(** C2.  On a scaled mint the forward dispatch converts with [multiplier]
    when the clock is strictly before [newMultiplierEffectiveTimestamp] and
    with [newMultiplier] when the clock is at or after it.  With multipliers
    2 and 3, effective timestamp 1000, six decimals and amount 1_000_000 the
    result is "2" at 999 and "3" at 1000. *)
Theorem scaled_multiplier_by_timestamp
  (sc : ScaledUiAmountConfig) (amount : Z) :
  getInterestBearingMintConfigState m = None ->
  getScaledUiAmountConfig m = Some sc ->
  (ltb now (Number_of_bigint (newMultiplierEffectiveTimestamp sc)) = true ->
   snd (run (forward amount))
   = inr (amountToUiAmountForScaledUiAmountMintWithoutSimulation
            amount (decimals m) (multiplier sc)))
  /\ (geb now (Number_of_bigint (newMultiplierEffectiveTimestamp sc)) = true ->
      snd (run (forward amount))
      = inr (amountToUiAmountForScaledUiAmountMintWithoutSimulation
               amount (decimals m) (newMultiplier sc)))
  /\ snd (Fixture.forward Fixture.scaled_mint Fixture.TOKEN_2022_PROGRAM_ID
            (F 999) 1000000) = inr "2"%string
  /\ snd (Fixture.forward Fixture.scaled_mint Fixture.TOKEN_2022_PROGRAM_ID
            (F 1000) 1000000) = inr "3"%string.
Proof.
  intros Hib Hsc. split; [ | split; [ | split]].
  - intros Hlt. rewrite (forward_scaled sc amount Hib Hsc).
    rewrite (ltb_not_geb _ _ Hlt). reflexivity.
  - intros Hge. rewrite (forward_scaled sc amount Hib Hsc).
    rewrite Hge. reflexivity.
  - vm_compute. reflexivity.
  - vm_compute. reflexivity.
Qed.

(** C9.  On a mint that yields both an interest-bearing and a scaled
    configuration, the forward and the inverse dispatch both convert with the
    interest-bearing helper: the scaled branch is not taken and the results do
    not depend on the scaled configuration. *)
Theorem interest_bearing_has_priority
  (ib : InterestBearingMintConfigState) (sc : ScaledUiAmountConfig)
  (amount : Z) (uiAmount : string) :
  getInterestBearingMintConfigState m = Some ib ->
  getScaledUiAmountConfig m = Some sc ->
  run (forward amount)
  = ([EvGetAccountInfo mint; EvUnpackMint;
      EvGetInterestBearingMintConfigState; EvGetScaledUiAmountConfig;
      EvGetSysvarClock; EvConvertInterestBearing],
     inr (amountToUiAmountForInterestBearingMintWithoutSimulation
            Math_exp amount (decimals m) now
            (Number_of_bigint (lastUpdateTimestamp ib))
            (Number_of_bigint (initializationTimestamp ib))
            (preUpdateAverageRate ib) (currentRate ib)))
  /\ run (inverse uiAmount)
     = ([EvGetAccountInfo mint; EvUnpackMint;
         EvGetInterestBearingMintConfigState; EvGetScaledUiAmountConfig;
         EvGetSysvarClock; EvConvertInterestBearing],
        match uiAmountToAmountForInterestBearingMintWithoutSimulation
                Math_exp uiAmount (decimals m) now
                (Number_of_bigint (lastUpdateTimestamp ib))
                (Number_of_bigint (initializationTimestamp ib))
                (preUpdateAverageRate ib) (currentRate ib) with
        | Some z => inr z
        | None => inl RangeError
        end).
Proof.
  intros Hib _. split.
  - apply forward_interest_bearing. exact Hib.
  - apply inverse_interest_bearing. exact Hib.
Qed.

End DecodedMint.

End Dispatch.

Lemma dispatch_rejects_foreign_owner_witness :
  Fixture.forward Fixture.scaled_mint Fixture.SYSTEM_PROGRAM_ID
    (F 1000) 1000000
  = ([EvGetAccountInfo Fixture.mint_address], inl InvalidProgramID)
  /\ Fixture.inverse Fixture.scaled_mint Fixture.SYSTEM_PROGRAM_ID
       (F 1000) "3"
     = ([EvGetAccountInfo Fixture.mint_address], inl InvalidProgramID).
Proof.
  apply (dispatch_rejects_foreign_owner
           Fixture.Math_exp Fixture.Mint Fixture.decimals
           (Fixture.unpackMint Fixture.scaled_mint)
           Fixture.interestBearing Fixture.scaledUiAmount
           Fixture.TOKEN_PROGRAM_ID Fixture.TOKEN_2022_PROGRAM_ID
           (Fixture.connection Fixture.SYSTEM_PROGRAM_ID (F 1000))
           Fixture.mint_address
           {| owner := Fixture.SYSTEM_PROGRAM_ID; data := [] |}).
  - reflexivity.
  - discriminate.
  - discriminate.
Defined.

Lemma plain_forward_is_division_witness :
  snd (Fixture.forward (Fixture.plain_mint 6) Fixture.TOKEN_PROGRAM_ID
         (F 0) 1000000)
  = inr (Number_toString (div (Number_of_bigint 1000000) (Math_pow10 6))).
Proof.
  refine (proj1 (plain_forward_is_division
           Fixture.Math_exp Fixture.Mint Fixture.decimals
           (Fixture.unpackMint (Fixture.plain_mint 6))
           Fixture.interestBearing Fixture.scaledUiAmount
           Fixture.TOKEN_PROGRAM_ID Fixture.TOKEN_2022_PROGRAM_ID
           (Fixture.connection Fixture.TOKEN_PROGRAM_ID (F 0))
           Fixture.mint_address
           (Some {| owner := Fixture.TOKEN_PROGRAM_ID; data := [] |})
           (Fixture.plain_mint 6)
           eq_refl eq_refl eq_refl 1000000 eq_refl eq_refl)).
Defined.

Lemma scaled_multiplier_by_timestamp_witness :
  snd (Fixture.forward Fixture.scaled_mint Fixture.TOKEN_2022_PROGRAM_ID
         (F 999) 1000000)
  = inr (amountToUiAmountForScaledUiAmountMintWithoutSimulation
           1000000 6 (F 2))
  /\ snd (Fixture.forward Fixture.scaled_mint Fixture.TOKEN_2022_PROGRAM_ID
            (F 1000) 1000000)
     = inr (amountToUiAmountForScaledUiAmountMintWithoutSimulation
              1000000 6 (F 3)).
Proof.
  split.
  - refine (proj1 (scaled_multiplier_by_timestamp
             Fixture.Math_exp Fixture.Mint Fixture.decimals
             (Fixture.unpackMint Fixture.scaled_mint)
             Fixture.interestBearing Fixture.scaledUiAmount
             Fixture.TOKEN_PROGRAM_ID Fixture.TOKEN_2022_PROGRAM_ID
             (Fixture.connection Fixture.TOKEN_2022_PROGRAM_ID (F 999))
             Fixture.mint_address
             (Some {| owner := Fixture.TOKEN_2022_PROGRAM_ID; data := [] |})
             Fixture.scaled_mint (F 999)
             eq_refl eq_refl eq_refl eq_refl
             {| multiplier := F 2; newMultiplierEffectiveTimestamp := 1000;
                newMultiplier := F 3 |}
             1000000 eq_refl eq_refl) _).
    vm_compute. reflexivity.
  - refine (proj1 (proj2 (scaled_multiplier_by_timestamp
             Fixture.Math_exp Fixture.Mint Fixture.decimals
             (Fixture.unpackMint Fixture.scaled_mint)
             Fixture.interestBearing Fixture.scaledUiAmount
             Fixture.TOKEN_PROGRAM_ID Fixture.TOKEN_2022_PROGRAM_ID
             (Fixture.connection Fixture.TOKEN_2022_PROGRAM_ID (F 1000))
             Fixture.mint_address
             (Some {| owner := Fixture.TOKEN_2022_PROGRAM_ID; data := [] |})
             Fixture.scaled_mint (F 1000)
             eq_refl eq_refl eq_refl eq_refl
             {| multiplier := F 2; newMultiplierEffectiveTimestamp := 1000;
                newMultiplier := F 3 |}
             1000000 eq_refl eq_refl)) _).
    vm_compute. reflexivity.
Defined.

Lemma interest_bearing_has_priority_witness :
  snd (Fixture.forward Fixture.both_mint Fixture.TOKEN_2022_PROGRAM_ID
         (F 31557600) 1000000) = inr "1"%string
  /\ snd (Fixture.inverse Fixture.both_mint Fixture.TOKEN_2022_PROGRAM_ID
            (F 31557600) "1") = inr 1000000.
Proof.
  destruct (interest_bearing_has_priority
              Fixture.Math_exp Fixture.Mint Fixture.decimals
              (Fixture.unpackMint Fixture.both_mint)
              Fixture.interestBearing Fixture.scaledUiAmount
              Fixture.TOKEN_PROGRAM_ID Fixture.TOKEN_2022_PROGRAM_ID
              (Fixture.connection Fixture.TOKEN_2022_PROGRAM_ID (F 31557600))
              Fixture.mint_address
              (Some {| owner := Fixture.TOKEN_2022_PROGRAM_ID; data := [] |})
              Fixture.both_mint (F 31557600)
              eq_refl eq_refl eq_refl eq_refl
              {| initializationTimestamp := 0;
                 preUpdateAverageRate := F (inject_Z 0);
                 lastUpdateTimestamp := 0;
                 currentRate := F (inject_Z 0) |}
              {| multiplier := F 2; newMultiplierEffectiveTimestamp := 1000;
                 newMultiplier := F 3 |}
              1000000 "1"%string eq_refl eq_refl) as [Hf Hi].
  split.
  - unfold Fixture.forward. rewrite Hf. vm_compute. reflexivity.
  - unfold Fixture.inverse. rewrite Hi. vm_compute. reflexivity.
Defined.

(** ** The transaction-simulation variant *)

(** C8.  Once the simulation has answered, [amountToUiAmount] returns
    normally: the return data decoded as a UTF-8 string when return data is
    present, and otherwise the error value of the simulation, or [null] when
    there is none. *)
Theorem simulation_returns_data_or_error
  (Instruction Signer TransactionError Buffer : Type)
  (createAmountToUiAmountInstruction :
     PublicKey -> Z -> PublicKey -> Instruction)
  (Buffer_from : string -> Encoding -> Buffer)
  (Buffer_toString_utf8 : Buffer -> string)
  (simulateTransaction :
     Transaction Instruction -> list Signer -> bool
     -> Error + SimulatedTransactionResponse TransactionError)
  (payer : Signer) (mint : PublicKey) (amount : Z) (programId : PublicKey)
  (value : SimulatedTransactionResponse TransactionError) :
  simulateTransaction
    [createAmountToUiAmountInstruction mint amount programId] [payer] false
  = inr value ->
  let result :=
    amountToUiAmount Instruction Signer TransactionError Buffer
      createAmountToUiAmountInstruction Buffer_from Buffer_toString_utf8
      simulateTransaction payer mint amount programId in
  (forall rd, returnData TransactionError value = Some rd ->
     result = inr (UiAmount TransactionError
                     (Buffer_toString_utf8
                        (Buffer_from (fst (returnData_data rd))
                                     (snd (returnData_data rd))))))
  /\ (returnData TransactionError value = None ->
      result = inr (match err TransactionError value with
                    | Some e => SimulationError TransactionError e
                    | None => Null TransactionError
                    end)).
Proof.
  intros Hsim result. subst result. unfold amountToUiAmount.
  cbn [app]. rewrite Hsim. split.
  - intros rd Hrd. rewrite Hrd. reflexivity.
  - intros Hrd. rewrite Hrd. destruct (err TransactionError value); reflexivity.
Qed.

Lemma simulation_returns_data_or_error_witness :
  amountToUiAmount unit unit string string (fun _ _ _ => tt)
    (fun s _ => s) (fun b => b) (Fixture.simulate_data "1.5")
    tt Fixture.mint_address 1500000 Fixture.TOKEN_PROGRAM_ID
  = inr (UiAmount string "1.5")
  /\ amountToUiAmount unit unit string string (fun _ _ _ => tt)
       (fun s _ => s) (fun b => b) (Fixture.simulate_error "AccountNotFound")
       tt Fixture.mint_address 1500000 Fixture.TOKEN_PROGRAM_ID
     = inr (SimulationError string "AccountNotFound"%string).
Proof.
  split.
  - refine (proj1 (simulation_returns_data_or_error
                     unit unit string string (fun _ _ _ => tt)
                     (fun s _ => s) (fun b => b) (Fixture.simulate_data "1.5")
                     tt Fixture.mint_address 1500000 Fixture.TOKEN_PROGRAM_ID
                     _ eq_refl) _ eq_refl).
  - refine (proj2 (simulation_returns_data_or_error
                     unit unit string string (fun _ _ _ => tt)
                     (fun s _ => s) (fun b => b)
                     (Fixture.simulate_error "AccountNotFound")
                     tt Fixture.mint_address 1500000 Fixture.TOKEN_PROGRAM_ID
                     _ eq_refl) eq_refl).
Defined.

(** ** The AdGem webhook *)

(** C10 as stated fails: a request without [player_id] that carries a wrong
    secret is answered 400, not 401. *)
Lemma webhook_unauthorized_iff_secret_counterexample :
  let req := Fixture.request_without_player in
  let response :=
    snd (Webhook.adgem_webhook Fixture.ToNumber Fixture.fetch_reward req) in
  Webhook.truthy (Webhook.secret_of req) = true
  /\ Webhook.strict_neq (Webhook.secret_of req) Webhook.ADGEM_KEY = true
  /\ Webhook.status response = 400
  /\ ~ (Webhook.status response = 401
        <-> Webhook.truthy (Webhook.secret_of req) = true
            /\ Webhook.strict_neq (Webhook.secret_of req) Webhook.ADGEM_KEY
               = true).
Proof.
  cbv zeta. repeat apply conj; try reflexivity.
  intros [_ H]. specialize (H (conj eq_refl eq_refl)). discriminate H.
Qed.

(** C10, amended.  For a request that carries a [player_id], the handler
    answers 401 exactly when a secret is supplied, in the query or in the
    [x-adgem-secret] header, and differs from the configured key; when no
    secret is supplied the request is accepted and the reward endpoint is
    called once, with the player's wallet. *)
Theorem webhook_unauthorized_iff_secret
  (ToNumber : Webhook.jsval -> number)
  (fetch_reward : Webhook.RewardCall -> string + Webhook.jsval)
  (req : Webhook.Request) :
  Webhook.truthy (Webhook.get (Webhook.body req) "player_id") = true ->
  let outcome := Webhook.adgem_webhook ToNumber fetch_reward req in
  (Webhook.status (snd outcome) = 401
   <-> Webhook.truthy (Webhook.secret_of req) = true
       /\ Webhook.strict_neq (Webhook.secret_of req) Webhook.ADGEM_KEY = true)
  /\ (Webhook.truthy (Webhook.secret_of req) = false ->
      Webhook.status (snd outcome) <> 401
      /\ exists amount,
           fst outcome
           = [{| Webhook.call_wallet :=
                   Webhook.get (Webhook.body req) "player_id";
                 Webhook.call_amount := amount |}]).
Proof.
  intros Hp outcome. subst outcome. unfold Webhook.adgem_webhook.
  rewrite Hp. cbn [negb].
  change (Webhook.truthy (Webhook.JString Webhook.ADGEM_KEY)) with true.
  cbn [andb].
  destruct (Webhook.truthy (Webhook.secret_of req)) eqn:Ht;
    destruct (Webhook.strict_neq (Webhook.secret_of req) Webhook.ADGEM_KEY)
      eqn:Hn; cbn [andb].
  - split; [split; [intros _; split; reflexivity | reflexivity] | discriminate].
  - destruct (fetch_reward _); cbn [snd Webhook.status];
      (split; [split; [discriminate | intros [_ C]; discriminate C]
              | discriminate ]).
  - destruct (fetch_reward _); cbn [snd fst Webhook.status];
      (split; [split; [discriminate | intros [C _]; discriminate C] | ]);
      intros _; (split; [discriminate | eexists; reflexivity]).
  - destruct (fetch_reward _); cbn [snd fst Webhook.status];
      (split; [split; [discriminate | intros [C _]; discriminate C] | ]);
      intros _; (split; [discriminate | eexists; reflexivity]).
Qed.

Lemma webhook_unauthorized_iff_secret_witness :
  Webhook.adgem_webhook Fixture.ToNumber Fixture.fetch_reward
    Fixture.request_without_secret
  = ([{| Webhook.call_wallet := Webhook.JString "wallet";
         Webhook.call_amount := F 5 |}],
     {| Webhook.status := 200;
        Webhook.json := Webhook.SuccessBody Webhook.JNull |})
  /\ Webhook.status
       (snd (Webhook.adgem_webhook Fixture.ToNumber Fixture.fetch_reward
               Fixture.request_with_wrong_secret)) = 401.
Proof.
  split.
  - vm_compute. reflexivity.
  - apply (webhook_unauthorized_iff_secret
             Fixture.ToNumber Fixture.fetch_reward
             Fixture.request_with_wrong_secret eq_refl).
    split; reflexivity.
Defined.

Import NumberFacts.

(** ** The interest accrual exponent *)

Lemma SECONDS_PER_YEAR_value :
  SECONDS_PER_YEAR = spec_SECONDS_PER_YEAR
  /\ SECONDS_PER_YEAR = F 31556736
  /\ ONE_IN_BASIS_POINTS = F 10000.
Proof. repeat split; vm_compute; reflexivity. Qed.

Lemma exponent_formula (Math_exp : number -> number) (t1 t2 r : number) :
  calculateExponentForTimesAndRate Math_exp t1 t2 r
  = spec_exponent Math_exp t1 t2 r.
Proof.
  unfold calculateExponentForTimesAndRate, spec_exponent.
  destruct SECONDS_PER_YEAR_value as (-> & _ & ->). reflexivity.
Qed.

Lemma exponent_divisor :
  exists p e,
    mul spec_SECONDS_PER_YEAR (F 10000) = S754_finite false p e.
Proof. eexists. eexists. vm_compute. reflexivity. Qed.

Lemma positive_finite (r : number) :
  is_finite r = true -> ltb (F 0) r = true ->
  exists m e, r = S754_finite false m e.
Proof.
  intros Hf Hp. destruct r as [s | s | | s m e]; try discriminate Hf.
  - destruct s; discriminate Hp.
  - destruct s; [ | eexists; eexists; reflexivity].
    exfalso. unfold ltb in Hp. rewrite compare_finite in Hp by reflexivity.
    pose proof (Rabs_finite_pos true m e) as P.
    destruct (Qcompare_spec (R (F 0)) (R (S754_finite true m e))) as [E | L | G];
      try discriminate Hp.
    change (R (S754_finite true m e)) with (- Rabs (S754_finite true m e))%Q in L.
    change (R (F 0)) with 0%Q in L. lra.
Qed.

Lemma negative_finite (r : number) :
  is_finite r = true -> ltb r (F 0) = true ->
  exists m e, r = S754_finite true m e.
Proof.
  intros Hf Hp. destruct r as [s | s | | s m e]; try discriminate Hf.
  - destruct s; discriminate Hp.
  - destruct s; [eexists; eexists; reflexivity | ].
    exfalso. unfold ltb in Hp. rewrite compare_finite in Hp by reflexivity.
    pose proof (Rabs_finite_pos false m e) as P.
    destruct (Qcompare_spec (R (S754_finite false m e)) (R (F 0))) as [E | L | G];
      try discriminate Hp.
    change (R (S754_finite false m e)) with (Rabs (S754_finite false m e))%Q in L.
    change (R (F 0)) with 0%Q in L. lra.
Qed.

Lemma mul_finite_zero (r : number) (s : bool) :
  is_finite r = true -> exists s', mul r (S754_zero s) = S754_zero s'.
Proof.
  intros Hf. destruct r; try discriminate Hf; eexists; reflexivity.
Qed.

(** C3.  The exponent helper computes
    [exp(rate * (t2 - t1) / (SECONDS_PER_YEAR * 10000))] with
    [SECONDS_PER_YEAR = 86400 * 365.24].  For a [Math.exp] that maps the
    zeros to 1 and preserves the order of Numbers, and a finite rate, the
    result does not decrease when the time span grows and the rate is
    positive, does not increase when the rate is negative, and is 1 when
    the two finite timestamps are equal.  In particular this holds for
    rates and timestamps that are integers of magnitude up to [2^53], with
    the time span [t2 - t1] taken in the integers. *)
Theorem exponent_monotone_and_one (Math_exp : number -> number) :
  (forall s, Math_exp (S754_zero s) = F 1) ->
  (forall x y, leb x y = true -> leb (Math_exp x) (Math_exp y) = true) ->
  (forall t1 t2 r,
     calculateExponentForTimesAndRate Math_exp t1 t2 r
     = Math_exp (div (mul r (sub t2 t1))
                     (mul (mul (F 86400) (F 365.24)) (F 10000))))
  /\ (forall r t1 t2 t1' t2',
        is_finite r = true -> ltb (F 0) r = true ->
        leb (sub t2 t1) (sub t2' t1') = true ->
        leb (calculateExponentForTimesAndRate Math_exp t1 t2 r)
            (calculateExponentForTimesAndRate Math_exp t1' t2' r) = true)
  /\ (forall r t1 t2 t1' t2',
        is_finite r = true -> ltb r (F 0) = true ->
        leb (sub t2 t1) (sub t2' t1') = true ->
        leb (calculateExponentForTimesAndRate Math_exp t1' t2' r)
            (calculateExponentForTimesAndRate Math_exp t1 t2 r) = true)
  /\ (forall r t1 t2,
        is_finite r = true -> is_finite t1 = true -> eqb t1 t2 = true ->
        calculateExponentForTimesAndRate Math_exp t1 t2 r = F 1)
  /\ (forall rate t1 t2 t1' t2' : Z,
        Z.abs rate <= 2 ^ 53 ->
        Z.abs t1 <= 2 ^ 53 -> Z.abs t2 <= 2 ^ 53 ->
        Z.abs t1' <= 2 ^ 53 -> Z.abs t2' <= 2 ^ 53 ->
        t2 - t1 <= t2' - t1' ->
        let exponent (a b : Z) :=
          calculateExponentForTimesAndRate Math_exp
            (Number_of_bigint a) (Number_of_bigint b)
            (Number_of_bigint rate) in
        (0 < rate -> leb (exponent t1 t2) (exponent t1' t2') = true)
        /\ (rate < 0 -> leb (exponent t1' t2') (exponent t1 t2) = true))
  /\ (forall rate t : Z,
        Z.abs rate <= 2 ^ 53 -> Z.abs t <= 2 ^ 53 ->
        calculateExponentForTimesAndRate Math_exp
          (Number_of_bigint t) (Number_of_bigint t) (Number_of_bigint rate)
        = F 1).
Proof.
  intros Hzero Hmono.
  destruct exponent_divisor as (pc & ec & Hc).
  assert (Hinc : forall r t1 t2 t1' t2',
             is_finite r = true -> ltb (F 0) r = true ->
             leb (sub t2 t1) (sub t2' t1') = true ->
             leb (calculateExponentForTimesAndRate Math_exp t1 t2 r)
                 (calculateExponentForTimesAndRate Math_exp t1' t2' r) = true).
  { intros r t1 t2 t1' t2' Hf Hp Hs.
    rewrite (exponent_formula _ t1 t2 r), (exponent_formula _ t1' t2' r).
    unfold spec_exponent. rewrite Hc.
    destruct (positive_finite r Hf Hp) as (m & e & ->).
    apply Hmono, div_mono_r. apply (mul_mono_l false m e _ _ Hs). }
  assert (Hdec : forall r t1 t2 t1' t2',
             is_finite r = true -> ltb r (F 0) = true ->
             leb (sub t2 t1) (sub t2' t1') = true ->
             leb (calculateExponentForTimesAndRate Math_exp t1' t2' r)
                 (calculateExponentForTimesAndRate Math_exp t1 t2 r) = true).
  { intros r t1 t2 t1' t2' Hf Hp Hs.
    rewrite (exponent_formula _ t1 t2 r), (exponent_formula _ t1' t2' r).
    unfold spec_exponent. rewrite Hc.
    destruct (negative_finite r Hf Hp) as (m & e & ->).
    apply Hmono, div_mono_r. apply (mul_mono_l true m e _ _ Hs). }
  assert (Hone : forall r t1 t2,
             is_finite r = true -> is_finite t1 = true -> eqb t1 t2 = true ->
             calculateExponentForTimesAndRate Math_exp t1 t2 r = F 1).
  { intros r t1 t2 Hr Ht He. rewrite exponent_formula.
    unfold spec_exponent. rewrite Hc.
    destruct (sub_equal t1 t2 Ht He) as [s ->].
    destruct (mul_finite_zero r s Hr) as [s' ->].
    apply Hzero. }
  split; [ | split; [exact Hinc | split; [exact Hdec | split; [exact Hone | ]]]].
  - intros t1 t2 r. apply exponent_formula.
  - split.
    + intros rate t1 t2 t1' t2' Br B1 B2 B1' B2' Hspan exponent.
      subst exponent. cbv beta.
      destruct (Number_of_bigint_exact rate Br) as [Fr _].
      destruct (Number_of_bigint_sign rate Br) as [Sp Sn].
      assert (Hs : leb (sub (Number_of_bigint t2) (Number_of_bigint t1))
                       (sub (Number_of_bigint t2') (Number_of_bigint t1'))
                   = true).
      { rewrite !sub_Number_of_bigint by assumption. apply leb_F.
        rewrite <- Zle_Qle. exact Hspan. }
      split; intros Hrate.
      * apply Hinc; [exact Fr | apply Sp; exact Hrate | exact Hs].
      * apply Hdec; [exact Fr | apply Sn; exact Hrate | exact Hs].
    + intros rate t Br Bt.
      destruct (Number_of_bigint_exact rate Br) as [Fr _].
      destruct (Number_of_bigint_exact t Bt) as [Ft _].
      apply Hone; [exact Fr | exact Ft | apply eqb_Number_of_bigint; exact Bt].
Qed.

(** The series of the instance is monotone, hence so is the instance. *)
Lemma horner_mono (k : nat) (a b acc acc' : Q) :
  (0 <= a)%Q -> (a <= b)%Q -> (1 <= acc)%Q -> (acc <= acc')%Q ->
  (1 <= Fixture.horner a k acc)%Q
  /\ (Fixture.horner a k acc <= Fixture.horner b k acc')%Q.
Proof.
  revert acc acc'. induction k as [ | k IH]; intros acc acc' Ha Hab H1 Hacc.
  - cbn. split; assumption.
  - cbn [Fixture.horner].
    set (n := inject_Z (Z.of_nat (S k))).
    assert (Hn : (0 < n)%Q).
    { unfold n. change 0%Q with (inject_Z 0). rewrite <- Zlt_Qlt. lia. }
    assert (Hi : (0 < / n)%Q) by (apply Qinv_lt_0_compat; exact Hn).
    assert (P1 : (0 <= a * acc)%Q) by nra.
    assert (P2 : (a * acc <= b * acc')%Q) by nra.
    apply IH; try assumption.
    + unfold Qdiv. nra.
    + unfold Qdiv. nra.
Qed.

Lemma Qinv_le_contravar (a b : Q) :
  (0 < a)%Q -> (a <= b)%Q -> (/ b <= / a)%Q.
Proof.
  intros Ha Hab. destruct (Qle_lt_or_eq a b Hab) as [L | E].
  - assert (Hb : (0 < b)%Q) by lra.
    apply Qlt_le_weak. exact (proj1 (Qinv_lt_contravar a b Ha Hb) L).
  - assert (C : (/ b == / a)%Q) by (apply Qinv_comp; symmetry; exact E).
    lra.
Qed.

Lemma exp_series_mono (a b : Q) :
  (0 <= a)%Q -> (a <= b)%Q ->
  (1 <= Fixture.exp_series a)%Q
  /\ (Fixture.exp_series a <= Fixture.exp_series b)%Q.
Proof.
  intros Ha Hab. unfold Fixture.exp_series.
  apply horner_mono; try assumption; apply Qle_refl.
Qed.

Lemma fixture_exp_zero (s : bool) : Fixture.Math_exp (S754_zero s) = F 1.
Proof. reflexivity. Qed.

Lemma fixture_exp_shape (x : number) :
  x <> S754_nan ->
  Fixture.Math_exp x = S754_infinity false
  \/ exists a, Fixture.Math_exp x = Fs false a.
Proof.
  intros Hx. destruct x as [s | s | | s m e].
  - right. exists 1%Q. reflexivity.
  - destruct s; [right; exists 0%Q; reflexivity | left; reflexivity].
  - contradiction.
  - right. destruct s; eexists; reflexivity.
Qed.

Lemma fixture_exp_mono (x y : number) :
  leb x y = true ->
  leb (Fixture.Math_exp x) (Fixture.Math_exp y) = true.
Proof.
  intros H.
  assert (Hx : x <> S754_nan) by (intros ->; discriminate H).
  assert (Hy : y <> S754_nan) by (intros ->; destruct x; discriminate H).
  destruct y as [sy | sy | | sy my ey]; [ | | contradiction | ].
  - (* y is a zero *)
    destruct x as [sx | sx | | sx mx ex]; [ | | contradiction | ].
    + reflexivity.
    + destruct sx; [reflexivity | discriminate H].
    + assert (sx = true) as ->.
      { destruct sx; [reflexivity | exfalso].
        apply leb_finite in H; [ | reflexivity | reflexivity].
        pose proof (Rabs_finite_pos false mx ex). pose proof (R_zero sy).
        change (R (S754_finite false mx ex))
          with (Rabs (S754_finite false mx ex)) in H. lra. }
      change (leb (Fs false (/ Fixture.exp_series (Rabs (S754_finite true mx ex))))
                  (Fs false 1) = true).
      apply leb_Fs. unfold signed. apply rnd_mono.
      destruct (exp_series_mono (Rabs (S754_finite true mx ex))
                  (Rabs (S754_finite true mx ex))) as [S1 _];
        [apply Qlt_le_weak, Rabs_finite_pos | apply Qle_refl | ].
      apply Qle_shift_inv_r; lra.
  - (* y is an infinity *)
    destruct sy.
    + destruct x as [sx | sx | | sx mx ex]; try discriminate H;
        try contradiction.
      destruct sx; [reflexivity | discriminate H].
    + destruct (fixture_exp_shape x Hx) as [-> | [a ->]];
        [reflexivity | apply leb_Fs_infinity].
  - (* y is finite *)
    destruct x as [sx | sx | | sx mx ex]; [ | | contradiction | ].
    + assert (sy = false) as ->.
      { destruct sy; [exfalso | reflexivity].
        apply leb_finite in H; [ | reflexivity | reflexivity].
        pose proof (Rabs_finite_pos true my ey). pose proof (R_zero sx).
        change (R (S754_finite true my ey))
          with (- Rabs (S754_finite true my ey))%Q in H. lra. }
      change (leb (Fs false 1)
                  (Fs false (Fixture.exp_series (Rabs (S754_finite false my ey))))
              = true).
      apply leb_Fs. unfold signed. apply rnd_mono.
      apply (exp_series_mono (Rabs (S754_finite false my ey))
               (Rabs (S754_finite false my ey)));
        [apply Qlt_le_weak, Rabs_finite_pos | apply Qle_refl].
    + destruct sx; [ | destruct sy; discriminate H].
      change (Fixture.Math_exp (S754_infinity true)) with (Fs false 0).
      destruct sy; apply leb_Fs; unfold signed;
        rewrite (rnd_nonpos 0) by apply Qle_refl; apply rnd_nonneg.
    + apply leb_finite in H; [ | reflexivity | reflexivity].
      pose proof (Rabs_finite_pos sx mx ex) as Px.
      pose proof (Rabs_finite_pos sy my ey) as Py.
      set (ax := Rabs (S754_finite sx mx ex)) in *.
      set (ay := Rabs (S754_finite sy my ey)) in *.
      assert (Hxy : (signed sx ax <= signed sy ay)%Q) by exact H.
      unfold signed in Hxy.
      destruct sx, sy;
        cbn [Fixture.Math_exp]; fold ax ay; apply leb_Fs; unfold signed;
        apply rnd_mono.
      * destruct (exp_series_mono ay ax) as [S1 S2]; [lra | lra | ].
        apply Qinv_le_contravar; lra.
      * destruct (exp_series_mono ax ax) as [S1 _]; [lra | lra | ].
        destruct (exp_series_mono ay ay) as [S2 _]; [lra | lra | ].
        apply Qle_trans with 1%Q; [ | exact S2].
        apply Qle_shift_inv_r; lra.
      * exfalso. lra.
      * apply (exp_series_mono ax ay); lra.
Qed.

Lemma exponent_monotone_and_one_witness :
  leb (calculateExponentForTimesAndRate Fixture.Math_exp
         (Number_of_bigint 0) (Number_of_bigint 31556736)
         (Number_of_bigint 500))
      (calculateExponentForTimesAndRate Fixture.Math_exp
         (Number_of_bigint 0) (Number_of_bigint 63113472)
         (Number_of_bigint 500)) = true
  /\ calculateExponentForTimesAndRate Fixture.Math_exp
       (Number_of_bigint 1700000000) (Number_of_bigint 1700000000)
       (Number_of_bigint 500) = F 1.
Proof.
  destruct (exponent_monotone_and_one Fixture.Math_exp
              fixture_exp_zero fixture_exp_mono)
    as (_ & _ & _ & _ & Hspan & Hone).
  split.
  - refine (proj1 (Hspan 500 0 31556736 0 63113472 _ _ _ _ _ _) _);
      vm_compute; try reflexivity; discriminate.
  - apply Hone; vm_compute; discriminate.
Defined.

(** ** The interest-bearing forward conversion *)

(** C1.  The interest-bearing forward conversion is the string of
    [truncate(scaled) / 10^decimals], where [scaled] is the amount times the
    product of the two exponents of the configuration.  The truncation is
    applied to the scaled amount, before the division, and it rounds toward
    zero: for a finite scaled amount of magnitude up to [2^53] the truncated
    Number is its integral part. *)
Theorem interest_bearing_forward_formula
  (Math_exp : number -> number) (amount decimals : Z)
  (currentTimestamp lastUpdateTimestamp initializationTimestamp : number)
  (preUpdateAverageRate currentRate : number) :
  let scaled :=
    spec_scaled_amount Math_exp amount currentTimestamp lastUpdateTimestamp
      initializationTimestamp preUpdateAverageRate currentRate in
  amountToUiAmountForInterestBearingMintWithoutSimulation
    Math_exp amount decimals currentTimestamp lastUpdateTimestamp
    initializationTimestamp preUpdateAverageRate currentRate
  = Number_toString (div (Math_trunc scaled) (Math_pow10 decimals))
  /\ (is_finite scaled = true -> (Rabs scaled < 2 ^ 53 + 1)%Q ->
      BigInt (Math_trunc scaled) = Some (integral_part scaled)).
Proof.
  intros scaled. split.
  - unfold amountToUiAmountForInterestBearingMintWithoutSimulation.
    rewrite !exponent_formula. reflexivity.
  - intros Hf Hb. apply BigInt_trunc; assumption.
Qed.

Lemma interest_bearing_forward_formula_witness :
  amountToUiAmountForInterestBearingMintWithoutSimulation
    Fixture.Math_exp 10 0 (F 31556736) (F 0) (F 0) (F 500) (F 500)
  = "10"%string
  /\ BigInt (Math_trunc
               (spec_scaled_amount Fixture.Math_exp 10 (F 31556736) (F 0)
                  (F 0) (F 500) (F 500))) = Some 10.
Proof.
  destruct (interest_bearing_forward_formula
              Fixture.Math_exp 10 0 (F 31556736) (F 0) (F 0) (F 500) (F 500))
    as [H1 H2].
  split.
  - rewrite H1. vm_compute. reflexivity.
  - rewrite H2; vm_compute; reflexivity.
Defined.

(** ** Precision of the amount *)

(** *** Rounding to the nearest Number *)

Module RoundingFacts.

Section Nearest.
Local Open Scope Q_scope.

Lemma Qabs_ge_opp (x : Q) : - x <= Qabs x.
Proof. rewrite <- Qabs_opp. apply Qle_Qabs. Qed.

(** No integer is closer to [q] than [rne q]. *)
Lemma rne_nearest (q : Q) (m : Z) :
  Qabs (inject_Z (rne q) - q) <= Qabs (inject_Z m - q).
Proof.
  pose proof (rne_error q) as E. apply Qabs_Qle_condition in E.
  destruct E as [E1 E2].
  destruct (Z.eq_dec m (rne q)) as [-> | N]; [apply Qle_refl | ].
  apply Qle_trans with (1 # 2); [apply Qabs_Qle_condition; split; assumption | ].
  destruct (Z_lt_le_dec m (rne q)) as [L | G].
  - assert (H : inject_Z m + 1 <= inject_Z (rne q)).
    { change 1 with (inject_Z 1). rewrite <- inject_Z_plus, <- Zle_Qle. lia. }
    apply Qle_trans with (- (inject_Z m - q)); [lra | apply Qabs_ge_opp].
  - assert (H : inject_Z (rne q) + 1 <= inject_Z m).
    { change 1 with (inject_Z 1). rewrite <- inject_Z_plus, <- Zle_Qle. lia. }
    apply Qle_trans with (inject_Z m - q); [lra | apply Qle_Qabs].
Qed.

(** No multiple of the unit in the last place is closer to [a] than
    [rnd a]. *)
Lemma rnd_nearest_multiple (a : Q) (m : Z) :
  0 < a ->
  Qabs (rnd a - a) <= Qabs (inject_Z m * 2 ^ cexp (ilog2 a) - a).
Proof.
  intros Ha. rewrite (rnd_pos a Ha).
  set (c := cexp (ilog2 a)). pose proof (pow2_pos c) as Hc.
  assert (E1 : inject_Z (rne (a / 2 ^ c)) * 2 ^ c - a
               == (inject_Z (rne (a / 2 ^ c)) - a / 2 ^ c) * 2 ^ c)
    by (field; lra).
  assert (E2 : inject_Z m * 2 ^ c - a == (inject_Z m - a / 2 ^ c) * 2 ^ c)
    by (field; lra).
  rewrite (Qabs_wd _ _ E1), (Qabs_wd _ _ E2), !Qabs_Qmult.
  apply Qmult_le_compat_r; [apply rne_nearest | apply Qabs_nonneg].
Qed.

(** The exponent of a valid Number is the canonical one. *)
Lemma valid_canonical (s : bool) (p : positive) (e : Z) :
  valid_binary 53 1024 (S754_finite s p e) = true ->
  cexp (Z.log2 (Z.pos p) + e) = e.
Proof.
  intros Hv. cbn [valid_binary] in Hv. unfold bounded, canonical_mantissa in Hv.
  apply andb_prop in Hv. destruct Hv as [Hc He].
  apply Z.eqb_eq in Hc. apply Z.leb_le in He.
  rewrite digits2_log2 in Hc. unfold fexp, SpecFloat.emin in Hc.
  pose proof (Z.log2_nonneg (Z.pos p)) as L0.
  unfold cexp, prec, emin. lia.
Qed.

(** No valid finite Number is closer to [a] than [rnd a]. *)
Lemma rnd_nearest (a : Q) (y : number) :
  1 <= a ->
  valid_binary 53 1024 y = true -> is_finite y = true ->
  Qabs (rnd a - a) <= Qabs (R y - a).
Proof.
  intros Ha Hv Hf. assert (Hp : 0 < a) by lra.
  destruct (ilog2_spec a Hp) as [K1 K2].
  set (k := ilog2 a) in *. set (c := cexp k).
  assert (Hk : (0 <= k)%Z).
  { assert (L : 2 ^ 0 < 2 ^ (k + 1)) by (change (2 ^ 0) with 1; lra).
    apply StringFacts.pow2_lt_inv in L. lia. }
  assert (Hck : (c <= k)%Z) by (unfold c, cexp, prec, emin; lia).
  assert (Hzero : Qabs (rnd a - a) <= a).
  { pose proof (rnd_nearest_multiple a 0 Hp) as H.
    assert (E : Qabs (inject_Z 0 * 2 ^ cexp (ilog2 a) - a) == a).
    { assert (E0 : inject_Z 0 * 2 ^ cexp (ilog2 a) - a == - a)
        by (change (inject_Z 0) with 0; ring).
      rewrite (Qabs_wd _ _ E0), Qabs_opp. apply Qabs_pos. lra. }
    rewrite E in H. exact H. }
  assert (Hlow : Qabs (rnd a - a) <= a - 2 ^ k).
  { pose proof (rnd_nearest_multiple a (2 ^ (k - c)) Hp) as H.
    fold k in H. fold c in H.
    assert (E : Qabs (inject_Z (2 ^ (k - c)) * 2 ^ c - a) == a - 2 ^ k).
    { assert (E0 : inject_Z (2 ^ (k - c)) * 2 ^ c - a == - (a - 2 ^ k)).
      { rewrite <- pow2_Z by lia. rewrite <- pow2_add.
        replace (k - c + c)%Z with k by lia. ring. }
      rewrite (Qabs_wd _ _ E0), Qabs_opp. apply Qabs_pos. lra. }
    rewrite E in H. exact H. }
  destruct y as [s | s | | s p e]; try discriminate Hf.
  - assert (E : Qabs (R (S754_zero s) - a) == a).
    { assert (E0 : R (S754_zero s) - a == - a) by (rewrite R_zero; ring).
      rewrite (Qabs_wd _ _ E0), Qabs_opp. apply Qabs_pos. lra. }
    rewrite E. exact Hzero.
  - pose proof (Rabs_finite_pos s p e) as Py.
    set (v := Rabs (S754_finite s p e)) in *.
    destruct s.
    + change (R (S754_finite true p e)) with (- v).
      apply Qle_trans with (- (- v - a)); [lra | apply Qabs_ge_opp].
    + change (R (S754_finite false p e)) with v.
      pose proof (valid_canonical false p e Hv) as Hce.
      pose proof (Z.log2_spec (Z.pos p) (Pos2Z.is_pos p)) as [L1 L2].
      pose proof (Z.log2_nonneg (Z.pos p)) as L0.
      destruct (Z_le_gt_dec k (Z.log2 (Z.pos p) + e)) as [G | L].
      * assert (Hce' : (c <= e)%Z).
        { rewrite <- Hce. apply cexp_mono. exact G. }
        pose proof (rnd_nearest_multiple a (Z.pos p * 2 ^ (e - c)) Hp) as H.
        fold k in H. fold c in H.
        assert (E : inject_Z (Z.pos p * 2 ^ (e - c)) * 2 ^ c - a == v - a).
        { unfold v, Rabs. rewrite inject_Z_mult, <- pow2_Z by lia.
          rewrite <- Qmult_assoc, <- pow2_add.
          replace (e - c + c)%Z with e by lia. reflexivity. }
        rewrite (Qabs_wd _ _ E) in H. exact H.
      * assert (Hv2 : v < 2 ^ k).
        { apply Qlt_le_trans with (2 ^ (Z.log2 (Z.pos p) + 1 + e)).
          - unfold v, Rabs. rewrite pow2_add.
            apply Qmult_lt_compat_r; [apply pow2_pos | ].
            rewrite pow2_Z by lia. rewrite <- Zlt_Qlt. exact L2.
          - apply pow2_le. lia. }
        apply Qle_trans with (- (v - a)); [lra | apply Qabs_ge_opp].
Qed.

(** The value of a rounded magnitude that did not overflow. *)
Lemma Fs_R (s : bool) (a : Q) :
  is_finite (Fs s a) = true -> R (Fs s a) == signed s (rnd a).
Proof.
  intros Hf.
  destruct (Fs_cases s a) as [[V E] | [(_ & _ & p & e & E & V) | [_ E]]];
    rewrite E in *.
  - rewrite R_zero. unfold signed. destruct s; rewrite V; reflexivity.
  - unfold R, signed. cbn [sign_of]. destruct s; unfold Rabs; rewrite V;
      reflexivity.
  - discriminate Hf.
Qed.

Lemma Fs_finite (s : bool) (a : Q) :
  1 <= a -> a < 2 ^ 1023 -> is_finite (Fs s a) = true.
Proof.
  intros H1 H2.
  destruct (Fs_cases s a) as [[_ E] | [(_ & _ & p & e & E & _) | [V _]]];
    try (rewrite E; reflexivity).
  exfalso.
  assert (Hn : 2 ^ (-1022) <= a).
  { apply Qle_trans with 1; [ | exact H1]. vm_compute. discriminate. }
  pose proof (rnd_error a Hn) as E. apply Qabs_Qle_condition in E.
  assert (U : a * 2 ^ (-53) <= a * 1).
  { apply Qmult_le_l; [lra | ]. vm_compute. discriminate. }
  assert (T : 2 ^ 1024 == 2 * 2 ^ 1023) by (apply (pow2_succ 1023)).
  lra.
Qed.

End Nearest.

Local Open Scope Q_scope.

Lemma Number_of_bigint_neg (z : Z) :
  (z < 0)%Z -> Number_of_bigint z = Fs true (inject_Z (- z)).
Proof.
  intros Hz. unfold Number_of_bigint.
  assert (L : inject_Z z < 0).
  { change 0 with (inject_Z 0). rewrite <- Zlt_Qlt. exact Hz. }
  rewrite (proj1 (F_as_Fs _) L). apply Fs_comp. rewrite inject_Z_opp.
  reflexivity.
Qed.

Lemma valid_opp (y : number) :
  valid_binary 53 1024 (SFopp y) = valid_binary 53 1024 y.
Proof. destruct y; reflexivity. Qed.

Lemma finite_opp (y : number) : is_finite (SFopp y) = is_finite y.
Proof. destruct y; reflexivity. Qed.

(** [Number(z)] is a double nearest to [z], for a [z] of magnitude below
    [2^1023]. *)
Lemma Number_of_bigint_nearest (z : Z) (y : number) :
  (Z.abs z < 2 ^ 1023)%Z ->
  is_finite (Number_of_bigint z) = true
  /\ (valid_binary 53 1024 y = true -> is_finite y = true ->
      Qabs (R (Number_of_bigint z) - inject_Z z) <= Qabs (R y - inject_Z z)).
Proof.
  intros Hz.
  assert (Hpos : forall (s : bool) (n : Z) (w : number),
             (0 < n < 2 ^ 1023)%Z ->
             is_finite (Fs s (inject_Z n)) = true
             /\ (valid_binary 53 1024 w = true -> is_finite w = true ->
                 Qabs (rnd (inject_Z n) - inject_Z n)
                 <= Qabs (R w - inject_Z n))).
  { intros s n w Hn.
    assert (H1 : 1 <= inject_Z n).
    { change 1 with (inject_Z 1). rewrite <- Zle_Qle. lia. }
    assert (H2 : inject_Z n < 2 ^ 1023).
    { rewrite pow2_Z by lia. rewrite <- Zlt_Qlt. lia. }
    split; [apply Fs_finite; assumption | ].
    intros Hv Hf. apply rnd_nearest; assumption. }
  destruct (Z.lt_trichotomy z 0) as [Neg | [-> | Pos]].
  - rewrite (Number_of_bigint_neg z Neg).
    destruct (Hpos true (- z)%Z (SFopp y)) as [Hf Hn]; [lia | ].
    split; [exact Hf | ]. intros Hv Hy.
    rewrite valid_opp, finite_opp in Hn. specialize (Hn Hv Hy).
    rewrite (Fs_R _ _ Hf). unfold signed.
    rewrite Qabs_Qminus in Hn. rewrite (Qabs_Qminus (R (SFopp y))) in Hn.
    assert (E1 : - rnd (inject_Z (- z)) - inject_Z z
                 == inject_Z (- z) - rnd (inject_Z (- z)))
      by (rewrite inject_Z_opp; ring).
    assert (E2 : R y - inject_Z z == inject_Z (- z) - R (SFopp y))
      by (rewrite R_opp, inject_Z_opp; ring).
    rewrite (Qabs_wd _ _ E1), (Qabs_wd _ _ E2). exact Hn.
  - split; [reflexivity | ]. intros _ _.
    change (R (Number_of_bigint 0) - inject_Z 0) with (0 - 0).
    apply Qabs_nonneg.
  - unfold Number_of_bigint. rewrite (F_pos_int z Pos).
    destruct (Hpos false z y) as [Hf Hn]; [lia | ].
    split; [exact Hf | ]. intros Hv Hy.
    rewrite (Fs_R _ _ Hf). unfold signed. apply Hn; assumption.
Qed.

(** What [BigInt] reads is the value of the Number. *)
Lemma BigInt_value (x : number) (b : Z) :
  BigInt x = Some b -> R x == inject_Z b.
Proof.
  unfold BigInt. intros H.
  destruct x as [s | s | | s p e]; try discriminate H;
    (destruct (Qeq_bool _ _) eqn:E in H; [ | discriminate H]);
    injection H as <-; apply Qeq_bool_iff in E; symmetry; exact E.
Qed.

(** Beyond [2^53] a rounded magnitude is an even integer. *)
Lemma rnd_even (n : Z) :
  (2 ^ 53 < n)%Z -> exists h : Z, rnd (inject_Z n) == inject_Z (2 * h).
Proof.
  intros Hn.
  assert (Hp : 0 < inject_Z n).
  { change 0 with (inject_Z 0). rewrite <- Zlt_Qlt. lia. }
  assert (Hk : (53 <= ilog2 (inject_Z n))%Z).
  { assert (E : ilog2 (2 ^ 53) = 53%Z)
      by (apply ilog2_unique; vm_compute; [discriminate | reflexivity]).
    rewrite <- E. apply ilog2_mono; [reflexivity | ].
    rewrite pow2_Z by lia. rewrite <- Zle_Qle. lia. }
  rewrite (rnd_pos _ Hp).
  set (c := cexp (ilog2 (inject_Z n))).
  assert (Hc : (1 <= c)%Z) by (unfold c, cexp, prec, emin; lia).
  exists (rne (inject_Z n / 2 ^ c) * 2 ^ (c - 1))%Z.
  rewrite !inject_Z_mult. rewrite <- (pow2_Z (c - 1)) by lia.
  replace c with (1 + (c - 1))%Z at 2 by lia. rewrite pow2_add.
  change (2 ^ 1) with 2. change (inject_Z 2) with 2. ring.
Qed.

(** Beyond [2^53], what [BigInt] reads back from [Number(z)] is even. *)
Lemma Number_of_bigint_even (z b : Z) :
  (2 ^ 53 < Z.abs z)%Z ->
  BigInt (Number_of_bigint z) = Some b -> Z.even b = true.
Proof.
  intros Hz Hb.
  assert (Hf : is_finite (Number_of_bigint z) = true).
  { destruct (Number_of_bigint z); try discriminate Hb; reflexivity. }
  apply BigInt_value in Hb.
  destruct (Z.lt_trichotomy z 0) as [Neg | [-> | Pos]].
  - rewrite (Number_of_bigint_neg z Neg) in Hb, Hf.
    rewrite (Fs_R _ _ Hf) in Hb. unfold signed in Hb.
    destruct (rnd_even (- z)%Z) as [h Hh]; [lia | ].
    assert (Eb : b = (- (2 * h))%Z).
    { apply inject_Z_injective. rewrite <- Hb, Hh, inject_Z_opp.
      reflexivity. }
    rewrite Eb, Z.even_opp, Z.even_mul. reflexivity.
  - vm_compute in Hz. discriminate Hz.
  - unfold Number_of_bigint in Hb, Hf. rewrite (F_pos_int z Pos) in Hb, Hf.
    rewrite (Fs_R _ _ Hf) in Hb. unfold signed in Hb.
    destruct (rnd_even z) as [h Hh]; [lia | ].
    assert (Eb : b = (2 * h)%Z).
    { apply inject_Z_injective. rewrite <- Hb, Hh. reflexivity. }
    rewrite Eb, Z.even_mul. reflexivity.
Qed.

(** Distinct amounts whose sum is below [2^53] have distinct quotients by
    a power of ten. *)
Lemma quotient_injective (a a' d : Z) :
  (0 <= a)%Z -> (0 <= a')%Z -> (a + a' < 2 ^ 53)%Z -> (0 <= d <= 18)%Z ->
  div (Number_of_bigint a) (Math_pow10 d)
  = div (Number_of_bigint a') (Math_pow10 d) ->
  a = a'.
Proof.
  assert (Hlt : forall x x' : Z,
             (0 <= x < x')%Z -> (x + x' < 2 ^ 53)%Z -> (0 <= d <= 18)%Z ->
             div (Number_of_bigint x) (Math_pow10 d)
             <> div (Number_of_bigint x') (Math_pow10 d)).
  { intros x x' Hx Hs Hd E.
    destruct (quotient_shape x' d)
      as (p' & e' & q' & Ex' & _ & Hq' & V' & Hlo' & _); [lia | exact Hd | ].
    destruct (Z.eq_dec x 0) as [-> | Nx].
    { destruct (pow10_exact d Hd) as (pf & ef & Ef & _).
      rewrite Ex', Ef in E. discriminate E. }
    destruct (quotient_shape x d)
      as (p & e & q & Ex & _ & Hq & V & _ & Hhi); [lia | exact Hd | ].
    rewrite Ex, Ex' in E. injection E as -> ->.
    rewrite V in V'.
    set (T := inject_Z (10 ^ d)) in *.
    assert (HT : 1 <= T).
    { unfold T. change 1 with (inject_Z 1). rewrite <- Zle_Qle.
      assert (0 < 10 ^ d)%Z by (apply Z.pow_pos_nonneg; lia). lia. }
    set (u := 2 ^ (-53)) in *.
    assert (Hu : 0 < u) by apply pow2_pos.
    assert (HqT : q * T == inject_Z x) by (rewrite Hq; field; lra).
    assert (HqT' : q' * T == inject_Z x') by (rewrite Hq'; field; lra).
    assert (B : (q' - q' * u) * T <= (q + q * u) * T).
    { apply Qmult_le_compat_r; lra. }
    assert (B1 : (q' - q' * u) * T == inject_Z x' - inject_Z x' * u)
      by (rewrite <- HqT'; ring).
    assert (B2 : (q + q * u) * T == inject_Z x + inject_Z x * u)
      by (rewrite <- HqT; ring).
    assert (S : inject_Z x * u + inject_Z x' * u < 1).
    { assert (S1 : (inject_Z x + inject_Z x') * u < 2 ^ 53 * u).
      { apply Qmult_lt_compat_r; [exact Hu | ].
        rewrite <- inject_Z_plus. rewrite pow2_Z by lia.
        rewrite <- Zlt_Qlt. exact Hs. }
      assert (S2 : 2 ^ 53 * u == 1) by (vm_compute; reflexivity).
      lra. }
    assert (G : inject_Z x + 1 <= inject_Z x').
    { change 1 with (inject_Z 1). rewrite <- inject_Z_plus, <- Zle_Qle. lia. }
    lra. }
  intros Ha Ha' Hs Hd E.
  destruct (Z.lt_trichotomy a a') as [L | [Eq | G]]; [ | exact Eq | ].
  - exfalso. apply (Hlt a a'); try assumption. lia.
  - exfalso. apply (Hlt a' a); try lia. symmetry. exact E.
Qed.

(** [BigInt] reads an integral finite Number. *)
Lemma BigInt_integral (x : number) (b : Z) :
  is_finite x = true -> R x == inject_Z b -> BigInt x = Some b.
Proof.
  intros Hf Hb.
  assert (B : Qeq_bool (inject_Z b) (R x) = true)
    by (apply Qeq_bool_iff; symmetry; exact Hb).
  destruct x as [s | s | | s p e]; try discriminate Hf; unfold BigInt;
    rewrite (Qfloor_comp _ _ Hb), Qfloor_Z, B; reflexivity.
Qed.

(** A valid finite Number that is not a zero is the Number of its value. *)
Lemma F_R_valid (s : bool) (p : positive) (e : Z) :
  valid_binary 53 1024 (S754_finite s p e) = true ->
  F (R (S754_finite s p e)) = S754_finite s p e.
Proof.
  intros Hv. pose proof (Rabs_finite_pos s p e) as P.
  rewrite <- (Fs_valid_fixpoint s p e Hv) at 2.
  destruct s.
  - change (R (S754_finite true p e)) with (- Rabs (S754_finite true p e)).
    rewrite (proj1 (F_as_Fs _)) by lra. apply Fs_comp. ring.
  - change (R (S754_finite false p e)) with (Rabs (S754_finite false p e)).
    rewrite (proj2 (F_as_Fs _)) by lra. reflexivity.
Qed.

Lemma Fs_shape (s : bool) (a : Q) :
  1 <= a ->
  (exists p e, Fs s a = S754_finite s p e) \/ Fs s a = S754_infinity s.
Proof.
  intros Ha.
  destruct (Fs_cases s a) as [[V _] | [(_ & _ & p & e & E & _) | [_ E]]].
  - exfalso.
    assert (H : rnd 1 <= rnd a) by (apply rnd_mono; exact Ha).
    assert (H1 : rnd 1 == 1).
    { change 1 with (inject_Z 1). apply rnd_exact_int. lia. }
    lra.
  - left. exists p, e. exact E.
  - right. exact E.
Qed.

Lemma Number_of_bigint_kind (z : Z) :
  z <> 0%Z ->
  (exists s p e, Number_of_bigint z = S754_finite s p e)
  \/ (exists s, Number_of_bigint z = S754_infinity s).
Proof.
  intros Hz. destruct (Z.lt_trichotomy z 0) as [Neg | [Eq | Pos]];
    [ | contradiction | ].
  - rewrite (Number_of_bigint_neg z Neg).
    destruct (Fs_shape true (inject_Z (- z))) as [(p & e & E) | E].
    + change 1 with (inject_Z 1). rewrite <- Zle_Qle. lia.
    + left. exists true, p, e. exact E.
    + right. exists true. exact E.
  - unfold Number_of_bigint. rewrite (F_pos_int z Pos).
    destruct (Fs_shape false (inject_Z z)) as [(p & e & E) | E].
    + change 1 with (inject_Z 1). rewrite <- Zle_Qle. lia.
    + left. exists false, p, e. exact E.
    + right. exists false. exact E.
Qed.

(** The integer that [BigInt] reads back from [Number(z)] has the same
    Number as [z]. *)
Lemma Number_of_bigint_read_back (z b : Z) :
  BigInt (Number_of_bigint z) = Some b ->
  Number_of_bigint b = Number_of_bigint z.
Proof.
  intros Hb. pose proof (BigInt_value _ _ Hb) as Hv.
  destruct (Z.eq_dec z 0) as [-> | Nz].
  { vm_compute in Hb. injection Hb as <-. reflexivity. }
  pose proof (Number_of_bigint_valid z) as Hval.
  destruct (Number_of_bigint_kind z Nz) as [(s & p & e & E) | (s & E)];
    rewrite E in *; [ | discriminate Hb].
  rewrite <- (F_R_valid s p e Hval). unfold Number_of_bigint.
  apply F_comp. symmetry. exact Hv.
Qed.

(** Beyond [2^53] and below [2^1023], [BigInt] reads an integer back from
    [Number(z)]. *)
Lemma Number_of_bigint_integral (z : Z) :
  (2 ^ 53 < Z.abs z < 2 ^ 1023)%Z ->
  exists b, BigInt (Number_of_bigint z) = Some b.
Proof.
  intros Hz.
  destruct (Number_of_bigint_nearest z NaN) as [Hf _]; [lia | ].
  destruct (Z.lt_trichotomy z 0) as [Neg | [-> | Pos]].
  - rewrite (Number_of_bigint_neg z Neg) in *.
    destruct (rnd_even (- z)%Z) as [h Hh]; [lia | ].
    exists (- (2 * h))%Z. apply BigInt_integral; [exact Hf | ].
    rewrite (Fs_R _ _ Hf). unfold signed. rewrite Hh, inject_Z_opp.
    reflexivity.
  - vm_compute in Hz. destruct Hz as [C _]. discriminate C.
  - unfold Number_of_bigint in *. rewrite (F_pos_int z Pos) in *.
    destruct (rnd_even z) as [h Hh]; [lia | ].
    exists (2 * h)%Z. apply BigInt_integral; [exact Hf | ].
    rewrite (Fs_R _ _ Hf). unfold signed. exact Hh.
Qed.

End RoundingFacts.

Import RoundingFacts.

(** C5 as stated fails.  The amount [2^53 + 1] is converted to the Number
    [2^53], and the three forward conversions print 9007199254740992 for
    it.  Below [2^53] the quotient by the decimal factor is rounded as
    well: with six decimals the plain conversion prints both
    8589934592000001 and 8589934592000002 as 8589934592.000002. *)
Lemma amount_precision_counterexample :
  Number_of_bigint (2 ^ 53 + 1) = Number_of_bigint (2 ^ 53)
  /\ BigInt (Number_of_bigint (2 ^ 53 + 1)) = Some (2 ^ 53)
  /\ snd (Fixture.forward (Fixture.plain_mint 0) Fixture.TOKEN_PROGRAM_ID
            (F 0) (2 ^ 53 + 1)) = inr "9007199254740992"%string
  /\ amountToUiAmountForScaledUiAmountMintWithoutSimulation
       (2 ^ 53 + 1) 0 (F 1) = "9007199254740992"%string
  /\ amountToUiAmountForInterestBearingMintWithoutSimulation
       Fixture.Math_exp (2 ^ 53 + 1) 0 (F 0) (F 0) (F 0) (F 0) (F 0)
     = "9007199254740992"%string
  /\ 8589934592000002 < 2 ^ 53
  /\ snd (Fixture.forward (Fixture.plain_mint 6) Fixture.TOKEN_PROGRAM_ID
            (F 0) 8589934592000001) = inr "8589934592.000002"%string
  /\ snd (Fixture.forward (Fixture.plain_mint 6) Fixture.TOKEN_PROGRAM_ID
            (F 0) 8589934592000002) = inr "8589934592.000002"%string.
Proof. repeat apply conj; vm_compute; reflexivity. Qed.

(** C5, amended.  The conversions have the precision of binary64, not an
    arbitrary one.  Every forward conversion, the dispatch in each of its
    branches and the two exported helpers, reads the amount through
    [Number(amount)] only: amounts with the same Number give the same run.
    [Number(amount)] is exact for every amount of magnitude up to [2^53]:
    the Number is finite, its value is the amount, and [BigInt] reads the
    amount back.  For an amount of magnitude below [2^1023] it is a valid
    finite Number that no valid finite Number is nearer to the amount than.
    Beyond [2^53] what [BigInt] reads back from it is an even integer with
    the same Number, so that every odd amount is altered and gives, in every
    forward conversion, the result of another amount.  On a mint without
    extensions and with at most eighteen decimals the printed string
    determines the amount as long as amounts are below [2^52]: there two
    amounts that print alike are equal. *)
Theorem amount_exact_up_to_2_53 :
  (forall (Math_exp : number -> number) (Mint : Type) (decimals : Mint -> Z)
          (unpackMint :
             PublicKey -> option AccountInfo -> PublicKey -> Error + Mint)
          (getInterestBearingMintConfigState :
             Mint -> option InterestBearingMintConfigState)
          (getScaledUiAmountConfig : Mint -> option ScaledUiAmountConfig)
          (TOKEN_PROGRAM_ID TOKEN_2022_PROGRAM_ID : PublicKey)
          (connection : Connection) (mint : PublicKey) (amount amount' : Z),
     Number_of_bigint amount' = Number_of_bigint amount ->
     run (amountToUiAmountForMintWithoutSimulation
            Math_exp Mint decimals unpackMint
            getInterestBearingMintConfigState getScaledUiAmountConfig
            TOKEN_PROGRAM_ID TOKEN_2022_PROGRAM_ID connection mint amount')
     = run (amountToUiAmountForMintWithoutSimulation
              Math_exp Mint decimals unpackMint
              getInterestBearingMintConfigState getScaledUiAmountConfig
              TOKEN_PROGRAM_ID TOKEN_2022_PROGRAM_ID connection mint amount))
  /\ (forall (Math_exp : number -> number) (amount amount' decimals : Z)
             (now last init pre cur multiplier : number),
        Number_of_bigint amount' = Number_of_bigint amount ->
        amountToUiAmountForInterestBearingMintWithoutSimulation
          Math_exp amount' decimals now last init pre cur
        = amountToUiAmountForInterestBearingMintWithoutSimulation
            Math_exp amount decimals now last init pre cur
        /\ amountToUiAmountForScaledUiAmountMintWithoutSimulation
             amount' decimals multiplier
           = amountToUiAmountForScaledUiAmountMintWithoutSimulation
               amount decimals multiplier)
  /\ (forall amount : Z,
        Z.abs amount <= 2 ^ 53 ->
        is_finite (Number_of_bigint amount) = true
        /\ (R (Number_of_bigint amount) == inject_Z amount)%Q
        /\ BigInt (Number_of_bigint amount) = Some amount)
  /\ (forall amount : Z,
        Z.abs amount < 2 ^ 1023 ->
        is_finite (Number_of_bigint amount) = true
        /\ valid_binary 53 1024 (Number_of_bigint amount) = true
        /\ forall y : number,
             valid_binary 53 1024 y = true -> is_finite y = true ->
             (Qabs (R (Number_of_bigint amount) - inject_Z amount)
              <= Qabs (R y - inject_Z amount))%Q)
  /\ (forall amount : Z,
        2 ^ 53 < Z.abs amount ->
        (forall back : Z,
           BigInt (Number_of_bigint amount) = Some back ->
           Z.even back = true
           /\ Number_of_bigint back = Number_of_bigint amount)
        /\ (Z.abs amount < 2 ^ 1023 ->
            exists back : Z, BigInt (Number_of_bigint amount) = Some back))
  /\ (forall (Math_exp : number -> number) (Mint : Type)
             (decimals : Mint -> Z)
             (unpackMint :
                PublicKey -> option AccountInfo -> PublicKey -> Error + Mint)
             (getInterestBearingMintConfigState :
                Mint -> option InterestBearingMintConfigState)
             (getScaledUiAmountConfig : Mint -> option ScaledUiAmountConfig)
             (TOKEN_PROGRAM_ID TOKEN_2022_PROGRAM_ID : PublicKey)
             (connection : Connection) (mint : PublicKey)
             (accountInfo : option AccountInfo) (m : Mint)
             (amount amount' : Z),
        getAccountInfo connection mint = inr accountInfo ->
        invalid_owner TOKEN_PROGRAM_ID TOKEN_2022_PROGRAM_ID accountInfo
        = false ->
        unpackMint mint accountInfo (programId_of accountInfo) = inr m ->
        getInterestBearingMintConfigState m = None ->
        getScaledUiAmountConfig m = None ->
        0 <= decimals m <= 18 ->
        0 <= amount < 2 ^ 52 -> 0 <= amount' < 2 ^ 52 ->
        snd (run (amountToUiAmountForMintWithoutSimulation
                    Math_exp Mint decimals unpackMint
                    getInterestBearingMintConfigState getScaledUiAmountConfig
                    TOKEN_PROGRAM_ID TOKEN_2022_PROGRAM_ID connection mint
                    amount'))
        = snd (run (amountToUiAmountForMintWithoutSimulation
                      Math_exp Mint decimals unpackMint
                      getInterestBearingMintConfigState
                      getScaledUiAmountConfig
                      TOKEN_PROGRAM_ID TOKEN_2022_PROGRAM_ID connection mint
                      amount)) ->
        amount' = amount).
Proof.
  assert (Hhelpers :
            forall (Math_exp : number -> number) (amount amount' decimals : Z)
                   (now last init pre cur multiplier : number),
              Number_of_bigint amount' = Number_of_bigint amount ->
              amountToUiAmountForInterestBearingMintWithoutSimulation
                Math_exp amount' decimals now last init pre cur
              = amountToUiAmountForInterestBearingMintWithoutSimulation
                  Math_exp amount decimals now last init pre cur
              /\ amountToUiAmountForScaledUiAmountMintWithoutSimulation
                   amount' decimals multiplier
                 = amountToUiAmountForScaledUiAmountMintWithoutSimulation
                     amount decimals multiplier).
  { intros Math_exp amount amount' decimals now last init pre cur multiplier E.
    unfold amountToUiAmountForInterestBearingMintWithoutSimulation,
      amountToUiAmountForScaledUiAmountMintWithoutSimulation.
    rewrite E. split; reflexivity. }
  split; [ | split; [exact Hhelpers | split; [ | split; [ | split]]]].
  - intros Math_exp Mint decimals unpackMint getIB getSc T1 T2 connection mint
      amount amount' E.
    unfold_dispatch.
    destruct (getAccountInfo connection mint) as [e | accountInfo];
      [reflexivity | ].
    destruct (invalid_owner T1 T2 accountInfo); [reflexivity | ].
    destruct (unpackMint mint accountInfo (programId_of accountInfo))
      as [e | m]; [reflexivity | ].
    destruct (getIB m) as [ib | ]; destruct (getSc m) as [sc | ];
      [ | | | rewrite E; reflexivity];
      (destruct (getParsedAccountInfo connection SYSVAR_CLOCK_PUBKEY)
         as [e | [[now | bytes] | ]]; try reflexivity);
      unfold amountToUiAmountForInterestBearingMintWithoutSimulation,
        amountToUiAmountForScaledUiAmountMintWithoutSimulation;
      rewrite E; reflexivity.
  - intros amount H. destruct (Number_of_bigint_exact amount H) as [Hf Hv].
    split; [exact Hf | split; [exact Hv | ]].
    unfold Number_of_bigint, F.
    destruct amount as [ | p | p]; cbn [Qnum inject_Z].
    + reflexivity.
    + apply (BigInt_Fs_int false (Z.pos p)). lia.
    + assert (C : Fs true (- inject_Z (Z.neg p)) = Fs true (inject_Z (Z.pos p)))
        by (apply Fs_comp; reflexivity).
      rewrite C. apply (BigInt_Fs_int true (Z.pos p)). lia.
  - intros amount H.
    split; [exact (proj1 (Number_of_bigint_nearest amount NaN H)) | ].
    split; [apply Number_of_bigint_valid | ].
    intros y. exact (proj2 (Number_of_bigint_nearest amount y H)).
  - intros amount H. split.
    + intros back Hb. split.
      * apply (Number_of_bigint_even amount back H Hb).
      * apply Number_of_bigint_read_back. exact Hb.
    + intros H2. apply Number_of_bigint_integral. lia.
  - intros Math_exp Mint decimals unpackMint getIB getSc T1 T2 connection mint
      accountInfo m amount amount' Hacct Hown Hdec Hib Hsc Hd Ha Ha' E.
    rewrite (forward_plain Math_exp Mint decimals unpackMint getIB getSc
               T1 T2 connection mint accountInfo m Hacct Hown Hdec
               amount' Hib Hsc) in E.
    rewrite (forward_plain Math_exp Mint decimals unpackMint getIB getSc
               T1 T2 connection mint accountInfo m Hacct Hown Hdec
               amount Hib Hsc) in E.
    injection E as E. apply (f_equal parseFloat) in E.
    rewrite !StringFacts.quotient_parseFloat_toString in E
      by (try assumption; lia).
    apply (quotient_injective amount' amount (decimals m)); try lia;
      assumption.
Qed.

Lemma amount_exact_up_to_2_53_witness :
  BigInt (Number_of_bigint (2 ^ 53)) = Some (2 ^ 53)
  /\ Fixture.forward (Fixture.plain_mint 0) Fixture.TOKEN_PROGRAM_ID (F 0)
       (2 ^ 53 + 1)
     = Fixture.forward (Fixture.plain_mint 0) Fixture.TOKEN_PROGRAM_ID (F 0)
         (2 ^ 53)
  /\ (forall back,
        BigInt (Number_of_bigint (2 ^ 53 + 3)) = Some back ->
        Z.even back = true
        /\ Number_of_bigint back = Number_of_bigint (2 ^ 53 + 3))
  /\ (Qabs (R (Number_of_bigint (2 ^ 53 + 3)) - inject_Z (2 ^ 53 + 3))
      <= Qabs (R (Number_of_bigint (2 ^ 53 + 2)) - inject_Z (2 ^ 53 + 3)))%Q.
Proof.
  pose proof amount_exact_up_to_2_53 as (H1 & _ & H3 & H4 & H5 & _).
  split; [ | split; [ | split]].
  - apply (H3 (2 ^ 53)). vm_compute. discriminate.
  - apply (H1 Fixture.Math_exp Fixture.Mint Fixture.decimals
             (Fixture.unpackMint (Fixture.plain_mint 0))
             Fixture.interestBearing Fixture.scaledUiAmount
             Fixture.TOKEN_PROGRAM_ID Fixture.TOKEN_2022_PROGRAM_ID
             (Fixture.connection Fixture.TOKEN_PROGRAM_ID (F 0))
             Fixture.mint_address (2 ^ 53) (2 ^ 53 + 1)).
    vm_compute. reflexivity.
  - apply (H5 (2 ^ 53 + 3)). vm_compute. reflexivity.
  - apply (H4 (2 ^ 53 + 3)).
    + vm_compute. reflexivity.
    + vm_compute. reflexivity.
    + vm_compute. reflexivity.
Defined.

(** ** The plain round trip *)

(** C4 as stated fails: with no decimals the amount [2^54 + 2] is printed
    as 18014398509481984, which converts back to [2^54], two units away. *)
Lemma plain_round_trip_counterexample :
  snd (Fixture.forward (Fixture.plain_mint 0) Fixture.TOKEN_PROGRAM_ID
         (F 0) (2 ^ 54 + 2)) = inr "18014398509481984"%string
  /\ snd (Fixture.inverse (Fixture.plain_mint 0) Fixture.TOKEN_PROGRAM_ID
            (F 0) "18014398509481984") = inr (2 ^ 54)
  /\ Z.abs (2 ^ 54 - (2 ^ 54 + 2)) = 2.
Proof. repeat apply conj; vm_compute; reflexivity. Qed.

(** C4, amended.  On a mint without extensions and with at most eighteen
    decimals, for every non-negative amount below [2^53], the forward
    dispatch followed by the inverse dispatch returns an amount within one
    unit of the original. *)
Theorem plain_round_trip_within_one
  (Math_exp : number -> number) (Mint : Type) (decimals : Mint -> Z)
  (unpackMint : PublicKey -> option AccountInfo -> PublicKey -> Error + Mint)
  (getInterestBearingMintConfigState :
     Mint -> option InterestBearingMintConfigState)
  (getScaledUiAmountConfig : Mint -> option ScaledUiAmountConfig)
  (TOKEN_PROGRAM_ID TOKEN_2022_PROGRAM_ID : PublicKey)
  (connection : Connection) (mint : PublicKey)
  (accountInfo : option AccountInfo) (m : Mint) (amount : Z) :
  getAccountInfo connection mint = inr accountInfo ->
  invalid_owner TOKEN_PROGRAM_ID TOKEN_2022_PROGRAM_ID accountInfo = false ->
  unpackMint mint accountInfo (programId_of accountInfo) = inr m ->
  getInterestBearingMintConfigState m = None ->
  getScaledUiAmountConfig m = None ->
  0 <= decimals m <= 18 ->
  0 <= amount < 2 ^ 53 ->
  let uiAmount :=
    Number_toString
      (div (Number_of_bigint amount) (Math_pow10 (decimals m))) in
  snd (run (amountToUiAmountForMintWithoutSimulation
              Math_exp Mint decimals unpackMint
              getInterestBearingMintConfigState getScaledUiAmountConfig
              TOKEN_PROGRAM_ID TOKEN_2022_PROGRAM_ID connection mint amount))
  = inr uiAmount
  /\ exists back : Z,
       snd (run (uiAmountToAmountForMintWithoutSimulation
                   Math_exp Mint decimals unpackMint
                   getInterestBearingMintConfigState getScaledUiAmountConfig
                   TOKEN_PROGRAM_ID TOKEN_2022_PROGRAM_ID connection mint
                   uiAmount))
       = inr back
       /\ Z.abs (back - amount) <= 1.
Proof.
  intros Hacct Hown Hdec Hib Hsc Hd Ha uiAmount.
  assert (Hparse : parseFloat uiAmount
                   = div (Number_of_bigint amount) (Math_pow10 (decimals m)))
    by (apply StringFacts.quotient_parseFloat_toString; assumption).
  split.
  - apply (forward_plain Math_exp Mint decimals unpackMint
             getInterestBearingMintConfigState getScaledUiAmountConfig
             TOKEN_PROGRAM_ID TOKEN_2022_PROGRAM_ID connection mint
             accountInfo m Hacct Hown Hdec amount Hib Hsc).
  - rewrite (inverse_plain Math_exp Mint decimals unpackMint
               getInterestBearingMintConfigState getScaledUiAmountConfig
               TOKEN_PROGRAM_ID TOKEN_2022_PROGRAM_ID connection mint
               accountInfo m Hacct Hown Hdec uiAmount Hib Hsc).
    rewrite Hparse.
    destruct (plain_round_trip_core amount (decimals m) Ha Hd)
      as (back & Hb & Hclose).
    rewrite Hb. exists back. split; [reflexivity | exact Hclose].
Qed.

Lemma plain_round_trip_within_one_witness :
  snd (Fixture.forward (Fixture.plain_mint 6) Fixture.TOKEN_PROGRAM_ID
         (F 0) 1234567) = inr "1.234567"%string
  /\ exists back : Z,
       snd (Fixture.inverse (Fixture.plain_mint 6) Fixture.TOKEN_PROGRAM_ID
              (F 0) "1.234567") = inr back
       /\ Z.abs (back - 1234567) <= 1.
Proof.
  assert (E : Number_toString
                (div (Number_of_bigint 1234567) (Math_pow10 6))
              = "1.234567"%string) by (vm_compute; reflexivity).
  rewrite <- E.
  apply (plain_round_trip_within_one
           Fixture.Math_exp Fixture.Mint Fixture.decimals
           (Fixture.unpackMint (Fixture.plain_mint 6))
           Fixture.interestBearing Fixture.scaledUiAmount
           Fixture.TOKEN_PROGRAM_ID Fixture.TOKEN_2022_PROGRAM_ID
           (Fixture.connection Fixture.TOKEN_PROGRAM_ID (F 0))
           Fixture.mint_address
           (Some {| owner := Fixture.TOKEN_PROGRAM_ID; data := [] |})
           (Fixture.plain_mint 6) 1234567
           eq_refl eq_refl eq_refl eq_refl eq_refl).
  - vm_compute. split; discriminate.
  - vm_compute. split; [discriminate | reflexivity].
Defined.

(** * Further properties of the code *)

(** ** More facts about the conversions *)

Module ConversionFacts.

Lemma mul_nonfinite_l (x y : number) :
  is_finite x = false -> is_finite (mul x y) = false.
Proof.
  destruct x as [s | s | | s m e]; destruct y as [s' | s' | | s' m' e'];
    intros H; try discriminate H; reflexivity.
Qed.

Lemma div_nonfinite_l (x y : number) :
  is_finite x = false -> is_finite (div x y) = false.
Proof.
  destruct x as [s | s | | s m e]; destruct y as [s' | s' | | s' m' e'];
    intros H; try discriminate H; reflexivity.
Qed.

Lemma div_by_zero (x : number) (s : bool) :
  is_finite (div x (S754_zero s)) = false.
Proof. destruct x; reflexivity. Qed.

Lemma BigInt_trunc_nonfinite (x : number) :
  is_finite x = false -> BigInt (Math_trunc x) = None.
Proof. destruct x; intros H; try discriminate H; reflexivity. Qed.

Lemma mul_zero_l (s : bool) (y : number) :
  is_finite y = true -> exists s', mul (S754_zero s) y = S754_zero s'.
Proof. intros H. destruct y; try discriminate H; eexists; reflexivity. Qed.

Lemma R_F_one : (R (F 1) == 1)%Q.
Proof. vm_compute. reflexivity. Qed.

Lemma leb_refl_F_one : leb (F 1) (F 1) = true.
Proof. vm_compute. reflexivity. Qed.

(** A Number that is at least one is a positive finite Number or the
    positive infinity. *)
Lemma at_least_one_shape (x : number) :
  leb (F 1) x = true ->
  (exists m e, x = S754_finite false m e
               /\ (1 <= Rabs (S754_finite false m e))%Q)
  \/ x = S754_infinity false.
Proof.
  intros H. destruct x as [s | s | | s m e].
  - exfalso. apply leb_finite in H; [ | reflexivity | reflexivity].
    rewrite R_F_one, R_zero in H. lra.
  - destruct s; [discriminate H | right; reflexivity].
  - discriminate H.
  - apply leb_finite in H; [ | reflexivity | reflexivity].
    rewrite R_F_one in H. pose proof (Rabs_finite_pos s m e) as P.
    destruct s.
    + exfalso.
      change (R (S754_finite true m e)) with (- Rabs (S754_finite true m e))%Q in H.
      lra.
    + left. exists m, e. split; [reflexivity | exact H].
Qed.

Lemma mul_at_least_one (x y : number) :
  leb (F 1) x = true -> leb (F 1) y = true -> leb (F 1) (mul x y) = true.
Proof.
  intros Hx Hy.
  destruct (at_least_one_shape x Hx) as [(m & e & -> & H1) | ->].
  - apply leb_trans with (mul (S754_finite false m e) (F 1)).
    + rewrite F_one at 2.
      change (mul (S754_finite false m e)
                  (S754_finite false (Z.to_pos (2 ^ 52)) (-52)))
        with (Fs false (Rabs (S754_finite false m e)
                        * Rabs (S754_finite false (Z.to_pos (2 ^ 52)) (-52)))).
      change (F 1) with (Fs false 1). apply leb_Fs. unfold signed.
      apply rnd_mono.
      assert (E : (Rabs (S754_finite false (Z.to_pos (2 ^ 52)) (-52)) == 1)%Q)
        by (vm_compute; reflexivity).
      rewrite E. lra.
    + apply (mul_mono_l false m e _ _ Hy).
  - destruct (at_least_one_shape y Hy) as [(m & e & -> & _) | ->]; reflexivity.
Qed.

Lemma Number_of_bigint_positive (a : Z) :
  0 < a ->
  (exists m e, Number_of_bigint a = S754_finite false m e)
  \/ Number_of_bigint a = S754_infinity false.
Proof.
  intros Ha. unfold Number_of_bigint. rewrite F_pos_int by exact Ha.
  destruct (Fs_cases false (inject_Z a))
    as [[V _] | [(_ & _ & p & e & E & _) | [_ E]]].
  - exfalso.
    assert (H : (rnd 1 <= rnd (inject_Z a))%Q).
    { apply rnd_mono. change 1%Q with (inject_Z 1). rewrite <- Zle_Qle. lia. }
    assert (H1 : (rnd 1 == 1)%Q).
    { change 1%Q with (inject_Z 1). apply rnd_exact_int. lia. }
    lra.
  - left. exists p, e. exact E.
  - right. exact E.
Qed.

Lemma mul_amount_at_least_one (a : Z) (t : number) :
  0 < a -> leb (F 1) t = true ->
  leb (Number_of_bigint a) (mul (Number_of_bigint a) t) = true.
Proof.
  intros Ha Ht.
  pose proof (Number_of_bigint_valid a) as Hv.
  destruct (Number_of_bigint_positive a Ha) as [(m & e & E) | E].
  - pose proof (mul_mono_l false m e _ _ Ht) as H. cbv beta iota in H.
    rewrite <- E in H. rewrite (mul_one_r _ Hv) in H. exact H.
  - rewrite E.
    destruct (at_least_one_shape t Ht) as [(m & e & -> & _) | ->]; reflexivity.
Qed.

Lemma Math_trunc_mono (x y : number) :
  leb x y = true -> leb (Math_trunc x) (Math_trunc y) = true.
Proof.
  intros H.
  destruct x as [sx | sx | | sx mx ex]; destruct y as [sy | sy | | sy my ey];
    try exact H; try discriminate H; cbn [Math_trunc].
  - (* zero, finite *)
    destruct sy; [ | apply leb_zero_Fs].
    exfalso. apply leb_finite in H; [ | reflexivity | reflexivity].
    rewrite R_zero in H. pose proof (Rabs_finite_pos true my ey) as P.
    change (R (S754_finite true my ey))
      with (- Rabs (S754_finite true my ey))%Q in H. lra.
  - (* infinity, finite *)
    destruct sx; [apply leb_Fs_infinity | ]. destruct sy; discriminate H.
  - (* finite, zero *)
    destruct sx; [apply leb_zero_Fs | ].
    exfalso. apply leb_finite in H; [ | reflexivity | reflexivity].
    rewrite R_zero in H. pose proof (Rabs_finite_pos false mx ex) as P.
    change (R (S754_finite false mx ex))
      with (Rabs (S754_finite false mx ex)) in H. lra.
  - (* finite, infinity *)
    destruct sy; [destruct sx; discriminate H | apply leb_Fs_infinity].
  - (* finite, finite *)
    apply leb_finite in H; [ | reflexivity | reflexivity].
    pose proof (Rabs_finite_pos sx mx ex) as Px.
    pose proof (Rabs_finite_pos sy my ey) as Py.
    set (ax := Rabs (S754_finite sx mx ex)) in *.
    set (ay := Rabs (S754_finite sy my ey)) in *.
    pose proof (rnd_nonneg (inject_Z (Qfloor ax))) as Nx.
    pose proof (rnd_nonneg (inject_Z (Qfloor ay))) as Ny.
    apply leb_Fs. unfold signed.
    destruct sx, sy.
    + change (R (S754_finite true mx ex)) with (- ax)%Q in H.
      change (R (S754_finite true my ey)) with (- ay)%Q in H.
      assert (M : (rnd (inject_Z (Qfloor ay)) <= rnd (inject_Z (Qfloor ax)))%Q).
      { apply rnd_mono. rewrite <- Zle_Qle. apply Qfloor_resp_le. lra. }
      lra.
    + lra.
    + exfalso.
      change (R (S754_finite false mx ex)) with ax in H.
      change (R (S754_finite true my ey)) with (- ay)%Q in H. lra.
    + change (R (S754_finite false mx ex)) with ax in H.
      change (R (S754_finite false my ey)) with ay in H.
      apply rnd_mono. rewrite <- Zle_Qle. apply Qfloor_resp_le. exact H.
Qed.

(** The round trip of an amount below [2^52] through the division and the
    multiplication by a power of ten loses at most one unit and never
    gains one. *)
Lemma plain_round_trip_core_below (a d : Z) :
  (0 <= a < 2 ^ 52)%Z -> (0 <= d <= 18)%Z ->
  exists b : Z,
    BigInt (Math_trunc (mul (div (Number_of_bigint a) (Math_pow10 d))
                            (Math_pow10 d))) = Some b
    /\ (b = a \/ b = a - 1)%Z.
Proof.
  intros [Ha0 Ha1] Hd.
  destruct (Z.eq_dec a 0) as [-> | Na].
  { destruct (pow10_exact d Hd) as (pf & ef & Ef & _). rewrite Ef.
    exists 0%Z. split; [reflexivity | left; reflexivity]. }
  destruct (quotient_shape a d) as (p1 & e1 & q & Ex & _ & Hq & V1 & Hlo & Hhi);
    [lia | exact Hd | ].
  rewrite Ex.
  destruct (pow10_exact d Hd) as (pf & ef & Ef & Vf). rewrite Ef.
  set (A := inject_Z a) in *. set (T := inject_Z (10 ^ d)) in *.
  assert (HA1 : (1 <= A)%Q).
  { unfold A. change 1%Q with (inject_Z 1). rewrite <- Zle_Qle. lia. }
  assert (HA2 : (A < 2 ^ 52)%Q).
  { unfold A. rewrite pow2_Z by lia. rewrite <- Zlt_Qlt. lia. }
  assert (HT1 : (1 <= T)%Q).
  { unfold T. change 1%Q with (inject_Z 1). rewrite <- Zle_Qle.
    assert (0 < 10 ^ d)%Z by (apply Z.pow_pos_nonneg; lia). lia. }
  assert (HqT : (q * T == A)%Q) by (rewrite Hq; field; lra).
  assert (Hu : (0 < 2 ^ (-53))%Q) by apply pow2_pos.
  change (mul (S754_finite false p1 e1) (S754_finite false pf ef))
    with (Fs false (Rabs (S754_finite false p1 e1) * Rabs (S754_finite false pf ef))).
  set (y := (Rabs (S754_finite false p1 e1) * Rabs (S754_finite false pf ef))%Q).
  assert (Hy : (y == rnd q * T)%Q).
  { unfold y. rewrite V1. unfold Rabs. rewrite Vf. reflexivity. }
  assert (HAu : (A * 2 ^ (-53) < 1 # 2)%Q).
  { apply Qlt_le_trans with (2 ^ 52 * 2 ^ (-53))%Q.
    - apply Qmult_lt_compat_r; [exact Hu | exact HA2].
    - vm_compute. discriminate. }
  assert (Hy1 : (A - 1 <= y)%Q).
  { rewrite Hy.
    assert ((q - q * 2 ^ (-53)) * T <= rnd q * T)%Q
      by (apply Qmult_le_compat_r; lra).
    assert ((q - q * 2 ^ (-53)) * T == A - A * 2 ^ (-53))%Q
      by (rewrite <- HqT; ring).
    lra. }
  assert (Hy2 : (y <= A + (1 # 2))%Q).
  { rewrite Hy.
    assert (rnd q * T <= (q + q * 2 ^ (-53)) * T)%Q
      by (apply Qmult_le_compat_r; lra).
    assert ((q + q * 2 ^ (-53)) * T == A + A * 2 ^ (-53))%Q
      by (rewrite <- HqT; ring).
    lra. }
  assert (Hr1 : (inject_Z (a - 1) <= rnd y)%Q).
  { rewrite <- (rnd_exact_int (a - 1)) by lia. apply rnd_mono.
    unfold Z.sub. rewrite inject_Z_plus, inject_Z_opp. fold A.
    change (inject_Z 1) with 1%Q. lra. }
  assert (Hhalf : (rnd (A + (1 # 2)) == A + (1 # 2))%Q).
  { apply (rnd_exact _ (2 * a + 1) (-1)).
    - lra.
    - rewrite inject_Z_plus, inject_Z_mult. fold A.
      change (2 ^ (-1))%Q with (1 # 2)%Q.
      change (inject_Z 2) with 2%Q. change (inject_Z 1) with 1%Q. field.
    - assert (L : (ilog2 (A + (1 # 2)) <= 51)%Z).
      { assert (P : (0 < A + (1 # 2))%Q) by lra.
        destruct (ilog2_spec _ P) as [L1 _].
        assert (K : (2 ^ ilog2 (A + (1 # 2)) < 2 ^ 52)%Q).
        { apply Qle_lt_trans with (A + (1 # 2))%Q; [exact L1 | ].
          assert (I : (inject_Z (a + 1) <= 2 ^ 52)%Q).
          { rewrite pow2_Z by lia. rewrite <- Zle_Qle. lia. }
          rewrite inject_Z_plus in I. fold A in I.
          change (inject_Z 1) with 1%Q in I. lra. }
        apply StringFacts.pow2_lt_inv in K. lia. }
      unfold cexp, prec, emin. lia. }
  assert (Hr2 : (rnd y <= A + (1 # 2))%Q).
  { rewrite <- Hhalf. apply rnd_mono. exact Hy2. }
  destruct (Fs_cases false y)
    as [[V E2] | [(_ & _ & p2 & e2 & E2 & V2) | [V _]]].
  - rewrite E2. exists 0%Z. split; [reflexivity | ].
    assert (inject_Z (a - 1) <= inject_Z 0)%Q by (change (inject_Z 0) with 0%Q; lra).
    rewrite <- Zle_Qle in H. lia.
  - rewrite E2.
    assert (HR : (Rabs (S754_finite false p2 e2) == rnd y)%Q) by exact V2.
    rewrite BigInt_trunc; [ | reflexivity | lra ].
    cbn [sign_of]. eexists. split; [reflexivity | ].
    set (v := Rabs (S754_finite false p2 e2)) in *.
    assert (F1 : (a - 1 <= Qfloor v)%Z).
    { rewrite <- (Qfloor_Z (a - 1)). apply Qfloor_resp_le. lra. }
    assert (F2 : (Qfloor v < a + 1)%Z).
    { rewrite Zlt_Qlt. apply Qle_lt_trans with v; [apply Qfloor_le | ].
      rewrite inject_Z_plus. fold A. change (inject_Z 1) with 1%Q. lra. }
    lia.
  - exfalso. assert ((2 ^ 52 + 1 : Q) < 2 ^ 1024)%Q by (vm_compute; reflexivity). lra.
Qed.

End ConversionFacts.

Import ConversionFacts.

(** ** The dispatch: errors, steps and the inverse direction *)

Section DispatchSteps.

Variable Math_exp : number -> number.
Variable Mint : Type.
Variable decimals : Mint -> Z.
Variable unpackMint :
  PublicKey -> option AccountInfo -> PublicKey -> Error + Mint.
Variable getInterestBearingMintConfigState :
  Mint -> option InterestBearingMintConfigState.
Variable getScaledUiAmountConfig : Mint -> option ScaledUiAmountConfig.
Variable TOKEN_PROGRAM_ID TOKEN_2022_PROGRAM_ID : PublicKey.
Variable mint : PublicKey.

Local Abbreviation forward connection :=
  (amountToUiAmountForMintWithoutSimulation
     Math_exp Mint decimals unpackMint getInterestBearingMintConfigState
     getScaledUiAmountConfig TOKEN_PROGRAM_ID TOKEN_2022_PROGRAM_ID
     connection mint).

Local Abbreviation inverse connection :=
  (uiAmountToAmountForMintWithoutSimulation
     Math_exp Mint decimals unpackMint getInterestBearingMintConfigState
     getScaledUiAmountConfig TOKEN_PROGRAM_ID TOKEN_2022_PROGRAM_ID
     connection mint).

(** X1.  When the ledger has no account at the mint address, the forward
    and the inverse dispatch both throw the invalid-owner error right after
    the fetch: an absent account is treated like a foreign owner. *)
Theorem dispatch_rejects_missing_account
  (connection : Connection) (amount : Z) (uiAmount : string) :
  getAccountInfo connection mint = inr None ->
  run (forward connection amount)
  = ([EvGetAccountInfo mint], inl InvalidProgramID)
  /\ run (inverse connection uiAmount)
     = ([EvGetAccountInfo mint], inl InvalidProgramID).
Proof.
  intros Hacct. unfold_dispatch. rewrite Hacct. split; reflexivity.
Qed.

(** X2.  On a mint without extensions neither dispatch reads the clock:
    two ledgers that answer the account fetch alike give the same run,
    whatever their clocks answer, and the run has no clock step. *)
Theorem plain_dispatch_ignores_clock
  (connection connection' : Connection)
  (accountInfo : option AccountInfo) (m : Mint)
  (amount : Z) (uiAmount : string) :
  getAccountInfo connection mint = inr accountInfo ->
  getAccountInfo connection' mint = inr accountInfo ->
  invalid_owner TOKEN_PROGRAM_ID TOKEN_2022_PROGRAM_ID accountInfo = false ->
  unpackMint mint accountInfo (programId_of accountInfo) = inr m ->
  getInterestBearingMintConfigState m = None ->
  getScaledUiAmountConfig m = None ->
  run (forward connection' amount) = run (forward connection amount)
  /\ run (inverse connection' uiAmount) = run (inverse connection uiAmount)
  /\ fst (run (forward connection amount))
     = [EvGetAccountInfo mint; EvUnpackMint;
        EvGetInterestBearingMintConfigState; EvGetScaledUiAmountConfig;
        EvConvertPlain]
  /\ fst (run (inverse connection uiAmount))
     = [EvGetAccountInfo mint; EvUnpackMint;
        EvGetInterestBearingMintConfigState; EvGetScaledUiAmountConfig;
        EvConvertPlain].
Proof.
  intros H1 H2 Hown Hdec Hib Hsc. unfold_dispatch.
  rewrite H1, H2, Hown, Hdec, Hib, Hsc.
  repeat apply conj; try reflexivity.
  destruct (BigInt _); reflexivity.
Qed.

(** X3.  On a mint with an extension a failing clock is fatal to both
    dispatches and nothing is converted: an absent clock account throws
    'Failed to fetch sysvar clock', a clock account whose data was not
    parsed throws 'Failed to parse sysvar clock', and an error of the ledger
    is passed on. *)
Theorem extension_dispatch_needs_clock
  (connection : Connection) (accountInfo : option AccountInfo) (m : Mint)
  (amount : Z) (uiAmount : string)
  (answer : Error + option ParsedAccountInfo) :
  getAccountInfo connection mint = inr accountInfo ->
  invalid_owner TOKEN_PROGRAM_ID TOKEN_2022_PROGRAM_ID accountInfo = false ->
  unpackMint mint accountInfo (programId_of accountInfo) = inr m ->
  getInterestBearingMintConfigState m <> None
  \/ getScaledUiAmountConfig m <> None ->
  getParsedAccountInfo connection SYSVAR_CLOCK_PUBKEY = answer ->
  (forall now, answer <> inr (Some (ParsedData now))) ->
  let failure :=
    match answer with
    | inl e => e
    | inr None => FailedToFetchSysvarClock
    | inr (Some _) => FailedToParseSysvarClock
    end in
  let steps :=
    [EvGetAccountInfo mint; EvUnpackMint;
     EvGetInterestBearingMintConfigState; EvGetScaledUiAmountConfig;
     EvGetSysvarClock] in
  run (forward connection amount) = (steps, inl failure)
  /\ run (inverse connection uiAmount) = (steps, inl failure).
Proof.
  intros Hacct Hown Hdec Hext Hclock Hbad failure steps.
  subst failure steps. unfold_dispatch.
  rewrite Hacct, Hown, Hdec, Hclock.
  destruct (getInterestBearingMintConfigState m) as [ib | ];
    destruct (getScaledUiAmountConfig m) as [sc | ];
    try (destruct Hext as [C | C]; contradiction);
    (destruct answer as [e | [[now | bytes] | ]];
     [split; reflexivity | exfalso; apply (Hbad now); reflexivity
      | split; reflexivity | split; reflexivity]).
Qed.

(** X4.  Whatever the ledger and the decoder answer, the inverse dispatch
    takes the same steps as the forward dispatch, and the steps are a fetch
    of the account, then at most the decoding, the two extension reads, one
    fetch of the clock and one conversion, in that order: at most two
    requests to the ledger, and never a conversion before the decoding. *)
Theorem dispatch_steps
  (connection : Connection) (amount : Z) (uiAmount : string) :
  let steps := fst (run (forward connection amount)) in
  let decoded :=
    [EvGetAccountInfo mint; EvUnpackMint;
     EvGetInterestBearingMintConfigState; EvGetScaledUiAmountConfig] in
  fst (run (inverse connection uiAmount)) = steps
  /\ (steps = [EvGetAccountInfo mint]
      \/ steps = [EvGetAccountInfo mint; EvUnpackMint]
      \/ steps = decoded ++ [EvConvertPlain]
      \/ steps = decoded ++ [EvGetSysvarClock]
      \/ steps = decoded ++ [EvGetSysvarClock; EvConvertInterestBearing]
      \/ exists multiplier,
           steps = decoded ++ [EvGetSysvarClock; EvConvertScaled multiplier]).
Proof.
  cbv zeta. unfold_dispatch.
  destruct (getAccountInfo connection mint) as [e | accountInfo];
    [split; [reflexivity | left; reflexivity] | ].
  destruct (invalid_owner _ _ accountInfo);
    [split; [reflexivity | left; reflexivity] | ].
  destruct (unpackMint mint accountInfo (programId_of accountInfo)) as [e | m];
    [split; [reflexivity | right; left; reflexivity] | ].
  destruct (getInterestBearingMintConfigState m) as [ib | ];
    destruct (getScaledUiAmountConfig m) as [sc | ].
  - destruct (getParsedAccountInfo connection SYSVAR_CLOCK_PUBKEY)
      as [e | [[now | bytes] | ]]; cbn [fst app].
    + split; [reflexivity | do 3 right; left; reflexivity].
    + split; [destruct (uiAmountToAmountForInterestBearingMintWithoutSimulation
                          _ _ _ _ _ _ _ _); reflexivity
             | do 4 right; left; reflexivity].
    + split; [reflexivity | do 3 right; left; reflexivity].
    + split; [reflexivity | do 3 right; left; reflexivity].
  - destruct (getParsedAccountInfo connection SYSVAR_CLOCK_PUBKEY)
      as [e | [[now | bytes] | ]]; cbn [fst app].
    + split; [reflexivity | do 3 right; left; reflexivity].
    + split; [destruct (uiAmountToAmountForInterestBearingMintWithoutSimulation
                          _ _ _ _ _ _ _ _); reflexivity
             | do 4 right; left; reflexivity].
    + split; [reflexivity | do 3 right; left; reflexivity].
    + split; [reflexivity | do 3 right; left; reflexivity].
  - destruct (getParsedAccountInfo connection SYSVAR_CLOCK_PUBKEY)
      as [e | [[now | bytes] | ]]; cbn [fst app].
    + split; [reflexivity | do 3 right; left; reflexivity].
    + split; [destruct (uiAmountToAmountForScaledUiAmountMintWithoutSimulation
                          _ _ _); reflexivity
             | do 5 right; eexists; reflexivity].
    + split; [reflexivity | do 3 right; left; reflexivity].
    + split; [reflexivity | do 3 right; left; reflexivity].
  - cbn [fst app]. split; [destruct (BigInt _); reflexivity
                          | do 2 right; left; reflexivity].
Qed.

(** X5.  On a scaled mint the inverse dispatch selects the multiplier as
    the forward dispatch does: [multiplier] when the clock is strictly
    before [newMultiplierEffectiveTimestamp] or is [NaN], [newMultiplier]
    when it is at or after it; a result that is not an integral Number is
    thrown as a [RangeError]. *)
Theorem inverse_scaled_multiplier_by_timestamp
  (connection : Connection) (accountInfo : option AccountInfo) (m : Mint)
  (now : number) (sc : ScaledUiAmountConfig) (uiAmount : string) :
  getAccountInfo connection mint = inr accountInfo ->
  invalid_owner TOKEN_PROGRAM_ID TOKEN_2022_PROGRAM_ID accountInfo = false ->
  unpackMint mint accountInfo (programId_of accountInfo) = inr m ->
  getParsedAccountInfo connection SYSVAR_CLOCK_PUBKEY
  = inr (Some (ParsedData now)) ->
  getInterestBearingMintConfigState m = None ->
  getScaledUiAmountConfig m = Some sc ->
  let effective := Number_of_bigint (newMultiplierEffectiveTimestamp sc) in
  let result multiplier :=
    match uiAmountToAmountForScaledUiAmountMintWithoutSimulation
            uiAmount (decimals m) multiplier with
    | Some z => inr z
    | None => inl RangeError
    end in
  (ltb now effective = true \/ is_nan now = true ->
   snd (run (inverse connection uiAmount)) = result (multiplier sc))
  /\ (geb now effective = true ->
      snd (run (inverse connection uiAmount)) = result (newMultiplier sc)).
Proof.
  intros Hacct Hown Hdec Hclock Hib Hsc effective result.
  assert (Hrun : snd (run (inverse connection uiAmount))
                 = result (if geb now effective
                           then newMultiplier sc else multiplier sc)).
  { subst result effective. unfold_dispatch.
    rewrite Hacct, Hown, Hdec, Hib, Hsc, Hclock. cbv beta.
    destruct (uiAmountToAmountForScaledUiAmountMintWithoutSimulation _ _ _);
      reflexivity. }
  split.
  - intros [Hlt | Hnan]; rewrite Hrun.
    + rewrite (ltb_not_geb _ _ Hlt). reflexivity.
    + destruct now; try discriminate Hnan. reflexivity.
  - intros Hge. rewrite Hrun, Hge. reflexivity.
Qed.

End DispatchSteps.

Lemma dispatch_rejects_missing_account_witness :
  Fixture.forward_on Fixture.empty_connection (Fixture.plain_mint 6) 1
  = ([EvGetAccountInfo Fixture.mint_address], inl InvalidProgramID)
  /\ Fixture.inverse_on Fixture.empty_connection (Fixture.plain_mint 6) "1"
     = ([EvGetAccountInfo Fixture.mint_address], inl InvalidProgramID).
Proof.
  apply (dispatch_rejects_missing_account
           Fixture.Math_exp Fixture.Mint Fixture.decimals
           (Fixture.unpackMint (Fixture.plain_mint 6))
           Fixture.interestBearing Fixture.scaledUiAmount
           Fixture.TOKEN_PROGRAM_ID Fixture.TOKEN_2022_PROGRAM_ID
           Fixture.mint_address Fixture.empty_connection 1 "1").
  reflexivity.
Defined.

Lemma plain_dispatch_ignores_clock_witness :
  let broken :=
    Fixture.connection_with_clock Fixture.TOKEN_PROGRAM_ID (inr None) in
  let working := Fixture.connection Fixture.TOKEN_PROGRAM_ID (F 0) in
  Fixture.forward_on broken (Fixture.plain_mint 6) 1500000
  = Fixture.forward_on working (Fixture.plain_mint 6) 1500000
  /\ Fixture.inverse_on broken (Fixture.plain_mint 6) "1.5"
     = Fixture.inverse_on working (Fixture.plain_mint 6) "1.5"
  /\ fst (Fixture.forward_on working (Fixture.plain_mint 6) 1500000)
     = [EvGetAccountInfo Fixture.mint_address; EvUnpackMint;
        EvGetInterestBearingMintConfigState; EvGetScaledUiAmountConfig;
        EvConvertPlain]
  /\ fst (Fixture.inverse_on working (Fixture.plain_mint 6) "1.5")
     = [EvGetAccountInfo Fixture.mint_address; EvUnpackMint;
        EvGetInterestBearingMintConfigState; EvGetScaledUiAmountConfig;
        EvConvertPlain].
Proof.
  exact (plain_dispatch_ignores_clock
           Fixture.Math_exp Fixture.Mint Fixture.decimals
           (Fixture.unpackMint (Fixture.plain_mint 6))
           Fixture.interestBearing Fixture.scaledUiAmount
           Fixture.TOKEN_PROGRAM_ID Fixture.TOKEN_2022_PROGRAM_ID
           Fixture.mint_address
           (Fixture.connection Fixture.TOKEN_PROGRAM_ID (F 0))
           (Fixture.connection_with_clock Fixture.TOKEN_PROGRAM_ID (inr None))
           (Some {| owner := Fixture.TOKEN_PROGRAM_ID; data := [] |})
           (Fixture.plain_mint 6) 1500000 "1.5"
           eq_refl eq_refl eq_refl eq_refl eq_refl eq_refl).
Defined.

Lemma extension_dispatch_needs_clock_witness :
  let connection :=
    Fixture.connection_with_clock Fixture.TOKEN_2022_PROGRAM_ID
      (inr (Some (RawData []))) in
  let steps :=
    [EvGetAccountInfo Fixture.mint_address; EvUnpackMint;
     EvGetInterestBearingMintConfigState; EvGetScaledUiAmountConfig;
     EvGetSysvarClock] in
  Fixture.forward_on connection Fixture.scaled_mint 1500000
  = (steps, inl FailedToParseSysvarClock)
  /\ Fixture.inverse_on connection Fixture.scaled_mint "1.5"
     = (steps, inl FailedToParseSysvarClock).
Proof.
  refine (extension_dispatch_needs_clock
            Fixture.Math_exp Fixture.Mint Fixture.decimals
            (Fixture.unpackMint Fixture.scaled_mint)
            Fixture.interestBearing Fixture.scaledUiAmount
            Fixture.TOKEN_PROGRAM_ID Fixture.TOKEN_2022_PROGRAM_ID
            Fixture.mint_address
            (Fixture.connection_with_clock Fixture.TOKEN_2022_PROGRAM_ID
               (inr (Some (RawData []))))
            (Some {| owner := Fixture.TOKEN_2022_PROGRAM_ID; data := [] |})
            Fixture.scaled_mint 1500000 "1.5" (inr (Some (RawData [])))
            eq_refl eq_refl eq_refl _ eq_refl _).
  - right. discriminate.
  - intros now. discriminate.
Defined.

Lemma inverse_scaled_multiplier_by_timestamp_witness :
  snd (Fixture.inverse Fixture.scaled_mint Fixture.TOKEN_2022_PROGRAM_ID
         (F 999) "3")
  = match uiAmountToAmountForScaledUiAmountMintWithoutSimulation
            "3" 6 (F 2) with
    | Some z => inr z
    | None => inl RangeError
    end
  /\ snd (Fixture.inverse Fixture.scaled_mint Fixture.TOKEN_2022_PROGRAM_ID
            (F 1000) "3")
     = match uiAmountToAmountForScaledUiAmountMintWithoutSimulation
               "3" 6 (F 3) with
       | Some z => inr z
       | None => inl RangeError
       end.
Proof.
  split.
  - refine (proj1 (inverse_scaled_multiplier_by_timestamp
             Fixture.Math_exp Fixture.Mint Fixture.decimals
             (Fixture.unpackMint Fixture.scaled_mint)
             Fixture.interestBearing Fixture.scaledUiAmount
             Fixture.TOKEN_PROGRAM_ID Fixture.TOKEN_2022_PROGRAM_ID
             Fixture.mint_address
             (Fixture.connection Fixture.TOKEN_2022_PROGRAM_ID (F 999))
             (Some {| owner := Fixture.TOKEN_2022_PROGRAM_ID; data := [] |})
             Fixture.scaled_mint (F 999)
             {| multiplier := F 2; newMultiplierEffectiveTimestamp := 1000;
                newMultiplier := F 3 |} "3"
             eq_refl eq_refl eq_refl eq_refl eq_refl eq_refl) _).
    left. vm_compute. reflexivity.
  - refine (proj2 (inverse_scaled_multiplier_by_timestamp
             Fixture.Math_exp Fixture.Mint Fixture.decimals
             (Fixture.unpackMint Fixture.scaled_mint)
             Fixture.interestBearing Fixture.scaledUiAmount
             Fixture.TOKEN_PROGRAM_ID Fixture.TOKEN_2022_PROGRAM_ID
             Fixture.mint_address
             (Fixture.connection Fixture.TOKEN_2022_PROGRAM_ID (F 1000))
             (Some {| owner := Fixture.TOKEN_2022_PROGRAM_ID; data := [] |})
             Fixture.scaled_mint (F 1000)
             {| multiplier := F 2; newMultiplierEffectiveTimestamp := 1000;
                newMultiplier := F 3 |} "3"
             eq_refl eq_refl eq_refl eq_refl eq_refl eq_refl) _).
    vm_compute. reflexivity.
Defined.

(** ** The conversions: unusable inputs and neutral factors *)

(** X6.  A string of ASCII characters that [parseFloat] reads as [NaN] or
    as an infinity is rejected by each of the three inverse conversions: the
    final [BigInt] throws a [RangeError], whatever the decimals, the
    multiplier, the rates and the timestamps.  A string of ASCII characters
    is its own encoding, so that the statement does not depend on how the
    characters beyond ASCII are represented. *)
Theorem inverse_rejects_unparsable
  (Math_exp : number -> number) (uiAmount : string) (decimals : Z) :
  ascii_only uiAmount = true ->
  is_finite (parseFloat uiAmount) = false ->
  BigInt (Math_trunc (uiAmountToAtomicUiAmount uiAmount decimals)) = None
  /\ (forall multiplier,
        uiAmountToAmountForScaledUiAmountMintWithoutSimulation
          uiAmount decimals multiplier = None)
  /\ (forall now last init pre cur,
        uiAmountToAmountForInterestBearingMintWithoutSimulation
          Math_exp uiAmount decimals now last init pre cur = None).
Proof.
  intros _ H.
  assert (Hs : is_finite (uiAmountToAtomicUiAmount uiAmount decimals) = false)
    by (apply mul_nonfinite_l; exact H).
  split; [ | split].
  - apply BigInt_trunc_nonfinite, Hs.
  - intros multiplier.
    apply BigInt_trunc_nonfinite, div_nonfinite_l, Hs.
  - intros now last init pre cur.
    apply BigInt_trunc_nonfinite, div_nonfinite_l, Hs.
Qed.

Lemma inverse_rejects_unparsable_witness :
  BigInt (Math_trunc (uiAmountToAtomicUiAmount "abc" 6)) = None
  /\ (forall multiplier,
        uiAmountToAmountForScaledUiAmountMintWithoutSimulation
          "abc" 6 multiplier = None)
  /\ (forall now last init pre cur,
        uiAmountToAmountForInterestBearingMintWithoutSimulation
          Fixture.Math_exp "abc" 6 now last init pre cur = None).
Proof.
  apply (inverse_rejects_unparsable Fixture.Math_exp "abc" 6).
  - reflexivity.
  - vm_compute. reflexivity.
Defined.

(** X7.  A scaled mint whose multiplier is a zero shows every amount of
    magnitude up to [2^53] as 0 and converts no string back: the inverse
    conversion divides by the zero and throws a [RangeError]. *)
Theorem scaled_zero_multiplier
  (s : bool) (amount decimals : Z) (uiAmount : string) :
  Z.abs amount <= 2 ^ 53 -> 0 <= decimals <= 18 ->
  amountToUiAmountForScaledUiAmountMintWithoutSimulation
    amount decimals (S754_zero s) = "0"%string
  /\ uiAmountToAmountForScaledUiAmountMintWithoutSimulation
       uiAmount decimals (S754_zero s) = None.
Proof.
  intros Ha Hd. split.
  - unfold amountToUiAmountForScaledUiAmountMintWithoutSimulation,
      getDecimalFactor.
    destruct (Number_of_bigint_exact amount Ha) as [Hf _].
    destruct (mul_finite_zero _ s Hf) as [s' ->].
    destruct (pow10_exact decimals Hd) as (p & e & -> & _). reflexivity.
  - unfold uiAmountToAmountForScaledUiAmountMintWithoutSimulation.
    apply BigInt_trunc_nonfinite, div_by_zero.
Qed.

Lemma scaled_zero_multiplier_witness :
  amountToUiAmountForScaledUiAmountMintWithoutSimulation
    1500000 6 (S754_zero false) = "0"%string
  /\ uiAmountToAmountForScaledUiAmountMintWithoutSimulation
       "1.5" 6 (S754_zero false) = None.
Proof.
  apply (scaled_zero_multiplier false 1500000 6 "1.5").
  - vm_compute. discriminate.
  - lia.
Defined.

(** X8.  With the multiplier 1 the scaled conversions are the conversions
    of a mint without extensions, in both directions and for every input. *)
Theorem scaled_unit_multiplier_is_plain
  (amount decimals : Z) (uiAmount : string) :
  amountToUiAmountForScaledUiAmountMintWithoutSimulation
    amount decimals (F 1)
  = Number_toString (div (Number_of_bigint amount) (getDecimalFactor decimals))
  /\ uiAmountToAmountForScaledUiAmountMintWithoutSimulation
       uiAmount decimals (F 1)
     = BigInt (Math_trunc (uiAmountToAtomicUiAmount uiAmount decimals)).
Proof.
  unfold amountToUiAmountForScaledUiAmountMintWithoutSimulation,
    uiAmountToAmountForScaledUiAmountMintWithoutSimulation. split.
  - rewrite (mul_one_r _ (Number_of_bigint_valid amount)).
    rewrite Math_trunc_Number_of_bigint. reflexivity.
  - unfold uiAmountToAtomicUiAmount.
    rewrite (div_one_r _ (mul_valid _ _)). reflexivity.
Qed.

(** X9.  With both rates zero and finite time spans the interest-bearing
    conversions are the conversions of a mint without extensions, in both
    directions, for a [Math.exp] that maps the zeros to 1. *)
Theorem zero_rate_is_plain
  (Math_exp : number -> number) (amount decimals : Z) (uiAmount : string)
  (now last init : number) (sp sc : bool) :
  (forall s, Math_exp (S754_zero s) = F 1) ->
  is_finite (sub last init) = true ->
  is_finite (sub now last) = true ->
  amountToUiAmountForInterestBearingMintWithoutSimulation
    Math_exp amount decimals now last init (S754_zero sp) (S754_zero sc)
  = Number_toString (div (Number_of_bigint amount) (getDecimalFactor decimals))
  /\ uiAmountToAmountForInterestBearingMintWithoutSimulation
       Math_exp uiAmount decimals now last init (S754_zero sp) (S754_zero sc)
     = BigInt (Math_trunc (uiAmountToAtomicUiAmount uiAmount decimals)).
Proof.
  intros Hzero H1 H2.
  assert (He : forall t1 t2 s,
             is_finite (sub t2 t1) = true ->
             calculateExponentForTimesAndRate Math_exp t1 t2 (S754_zero s)
             = F 1).
  { intros t1 t2 s Hf. rewrite exponent_formula. unfold spec_exponent.
    destruct exponent_divisor as (pc & ec & ->).
    destruct (mul_zero_l s _ Hf) as [s' ->]. apply Hzero. }
  assert (H11 : mul (F 1) (F 1) = F 1) by (vm_compute; reflexivity).
  unfold amountToUiAmountForInterestBearingMintWithoutSimulation,
    uiAmountToAmountForInterestBearingMintWithoutSimulation.
  rewrite (He init last sp H1), (He last now sc H2), H11. split.
  - rewrite (mul_one_r _ (Number_of_bigint_valid amount)).
    rewrite Math_trunc_Number_of_bigint. reflexivity.
  - unfold uiAmountToAtomicUiAmount.
    rewrite (div_one_r _ (mul_valid _ _)). reflexivity.
Qed.

Lemma zero_rate_is_plain_witness :
  amountToUiAmountForInterestBearingMintWithoutSimulation
    Fixture.Math_exp 1500000 6 (F 31556736) (F 1000) (F 0)
    (S754_zero false) (S754_zero false)
  = Number_toString (div (Number_of_bigint 1500000) (getDecimalFactor 6))
  /\ uiAmountToAmountForInterestBearingMintWithoutSimulation
       Fixture.Math_exp "1.5" 6 (F 31556736) (F 1000) (F 0)
       (S754_zero false) (S754_zero false)
     = BigInt (Math_trunc (uiAmountToAtomicUiAmount "1.5" 6)).
Proof.
  apply (zero_rate_is_plain Fixture.Math_exp 1500000 6 "1.5"
           (F 31556736) (F 1000) (F 0) false false).
  - intros s. reflexivity.
  - vm_compute. reflexivity.
  - vm_compute. reflexivity.
Defined.

(** X10.  Interest never shows less than the principal: for a positive
    amount, finite rates that are not negative and finite time spans that
    are not negative, the Number the interest-bearing conversion prints is
    at least the Number the conversion of a mint without extensions prints,
    for a [Math.exp] that maps the zeros to 1 and preserves the order. *)
Theorem interest_never_shows_less
  (Math_exp : number -> number) (amount decimals : Z)
  (now last init pre cur : number) :
  (forall s, Math_exp (S754_zero s) = F 1) ->
  (forall x y, leb x y = true -> leb (Math_exp x) (Math_exp y) = true) ->
  0 < amount -> 0 <= decimals <= 18 ->
  is_finite pre = true -> leb (F 0) pre = true ->
  is_finite cur = true -> leb (F 0) cur = true ->
  is_finite (sub last init) = true -> leb (F 0) (sub last init) = true ->
  is_finite (sub now last) = true -> leb (F 0) (sub now last) = true ->
  let totalScale :=
    mul (calculateExponentForTimesAndRate Math_exp init last pre)
        (calculateExponentForTimesAndRate Math_exp last now cur) in
  let shown :=
    div (Math_trunc (mul (Number_of_bigint amount) totalScale))
        (getDecimalFactor decimals) in
  amountToUiAmountForInterestBearingMintWithoutSimulation
    Math_exp amount decimals now last init pre cur
  = Number_toString shown
  /\ leb (div (Number_of_bigint amount) (getDecimalFactor decimals)) shown
     = true.
Proof.
  intros Hzero Hmono Ha Hd Fp Np Fc Nc F1 N1 F2 N2 totalScale shown.
  assert (He : forall t1 t2 r,
             is_finite r = true -> leb (F 0) r = true ->
             is_finite (sub t2 t1) = true -> leb (F 0) (sub t2 t1) = true ->
             leb (F 1) (calculateExponentForTimesAndRate Math_exp t1 t2 r)
             = true).
  { intros t1 t2 r Fr Nr Fs' Ns. rewrite exponent_formula.
    unfold spec_exponent. destruct exponent_divisor as (pc & ec & ->).
    destruct r as [s | s | | s m e]; try discriminate Fr.
    - destruct (mul_zero_l s _ Fs') as [s' ->].
      change (div (S754_zero s') (S754_finite false pc ec))
        with (S754_zero (xorb s' false)).
      rewrite Hzero. apply leb_refl_F_one.
    - destruct s.
      { exfalso. apply leb_finite in Nr; [ | reflexivity | reflexivity].
        pose proof (Rabs_finite_pos true m e) as P.
        change (R (S754_finite true m e))
          with (- Rabs (S754_finite true m e))%Q in Nr.
        change (R (F 0)) with 0%Q in Nr. lra. }
      rewrite <- (Hzero false).
      apply Hmono.
      change (S754_zero false)
        with (div (mul (S754_finite false m e) (F 0))
                  (S754_finite false pc ec)).
      apply div_mono_r. apply (mul_mono_l false m e _ _ Ns). }
  split; [reflexivity | ].
  subst shown. unfold getDecimalFactor.
  destruct (pow10_exact decimals Hd) as (p & e & -> & _).
  apply div_mono_r.
  rewrite <- (Math_trunc_Number_of_bigint amount) at 1.
  apply Math_trunc_mono, mul_amount_at_least_one; [exact Ha | ].
  apply mul_at_least_one; apply He; assumption.
Qed.

Lemma interest_never_shows_less_witness :
  let totalScale :=
    mul (calculateExponentForTimesAndRate Fixture.Math_exp (F 0) (F 1000) (F 500))
        (calculateExponentForTimesAndRate Fixture.Math_exp
           (F 1000) (F 31556736) (F 500)) in
  let shown :=
    div (Math_trunc (mul (Number_of_bigint 1500000) totalScale))
        (getDecimalFactor 6) in
  amountToUiAmountForInterestBearingMintWithoutSimulation
    Fixture.Math_exp 1500000 6 (F 31556736) (F 1000) (F 0) (F 500) (F 500)
  = Number_toString shown
  /\ leb (div (Number_of_bigint 1500000) (getDecimalFactor 6)) shown = true.
Proof.
  apply (interest_never_shows_less Fixture.Math_exp 1500000 6
           (F 31556736) (F 1000) (F 0) (F 500) (F 500)).
  - intros s. reflexivity.
  - exact fixture_exp_mono.
  - lia.
  - lia.
  - vm_compute. reflexivity.
  - vm_compute. reflexivity.
  - vm_compute. reflexivity.
  - vm_compute. reflexivity.
  - vm_compute. reflexivity.
  - vm_compute. reflexivity.
  - vm_compute. reflexivity.
  - vm_compute. reflexivity.
Defined.

(** X11.  On a mint without extensions and with at most eighteen decimals,
    the round trip of a non-negative amount below [2^52] through the
    forward and the inverse dispatch never returns more than the amount:
    it returns the amount or one unit less. *)
Theorem plain_round_trip_never_gains
  (Math_exp : number -> number) (Mint : Type) (decimals : Mint -> Z)
  (unpackMint : PublicKey -> option AccountInfo -> PublicKey -> Error + Mint)
  (getInterestBearingMintConfigState :
     Mint -> option InterestBearingMintConfigState)
  (getScaledUiAmountConfig : Mint -> option ScaledUiAmountConfig)
  (TOKEN_PROGRAM_ID TOKEN_2022_PROGRAM_ID : PublicKey)
  (connection : Connection) (mint : PublicKey)
  (accountInfo : option AccountInfo) (m : Mint) (amount : Z) :
  getAccountInfo connection mint = inr accountInfo ->
  invalid_owner TOKEN_PROGRAM_ID TOKEN_2022_PROGRAM_ID accountInfo = false ->
  unpackMint mint accountInfo (programId_of accountInfo) = inr m ->
  getInterestBearingMintConfigState m = None ->
  getScaledUiAmountConfig m = None ->
  0 <= decimals m <= 18 ->
  0 <= amount < 2 ^ 52 ->
  exists (uiAmount : string) (back : Z),
    snd (run (amountToUiAmountForMintWithoutSimulation
                Math_exp Mint decimals unpackMint
                getInterestBearingMintConfigState getScaledUiAmountConfig
                TOKEN_PROGRAM_ID TOKEN_2022_PROGRAM_ID connection mint amount))
    = inr uiAmount
    /\ snd (run (uiAmountToAmountForMintWithoutSimulation
                   Math_exp Mint decimals unpackMint
                   getInterestBearingMintConfigState getScaledUiAmountConfig
                   TOKEN_PROGRAM_ID TOKEN_2022_PROGRAM_ID connection mint
                   uiAmount))
       = inr back
    /\ (back = amount \/ back = amount - 1).
Proof.
  intros Hacct Hown Hdec Hib Hsc Hd Ha.
  set (uiAmount :=
         Number_toString
           (div (Number_of_bigint amount) (Math_pow10 (decimals m)))).
  assert (Hparse : parseFloat uiAmount
                   = div (Number_of_bigint amount) (Math_pow10 (decimals m)))
    by (apply StringFacts.quotient_parseFloat_toString; [lia | assumption]).
  destruct (plain_round_trip_core_below amount (decimals m) Ha Hd)
    as (back & Hb & Hclose).
  exists uiAmount, back. split; [ | split; [ | exact Hclose]].
  - apply (forward_plain Math_exp Mint decimals unpackMint
             getInterestBearingMintConfigState getScaledUiAmountConfig
             TOKEN_PROGRAM_ID TOKEN_2022_PROGRAM_ID connection mint
             accountInfo m Hacct Hown Hdec amount Hib Hsc).
  - rewrite (inverse_plain Math_exp Mint decimals unpackMint
               getInterestBearingMintConfigState getScaledUiAmountConfig
               TOKEN_PROGRAM_ID TOKEN_2022_PROGRAM_ID connection mint
               accountInfo m Hacct Hown Hdec uiAmount Hib Hsc).
    rewrite Hparse, Hb. reflexivity.
Qed.

Lemma plain_round_trip_never_gains_witness :
  (exists (uiAmount : string) (back : Z),
     snd (Fixture.forward (Fixture.plain_mint 2) Fixture.TOKEN_PROGRAM_ID
            (F 0) 115) = inr uiAmount
     /\ snd (Fixture.inverse (Fixture.plain_mint 2) Fixture.TOKEN_PROGRAM_ID
               (F 0) uiAmount) = inr back
     /\ (back = 115 \/ back = 115 - 1))
  /\ snd (Fixture.forward (Fixture.plain_mint 2) Fixture.TOKEN_PROGRAM_ID
            (F 0) 115) = inr "1.15"%string
  /\ snd (Fixture.inverse (Fixture.plain_mint 2) Fixture.TOKEN_PROGRAM_ID
            (F 0) "1.15") = inr 114.
Proof.
  split; [ | split; vm_compute; reflexivity].
  apply (plain_round_trip_never_gains
           Fixture.Math_exp Fixture.Mint Fixture.decimals
           (Fixture.unpackMint (Fixture.plain_mint 2))
           Fixture.interestBearing Fixture.scaledUiAmount
           Fixture.TOKEN_PROGRAM_ID Fixture.TOKEN_2022_PROGRAM_ID
           (Fixture.connection Fixture.TOKEN_PROGRAM_ID (F 0))
           Fixture.mint_address
           (Some {| owner := Fixture.TOKEN_PROGRAM_ID; data := [] |})
           (Fixture.plain_mint 2) 115
           eq_refl eq_refl eq_refl eq_refl eq_refl).
  - vm_compute. split; discriminate.
  - vm_compute. split; [discriminate | reflexivity].
Defined.

(** ** The reward endpoint *)

(** The product [amount * 10 ** 6] is exact for a whole amount of at most
    9007199254 tokens. *)
Lemma raw_amount_exact (n : Z) :
  0 <= n <= 9007199254 ->
  mul (Number_of_bigint n) (Math_pow10 6) = Number_of_bigint (n * 10 ^ 6).
Proof.
  intros Hn. destruct (Z.eq_dec n 0) as [-> | Nz]; [vm_compute; reflexivity | ].
  unfold Number_of_bigint.
  rewrite (F_pos_int n) by lia. rewrite (F_pos_int (n * 10 ^ 6)) by lia.
  destruct (Fs_exact_int false n) as (p & e & E & V); [lia | ].
  destruct (pow10_exact 6) as (pf & ef & Ef & Vf); [lia | ].
  rewrite E, Ef.
  change (mul (S754_finite false p e) (S754_finite false pf ef))
    with (Fs false (Rabs (S754_finite false p e)
                    * Rabs (S754_finite false pf ef))).
  apply Fs_comp. unfold Rabs. rewrite V, Vf, inject_Z_mult. reflexivity.
Qed.

Lemma In_firstn {A : Type} (x : A) (k : nat) (l : list A) :
  In x (firstn k l) -> In x l.
Proof.
  revert l. induction k as [ | k IH]; intros [ | y l] H; try contradiction.
  destruct H as [E | H]; [left; exact E | right; apply IH, H].
Qed.

Section RewardHandler.

Import Webhook.

Variable Ledger : Type.
Variable ToNumber : jsval -> number.
Variable new_PublicKey : jsval -> string + PublicKey.
Variable treasury : PublicKey.
Variable getOrCreateAssociatedTokenAccount :
  PublicKey -> PublicKey -> Ledger -> Ledger * (string + PublicKey).
Variable transfer :
  PublicKey -> PublicKey -> PublicKey -> number -> Ledger
  -> Ledger * (string + string).

Local Abbreviation reward :=
  (Reward.reward Ledger ToNumber new_PublicKey treasury
     getOrCreateAssociatedTokenAccount transfer).

(** X12.  The reward endpoint answers 400 exactly when the wallet or the
    amount of the body is missing or falsy (an amount of 0 included), and
    then it calls nothing and leaves the ledger as it was. *)
Theorem reward_requires_wallet_and_amount (req : Request) (ledger : Ledger) :
  let usable :=
    truthy (get (body req) "wallet") && truthy (get (body req) "amount") in
  (Reward.status (snd (reward req ledger)) = 400 <-> usable = false)
  /\ (usable = false ->
      reward req ledger
      = (ledger, [],
         {| Reward.status := 400;
            Reward.json := Reward.Failure "Missing wallet or amount" |})).
Proof.
  cbv zeta. unfold Reward.reward.
  destruct (truthy (get (body req) "wallet")) eqn:Hw;
    destruct (truthy (get (body req) "amount")) eqn:Ha; cbn [negb orb andb];
    try (split; [split; reflexivity | reflexivity]).
  split; [ | discriminate].
  destruct (new_PublicKey _) as [msg | userWallet];
    [split; discriminate | ].
  destruct (getOrCreateAssociatedTokenAccount _ treasury ledger)
    as [l1 [msg | from]]; [split; discriminate | ].
  destruct (getOrCreateAssociatedTokenAccount _ userWallet l1)
    as [l2 [msg | to]]; [split; discriminate | ].
  destruct (transfer _ _ _ _ l2) as [l3 [msg | sig]]; split; discriminate.
Qed.

(** The calls of the handler are an initial part of its three calls, and
    all three were made when it answers 200. *)
Lemma reward_calls_prefix (req : Request) (ledger : Ledger) :
  exists (userWallet source destination : PublicKey) (k : nat),
    let sequence :=
      [Reward.GetOrCreateAssociatedTokenAccount Reward.HUM_MINT treasury;
       Reward.GetOrCreateAssociatedTokenAccount Reward.HUM_MINT userWallet;
       Reward.Transfer source destination treasury
         (mul (ToNumber (get (body req) "amount")) (Math_pow10 6))] in
    snd (fst (reward req ledger)) = firstn k sequence
    /\ (Reward.status (snd (reward req ledger)) = 200 ->
        snd (fst (reward req ledger)) = sequence).
Proof.
  cbv zeta. unfold Reward.reward.
  destruct (negb (truthy (get (body req) "wallet"))
            || negb (truthy (get (body req) "amount"))).
  { exists EmptyString, EmptyString, EmptyString, 0%nat.
    split; [reflexivity | discriminate]. }
  destruct (new_PublicKey _) as [msg | userWallet].
  { exists EmptyString, EmptyString, EmptyString, 0%nat.
    split; [reflexivity | discriminate]. }
  destruct (getOrCreateAssociatedTokenAccount _ treasury ledger)
    as [l1 [msg | from]].
  { exists userWallet, EmptyString, EmptyString, 1%nat.
    split; [reflexivity | discriminate]. }
  destruct (getOrCreateAssociatedTokenAccount _ userWallet l1)
    as [l2 [msg | to]].
  { exists userWallet, EmptyString, EmptyString, 2%nat.
    split; [reflexivity | discriminate]. }
  destruct (transfer _ _ _ _ l2) as [l3 [msg | sig]];
    exists userWallet, from, to, 3%nat;
    (split; [reflexivity | ]); [discriminate | reflexivity].
Qed.


(** X14.  For a whole amount of 1 to 9007199254 tokens the amount that the
    reward endpoint hands to [transfer] is the integer [amount * 10^6],
    exactly. *)
Theorem reward_transfers_exact_amount
  (req : Request) (ledger : Ledger) (n : Z)
  (source destination owner : PublicKey) (amount : number) :
  ToNumber (get (body req) "amount") = Number_of_bigint n ->
  0 < n <= 9007199254 ->
  In (Reward.Transfer source destination owner amount)
     (snd (fst (reward req ledger))) ->
  amount = Number_of_bigint (n * 10 ^ 6)
  /\ BigInt amount = Some (n * 10 ^ 6).
Proof.
  intros Hn Hb Hin.
  assert (E : amount = Number_of_bigint (n * 10 ^ 6)).
  { rewrite <- raw_amount_exact by lia. rewrite <- Hn.
    destruct (reward_calls_prefix req ledger) as (u & s & d & k & Hk & _).
    cbv zeta in Hk. rewrite Hk in Hin. apply In_firstn in Hin.
    destruct Hin as [C | [C | [C | []]]]; try discriminate C.
    injection C as _ _ _ C. symmetry. exact C. }
  split; [exact E | ]. rewrite E. unfold Number_of_bigint.
  rewrite F_pos_int by lia. apply (BigInt_Fs_int false). lia.
Qed.

End RewardHandler.

Lemma reward_requires_wallet_and_amount_witness :
  let req :=
    Fixture.reward_body (Webhook.JString "wallet") (Webhook.JNumber (F 0)) in
  (Reward.status (snd (Fixture.reward_endpoint req 0%nat)) = 400
   <-> Webhook.truthy (Webhook.get (Webhook.body req) "wallet")
       && Webhook.truthy (Webhook.get (Webhook.body req) "amount") = false)
  /\ (Webhook.truthy (Webhook.get (Webhook.body req) "wallet")
      && Webhook.truthy (Webhook.get (Webhook.body req) "amount") = false ->
      Fixture.reward_endpoint req 0%nat
      = (0%nat, [],
         {| Reward.status := 400;
            Reward.json := Reward.Failure "Missing wallet or amount" |})).
Proof.
  exact (reward_requires_wallet_and_amount
           nat Fixture.ToNumber Fixture.new_PublicKey Fixture.treasury
           Fixture.getOrCreateAssociatedTokenAccount Fixture.transfer
           (Fixture.reward_body (Webhook.JString "wallet")
              (Webhook.JNumber (F 0))) 0%nat).
Defined.


Lemma reward_transfers_exact_amount_witness :
  mul (F 5) (Math_pow10 6) = Number_of_bigint (5 * 10 ^ 6)
  /\ BigInt (mul (F 5) (Math_pow10 6)) = Some (5 * 10 ^ 6).
Proof.
  apply (reward_transfers_exact_amount
           nat Fixture.ToNumber Fixture.new_PublicKey Fixture.treasury
           Fixture.getOrCreateAssociatedTokenAccount Fixture.transfer
           (Fixture.reward_body (Webhook.JString "wallet")
              (Webhook.JNumber (F 5))) 0%nat 5
           Fixture.treasury "wallet"%string Fixture.treasury).
  - reflexivity.
  - lia.
  - right. right. left. reflexivity.
Defined.

(** ** The AdGem webhook and the reward endpoint together *)

Ltac settle_outcome :=
  try assumption; try reflexivity; try discriminate;
  try (intros [C | C]; discriminate C);
  try (intros [r C]; discriminate C);
  try (left; reflexivity); try (right; reflexivity);
  try (intros _; left; reflexivity); try (intros _; right; reflexivity);
  try (intros _; eexists; reflexivity).

Section WebhookHandler.

Import Webhook.

Variable ToNumber : jsval -> number.

(** X15.  The webhook answers 400 exactly when [player_id] is missing or
    falsy, whatever the secret; it calls the reward endpoint not at all when
    it answers 400 or 401 and exactly once otherwise, with the [player_id]
    as the wallet and an amount that is never [NaN] and never the negative
    zero; it then answers 200 when the call gave a body and 500 when the
    call failed. *)
Theorem webhook_calls_reward_once
  (fetch_reward : RewardCall -> string + jsval) (req : Request) :
  let outcome := adgem_webhook ToNumber fetch_reward req in
  let n := ToNumber (get (body req) "amount") in
  let call :=
    {| call_wallet := get (body req) "player_id";
       call_amount := if truthy (JNumber n) then n else F 0 |} in
  (status (snd outcome) = 400 <-> truthy (get (body req) "player_id") = false)
  /\ (fst outcome = []
      <-> status (snd outcome) = 400 \/ status (snd outcome) = 401)
  /\ (fst outcome = [] \/ fst outcome = [call])
  /\ (fst outcome = [call] ->
      (status (snd outcome) = 200 <-> exists result, fetch_reward call = inr result)
      /\ (status (snd outcome) = 500
          <-> exists message, fetch_reward call = inl message))
  /\ is_nan (call_amount call) = false
  /\ call_amount call <> neg_zero.
Proof.
  cbv zeta.
  assert (Hamount :
            let n := ToNumber (get (body req) "amount") in
            is_nan (if truthy (JNumber n) then n else F 0) = false
            /\ (if truthy (JNumber n) then n else F 0) <> neg_zero).
  { cbv zeta. destruct (ToNumber (get (body req) "amount")) as [s | s | | s m e];
      cbn [truthy]; split; try reflexivity; discriminate. }
  cbv zeta in Hamount. destruct Hamount as [Hnan Hneg].
  cbn [call_amount]. unfold adgem_webhook.
  destruct (truthy (get (body req) "player_id")) eqn:Hp; cbn [negb].
  2:{ cbn [fst snd status]. repeat apply conj; settle_outcome. }
  change (truthy (JString ADGEM_KEY)) with true. cbn [andb].
  destruct (truthy (secret_of req) && strict_neq (secret_of req) ADGEM_KEY).
  { cbn [fst snd status]. repeat apply conj; settle_outcome. }
  destruct (fetch_reward _) as [message | result] eqn:Hf; cbn [fst snd status];
    repeat apply conj; settle_outcome.
  all: intros _; repeat apply conj; settle_outcome.
Qed.

(** X16.  A truthy [secret] of the query is the secret of the request: the
    [x-adgem-secret] header is then not consulted, so that replacing the
    headers does not change the outcome; the header counts only when the
    query has no [secret] or a falsy one. *)
Theorem webhook_query_secret_first
  (fetch_reward : RewardCall -> string + jsval) (req : Request) :
  (truthy (get (query req) "secret") = true ->
   secret_of req = get (query req) "secret"
   /\ forall other : list (string * jsval),
        adgem_webhook ToNumber fetch_reward
          {| body := body req; query := query req; headers := other |}
        = adgem_webhook ToNumber fetch_reward req)
  /\ (truthy (get (query req) "secret") = false ->
      secret_of req = get (headers req) "x-adgem-secret").
Proof.
  split; intros H.
  - split.
    + unfold secret_of, js_or. rewrite H. reflexivity.
    + intros other. unfold adgem_webhook, secret_of, js_or.
      cbn [body query headers]. rewrite H. reflexivity.
  - unfold secret_of, js_or. rewrite H. reflexivity.
Qed.

Variable Ledger : Type.
Variable new_PublicKey : jsval -> string + PublicKey.
Variable treasury : PublicKey.
Variable getOrCreateAssociatedTokenAccount :
  PublicKey -> PublicKey -> Ledger -> Ledger * (string + PublicKey).
Variable transfer :
  PublicKey -> PublicKey -> PublicKey -> number -> Ledger
  -> Ledger * (string + string).
Variable encode : Reward.Response -> jsval.

Local Abbreviation reward :=
  (Reward.reward Ledger ToNumber new_PublicKey treasury
     getOrCreateAssociatedTokenAccount transfer).

Local Abbreviation fetch ledger :=
  (Reward.fetch Ledger ToNumber new_PublicKey treasury
     getOrCreateAssociatedTokenAccount transfer encode ledger).

(** X17.  When the webhook reaches the reward endpoint of this server, a
    request that passes its two checks is answered 200 with the body of the
    reward endpoint inside, whatever the reward endpoint answered.  In
    particular, when the [amount] of the webhook is 0, not a number or
    infinite, the reward endpoint receives an amount that is falsy, answers
    400 and transfers nothing, and the webhook still reports success. *)
Theorem webhook_success_hides_reward_failure
  (req : Request) (ledger : Ledger) :
  truthy (get (body req) "player_id") = true ->
  truthy (secret_of req) && strict_neq (secret_of req) ADGEM_KEY = false ->
  let n := ToNumber (get (body req) "amount") in
  let call :=
    {| call_wallet := get (body req) "player_id";
       call_amount := if truthy (JNumber n) then n else F 0 |} in
  adgem_webhook ToNumber (fetch ledger) req
  = ([call],
     {| status := 200;
        json := SuccessBody
                  (encode (snd (reward (Reward.reward_request call) ledger))) |})
  /\ (truthy (JNumber n) && is_finite n = false ->
      reward (Reward.reward_request call) ledger
      = (ledger, [],
         {| Reward.status := 400;
            Reward.json := Reward.Failure "Missing wallet or amount" |})).
Proof.
  intros Hp Hs. cbv zeta. split.
  - unfold adgem_webhook. rewrite Hp. cbn [negb].
    change (truthy (JString ADGEM_KEY)) with true. cbn [andb].
    rewrite Hs. reflexivity.
  - intros Hn. unfold Reward.reward, Reward.reward_request.
    cbn [body call_wallet call_amount].
    change (get [("wallet"%string, ?w); ("amount"%string, ?a)] "amount")
      with a.
    assert (Ha : truthy
                   (Reward.through_json
                      (JNumber
                         (if truthy (JNumber (ToNumber (get (body req) "amount")))
                          then ToNumber (get (body req) "amount") else F 0)))
                 = false).
    { destruct (ToNumber (get (body req) "amount")) as [s | s | | s m e];
        try reflexivity. discriminate Hn. }
    cbn [get]. cbn [String.eqb Ascii.eqb Bool.eqb].
    cbn [get String.eqb Ascii.eqb Bool.eqb] in Ha |- *.
    rewrite Ha. rewrite orb_true_r. reflexivity.
Qed.

End WebhookHandler.

Lemma webhook_calls_reward_once_witness :
  let req :=
    Fixture.webhook_request (Webhook.JString "abc") Webhook.JUndefined
      Webhook.JUndefined in
  let outcome :=
    Webhook.adgem_webhook Fixture.ToNumber Fixture.fetch_reward req in
  Webhook.status (snd outcome) = 200
  /\ fst outcome
     = [{| Webhook.call_wallet := Webhook.JString "wallet";
           Webhook.call_amount := F 0 |}].
Proof.
  cbv zeta.
  pose proof (webhook_calls_reward_once Fixture.ToNumber Fixture.fetch_reward
                (Fixture.webhook_request (Webhook.JString "abc")
                   Webhook.JUndefined Webhook.JUndefined))
    as (_ & _ & _ & H & _).
  split.
  - apply H; [reflexivity | ]. exists Webhook.JNull. reflexivity.
  - reflexivity.
Defined.

Lemma webhook_query_secret_first_witness :
  let req :=
    Fixture.webhook_request (Webhook.JNumber (F 5)) (Webhook.JString "wrong")
      (Webhook.JString Webhook.ADGEM_KEY) in
  Webhook.secret_of req = Webhook.JString "wrong"
  /\ Webhook.status
       (snd (Webhook.adgem_webhook Fixture.ToNumber Fixture.fetch_reward req))
     = 401.
Proof.
  cbv zeta.
  pose proof (proj1 (webhook_query_secret_first
                       Fixture.ToNumber Fixture.fetch_reward
                       (Fixture.webhook_request (Webhook.JNumber (F 5))
                          (Webhook.JString "wrong")
                          (Webhook.JString Webhook.ADGEM_KEY))) eq_refl)
    as [H _].
  split; [exact H | reflexivity].
Defined.

Lemma webhook_success_hides_reward_failure_witness :
  let req :=
    Fixture.webhook_request (Webhook.JString "abc") Webhook.JUndefined
      Webhook.JUndefined in
  let call :=
    {| Webhook.call_wallet := Webhook.JString "wallet";
       Webhook.call_amount := F 0 |} in
  Webhook.adgem_webhook Fixture.ToNumber
    (Reward.fetch nat Fixture.ToNumber Fixture.new_PublicKey
       Fixture.treasury Fixture.getOrCreateAssociatedTokenAccount
       Fixture.transfer Fixture.encode 0%nat) req
  = ([call],
     {| Webhook.status := 200;
        Webhook.json := Webhook.SuccessBody Webhook.JObject |})
  /\ Fixture.reward_endpoint (Reward.reward_request call) 0%nat
     = (0%nat, [],
        {| Reward.status := 400;
           Reward.json := Reward.Failure "Missing wallet or amount" |}).
Proof.
  cbv zeta.
  pose proof (webhook_success_hides_reward_failure
                Fixture.ToNumber nat Fixture.new_PublicKey Fixture.treasury
                Fixture.getOrCreateAssociatedTokenAccount Fixture.transfer
                Fixture.encode
                (Fixture.webhook_request (Webhook.JString "abc")
                   Webhook.JUndefined Webhook.JUndefined) 0%nat
                eq_refl eq_refl) as [H1 H2].
  split; [exact H1 | exact (H2 eq_refl)].
Defined.

(** ** The order of amounts *)

Lemma mul_comm (x y : number) : mul x y = mul y x.
Proof.
  destruct x as [sx | sx | | sx mx ex]; destruct y as [sy | sy | | sy my ey];
    cbn [mul SFmul]; try reflexivity; try (rewrite (xorb_comm sx sy); reflexivity).
  rewrite (xorb_comm sx sy). apply Fs_comp. apply Qmult_comm.
Qed.

Lemma Number_of_bigint_mono (a a' : Z) :
  a <= a' -> leb (Number_of_bigint a) (Number_of_bigint a') = true.
Proof. intros H. apply leb_F. rewrite <- Zle_Qle. exact H. Qed.

(** X18.  The forward conversions keep the order of amounts: for
    [amount <= amount'] and at most eighteen decimals, the Number that the
    plain conversion prints for [amount] is at most the one it prints for
    [amount'], and so are the Numbers that the scaled conversion prints, for
    every finite positive multiplier, and those that the interest-bearing
    conversion prints, whenever the product of its two exponents is finite
    and positive.  Rounding may make two amounts print alike but never
    swaps them. *)
Theorem forward_conversions_keep_order
  (Math_exp : number -> number) (amount amount' decimals : Z) :
  amount <= amount' -> 0 <= decimals <= 18 ->
  let shown (factor : number) (a : Z) :=
    div (Math_trunc (mul (Number_of_bigint a) factor))
        (getDecimalFactor decimals) in
  leb (div (Number_of_bigint amount) (getDecimalFactor decimals))
      (div (Number_of_bigint amount') (getDecimalFactor decimals)) = true
  /\ (forall multiplier,
        is_finite multiplier = true -> ltb (F 0) multiplier = true ->
        (forall a,
           amountToUiAmountForScaledUiAmountMintWithoutSimulation
             a decimals multiplier
           = Number_toString (shown multiplier a))
        /\ leb (shown multiplier amount) (shown multiplier amount') = true)
  /\ (forall now last init pre cur,
        let totalScale :=
          mul (calculateExponentForTimesAndRate Math_exp init last pre)
              (calculateExponentForTimesAndRate Math_exp last now cur) in
        is_finite totalScale = true -> ltb (F 0) totalScale = true ->
        (forall a,
           amountToUiAmountForInterestBearingMintWithoutSimulation
             Math_exp a decimals now last init pre cur
           = Number_toString (shown totalScale a))
        /\ leb (shown totalScale amount) (shown totalScale amount') = true).
Proof.
  intros Ha Hd shown. subst shown. unfold getDecimalFactor.
  destruct (pow10_exact decimals Hd) as (p & e & Ep & _).
  pose proof (Number_of_bigint_mono amount amount' Ha) as Hn.
  assert (Hfactor : forall factor,
             is_finite factor = true -> ltb (F 0) factor = true ->
             leb (div (Math_trunc (mul (Number_of_bigint amount) factor))
                      (Math_pow10 decimals))
                 (div (Math_trunc (mul (Number_of_bigint amount') factor))
                      (Math_pow10 decimals)) = true).
  { intros factor Hf Hp. rewrite Ep.
    destruct (positive_finite factor Hf Hp) as (m & x & ->).
    apply div_mono_r, Math_trunc_mono.
    rewrite (mul_comm (Number_of_bigint amount)),
      (mul_comm (Number_of_bigint amount')).
    apply (mul_mono_l false m x _ _ Hn). }
  split; [ | split].
  - rewrite Ep. apply div_mono_r, Hn.
  - intros multiplier Hf Hp. split; [intros a; reflexivity | ].
    apply Hfactor; assumption.
  - intros now last init pre cur. cbv zeta. intros Hf Hp.
    split; [intros a; reflexivity | ]. apply Hfactor; assumption.
Qed.

Lemma forward_conversions_keep_order_witness :
  let shown (factor : number) (a : Z) :=
    div (Math_trunc (mul (Number_of_bigint a) factor)) (getDecimalFactor 6) in
  leb (div (Number_of_bigint 1499999) (getDecimalFactor 6))
      (div (Number_of_bigint 1500000) (getDecimalFactor 6)) = true
  /\ (forall multiplier,
        is_finite multiplier = true -> ltb (F 0) multiplier = true ->
        (forall a,
           amountToUiAmountForScaledUiAmountMintWithoutSimulation
             a 6 multiplier
           = Number_toString (shown multiplier a))
        /\ leb (shown multiplier 1499999) (shown multiplier 1500000) = true)
  /\ (forall now last init pre cur,
        let totalScale :=
          mul (calculateExponentForTimesAndRate Fixture.Math_exp init last pre)
              (calculateExponentForTimesAndRate Fixture.Math_exp last now cur) in
        is_finite totalScale = true -> ltb (F 0) totalScale = true ->
        (forall a,
           amountToUiAmountForInterestBearingMintWithoutSimulation
             Fixture.Math_exp a 6 now last init pre cur
           = Number_toString (shown totalScale a))
        /\ leb (shown totalScale 1499999) (shown totalScale 1500000) = true).
Proof.
  apply (forward_conversions_keep_order Fixture.Math_exp 1499999 1500000 6);
    lia.
Defined.
